(** * Community Connect: the task/volunteer engagement lifecycle

    A shallow embedding of the engagement lifecycle of the volunteer
    matching application: the handlers of [pages/1_NGO_Dashboard.py] and
    [pages/2_Volunteer_Dashboard.py] that write the [tasks],
    [volunteer_acceptances], [notifications] and [volunteers] tables through
    [lib/db.py], and the session rate limiter of [lib/rate_limiter.py].

    Conventions of the model.
    - A table is the list of its rows in insertion order; [SERIAL] keys come
      from a counter kept next to the table, so a key is never handed out
      twice.
    - [REAL] columns (wage rate, monetisation value, aggregate value) are
      exact rationals [Q]; statements about them use [==].
    - The TEXT columns [approval_status], [status] (of an acceptance) and
      [status] (of a task) only ever receive the literals the handlers write,
      and are enumerations here; no write leaves them NULL.  Date columns
      hold [str(date)]; the model keeps the date.
    - The [ngos] table, the profile forms and the passwords are left out:
      they write none of the columns above.
    - Every call of [execute], [fetchall] and [fetchone] is one statement in
      its own connection context: it commits on success and rolls back on
      failure.  Handlers live in a state-and-exception monad [M] over the
      store, with a fuse that says after how many statements the store
      fails.
    - Reads go to the store: [st.cache_data] wrappers are read-through
      caches and are not modelled.
    - The text helpers of the pages ([_sanitize_identifier],
      [_min_age_from_requirement]) are modelled on ASCII text. *)

From Stdlib Require Import ZArith QArith Qround Lia Bool List Ascii.
From stdpp Require Import base option list strings gmap pretty sorting.

Local Open Scope Z_scope.

(* ===================================================================== *)
(** * Calendar dates *)
(* ===================================================================== *)

Module Calendar.

(** A [datetime.date]: proleptic Gregorian year, month, day. *)
Record date : Type := mkdate { year : Z; month : Z; day : Z }.

#[global] Instance date_eq_dec : EqDecision date.
Proof. solve_decision. Defined.

Definition is_leap (y : Z) : bool :=
  (y mod 4 =? 0) && (negb (y mod 100 =? 0) || (y mod 400 =? 0)).

Definition days_in_month (y m : Z) : Z :=
  if m =? 2 then (if is_leap y then 29 else 28)
  else if (m =? 4) || (m =? 6) || (m =? 9) || (m =? 11) then 30
  else 31.

(** Days in the year [y] before the first day of month [m]. *)
Definition days_before_month (y m : Z) : Z :=
  let feb := if is_leap y then 29 else 28 in
  if m <=? 1 then 0
  else if m =? 2 then 31
  else if m =? 3 then 31 + feb
  else if m =? 4 then 62 + feb
  else if m =? 5 then 92 + feb
  else if m =? 6 then 123 + feb
  else if m =? 7 then 153 + feb
  else if m =? 8 then 184 + feb
  else if m =? 9 then 215 + feb
  else if m =? 10 then 245 + feb
  else if m =? 11 then 276 + feb
  else 306 + feb.

(** Days before January 1st of year [y]. *)
Definition days_before_year (y : Z) : Z :=
  let p := y - 1 in p * 365 + p / 4 - p / 100 + p / 400.

(** [date.toordinal()]: 0001-01-01 is day 1. *)
Definition toordinal (d : date) : Z :=
  days_before_year (year d) + days_before_month (year d) (month d) + day d.

Definition valid_date (d : date) : Prop :=
  1 <= year d /\ 1 <= month d <= 12 /\ 1 <= day d <= days_in_month (year d) (month d).

(** Dates compare as their (year, month, day) triples. *)
Definition date_ltb (a b : date) : bool :=
  (year a <? year b)
  || ((year a =? year b)
      && ((month a <? month b)
          || ((month a =? month b) && (day a <? day b)))).

Definition date_leb (a b : date) : bool := negb (date_ltb b a).

End Calendar.

Import Calendar.

(* ===================================================================== *)
(** * Exceptions *)
(* ===================================================================== *)

(** The exceptions that reach a handler. *)
Inductive exn : Type :=
  | OperationalError      (* the store failed the statement *)
  | UniqueViolation       (* IntegrityError: a UNIQUE constraint refused the row *)
  | ForeignKeyViolation   (* IntegrityError: a referenced row does not exist *)
  | InvalidRangeError.    (* end date before start date *)

(* ===================================================================== *)
(** * lib/monetisation_helper: the value calculator *)
(* ===================================================================== *)

Module Monetisation.

(** Modelled from the spec: [calculate_duration_days] of
    [lib/monetisation_helper], a module the pages import but whose file is
    not part of the sources.  "Inclusive day count between two calendar
    dates; fails with InvalidRangeError if end < start." *)
Definition duration_days (start_d end_d : date) : exn + Z :=
  if date_ltb end_d start_d then inl InvalidRangeError
  else inr (toordinal end_d - toordinal start_d + 1).

(** Rounding of a rational to the nearest integer, ties to even (what
    Python's [round] does). *)
Definition round_half_even (q : Q) : Z :=
  let f := Qfloor q in
  match Qcompare (q - inject_Z f) (1 # 2) with
  | Lt => f
  | Gt => f + 1
  | Eq => if Z.even f then f else f + 1
  end.

Definition round2 (q : Q) : Q := Qmake (round_half_even (q * 100)) 100.

(** Modelled from the spec: [calculate_volunteer_value] of
    [lib/monetisation_helper] (absent from the sources).
    "wage_rate × hours_per_day × duration_days, rounded to 2 decimal
    places.  Returns 0 if wage_rate is unset or ≤ 0."  An unset wage rate
    is [None]. *)
Definition engagement_value (wage_rate : option Q) (hours_per_day duration : Z) : Q :=
  match wage_rate with
  | None => 0%Q
  | Some w =>
      if Qle_bool w 0 then 0%Q
      else round2 (w * inject_Z hours_per_day * inject_Z duration)
  end.

End Monetisation.

Import Monetisation.

(* ===================================================================== *)
(** * lib/rate_limiter.py *)
(* ===================================================================== *)

Module RateLimiter.

(** [st.session_state], as far as the limiter uses it: a dictionary from
    keys to the list of the time stamps of the requests it let through.
    A time stamp is a [datetime], counted in microseconds. *)
Abbreviation session := (gmap string (list Z)).

Definition minutes (n : Z) : Z := n * 60 * 1000000.

(** [f"rate_limit_{user_id}_{action}"] *)
Definition rate_key (user_id : Z) (action : string) : string :=
  "rate_limit_" +:+ pretty user_id +:+ "_" +:+ action.

(** [check_rate_limit].  [now] and [now'] are the two readings of
    [datetime.now()], the first for the cutoff and the second for the
    stamp of the request.  The result is the returned flag and the
    session state the call leaves behind; [show_error] only decides
    whether the refusal is displayed and is left out. *)
Definition check_rate_limit (ss : session) (user_id : Z) (action : string)
    (max_requests window_minutes : Z) (now now' : Z) : bool * session :=
  let key := rate_key user_id action in
  let ss1 := match ss !! key with Some _ => ss | None => <[key := []]> ss end in
  let cutoff_time := now - minutes window_minutes in
  let recent := filter (fun timestamp => cutoff_time < timestamp) (default [] (ss1 !! key)) in
  let ss2 := <[key := recent]> ss1 in
  if bool_decide (max_requests <= Z.of_nat (length recent)) then (false, ss2)
  else (true, <[key := recent ++ [now']]> ss2).

(** [RATE_LIMITS]: action name to (max_requests, window_minutes). *)
Definition RATE_LIMITS : gmap string (Z * Z) :=
  list_to_map
    [ ("create_task", (10, 5));
      ("edit_task", (20, 5));
      ("delete_task", (10, 5));
      ("apply_task", (20, 5));
      ("update_profile", (5, 10));
      ("send_notification", (50, 5));
      ("approve_volunteer", (100, 5)) ].

Definition check_action_rate_limit (ss : session) (user_id : Z) (action : string)
    (now now' : Z) : bool * session :=
  match RATE_LIMITS !! action with
  | None => (true, ss)
  | Some (max_requests, window_minutes) =>
      check_rate_limit ss user_id action max_requests window_minutes now now'
  end.

(** The requests of one (user, action) pair seen by one session, from the
    first use of the key on.  [history ss allowed t] says: the session
    state is [ss], the stamps of the calls that returned [True] so far are
    [allowed] (oldest first), and the clock has reached [t].  Between two
    calls the session may change at other keys. *)
Inductive history (user_id : Z) (action : string) (max_requests window_minutes : Z)
  : session -> list Z -> Z -> Prop :=
| history_fresh ss t :
    ss !! rate_key user_id action = None ->
    history user_id action max_requests window_minutes ss [] t
| history_call ss allowed t now now' :
    history user_id action max_requests window_minutes ss allowed t ->
    t <= now -> now <= now' ->
    let r := check_rate_limit ss user_id action max_requests window_minutes now now' in
    history user_id action max_requests window_minutes
      r.2 (if r.1 then allowed ++ [now'] else allowed) now'
| history_other ss ss' allowed t :
    history user_id action max_requests window_minutes ss allowed t ->
    ss' !! rate_key user_id action = ss !! rate_key user_id action ->
    history user_id action max_requests window_minutes ss' allowed t.


End RateLimiter.

Import RateLimiter.

(* ===================================================================== *)
(** * Strings as the handlers use them *)
(* ===================================================================== *)

Module Text.

(** [needle in hay] *)
Fixpoint contains (needle hay : string) : bool :=
  String.prefix needle hay
  || match hay with
     | EmptyString => false
     | String _ rest => contains needle rest
     end.

(** The ASCII characters [str.strip()] removes. *)
Definition is_space (c : ascii) : bool :=
  let n := nat_of_ascii c in
  ((9 <=? n) && (n <=? 13) || (28 <=? n) && (n <=? 32))%nat.

Fixpoint lstrip (s : string) : string :=
  match s with
  | String c rest => if is_space c then lstrip rest else s
  | EmptyString => EmptyString
  end.

Fixpoint rstrip (s : string) : string :=
  match s with
  | EmptyString => EmptyString
  | String c rest =>
      match rstrip rest with
      | EmptyString => if is_space c then EmptyString else String c EmptyString
      | r => String c r
      end
  end.

(** [s.strip()] *)
Definition strip (s : string) : string := rstrip (lstrip s).

(** Truth value of a string: non-empty. *)
Definition nonempty (s : string) : bool :=
  match s with EmptyString => false | _ => true end.

Definition upper (c : ascii) : ascii :=
  let n := nat_of_ascii c in
  if ((97 <=? n) && (n <=? 122))%nat then ascii_of_nat (n - 32) else c.

Definition lower (c : ascii) : ascii :=
  let n := nat_of_ascii c in
  if ((65 <=? n) && (n <=? 90))%nat then ascii_of_nat (n + 32) else c.

Fixpoint map_string (f : ascii -> ascii) (s : string) : string :=
  match s with
  | EmptyString => EmptyString
  | String c rest => String (f c) (map_string f rest)
  end.

(** [s.capitalize()]: first character upper case, the rest lower case. *)
Definition capitalize (s : string) : string :=
  match s with
  | EmptyString => EmptyString
  | String c rest => String (upper c) (map_string lower rest)
  end.

(** [s.replace('_', ' ')] *)
Definition replace_underscores (s : string) : string :=
  map_string (fun c => if Ascii.eqb c "_" then " "%char else c) s.

(** [sep.join(parts)] *)
Fixpoint join (sep : string) (parts : list string) : string :=
  match parts with
  | [] => ""
  | [p] => p
  | p :: rest => p +:+ sep +:+ join sep rest
  end.

End Text.

Import Text.

(* ===================================================================== *)
(** * lib/db.py: the tables and the statements run against them *)
(* ===================================================================== *)

(** [volunteer_acceptances.approval_status] *)
Inductive approval : Type := Pending | Approved | Rejected.

(** [volunteer_acceptances.status] *)
Inductive completion : Type := Accepted | Completed | NotCompleted.

(** [tasks.status] *)
Inductive task_status : Type := Open | Closed.

#[global] Instance approval_eq_dec : EqDecision approval.
Proof. solve_decision. Defined.
#[global] Instance completion_eq_dec : EqDecision completion.
Proof. solve_decision. Defined.
#[global] Instance task_status_eq_dec : EqDecision task_status.
Proof. solve_decision. Defined.

(** A row of [tasks] (the columns the lifecycle reads or writes). *)
Record task : Type := mkTask {
  t_id : Z;
  t_ngo_id : Z;
  t_title : string;
  t_description : string;
  t_location : string;
  t_address : string;
  t_start_date : option date;
  t_end_date : option date;
  t_hours : Z;
  t_status : task_status;
  t_category : string;
  t_required_skills : string;
  t_max_volunteers : option Z;
  t_contact_email : string;
  t_contact_phone : string;
  t_deadline : option date;
  t_urgency : string;
  t_age_requirement : string;
  t_physical_requirements : string;
  t_equipment_needed : string;
  t_is_deleted : bool;
  t_wage_rate : Q
}.

(** A row of [volunteer_acceptances]: one engagement. *)
Record acceptance : Type := mkAcceptance {
  va_id : Z;
  va_task_id : Z;
  va_volunteer_id : Z;
  va_availability_date : option date;
  va_hours_committed : Z;
  va_contact_email : string;
  va_contact_phone : string;
  va_additional_notes : string;
  va_approval_status : approval;
  va_status : completion;
  va_completion_note : option string;
  va_certificate_pushed : bool;
  va_monetisation_value : Q
}.

(** A row of [notifications]. *)
Record notification : Type := mkNotification {
  n_id : Z;
  n_user_type : string;
  n_user_id : Z;
  n_message : string;
  n_notification_type : string;
  n_related_id : Z;
  n_is_read : bool
}.

(** A row of [volunteers]: the key and the aggregate value. *)
Record volunteer : Type := mkVolunteer {
  v_id : Z;
  v_total_value_generated : Q
}.

(** The database: each table with the last value of its [SERIAL] key. *)
Record store : Type := mkStore {
  tasks : list task;
  tasks_seq : Z;
  volunteer_acceptances : list acceptance;
  volunteer_acceptances_seq : Z;
  notifications : list notification;
  notifications_seq : Z;
  volunteers : list volunteer;
  volunteers_seq : Z
}.

Definition empty_store : store := mkStore [] 0 [] 0 [] 0 [] 0.

(** ** Row updates *)

Definition set_task_status (st : task_status) (t : task) : task :=
  mkTask (t_id t) (t_ngo_id t) (t_title t) (t_description t) (t_location t)
    (t_address t) (t_start_date t) (t_end_date t) (t_hours t) st (t_category t)
    (t_required_skills t) (t_max_volunteers t) (t_contact_email t)
    (t_contact_phone t) (t_deadline t) (t_urgency t) (t_age_requirement t)
    (t_physical_requirements t) (t_equipment_needed t) (t_is_deleted t)
    (t_wage_rate t).

Definition set_task_deleted (t : task) : task :=
  mkTask (t_id t) (t_ngo_id t) (t_title t) (t_description t) (t_location t)
    (t_address t) (t_start_date t) (t_end_date t) (t_hours t) (t_status t)
    (t_category t) (t_required_skills t) (t_max_volunteers t) (t_contact_email t)
    (t_contact_phone t) (t_deadline t) (t_urgency t) (t_age_requirement t)
    (t_physical_requirements t) (t_equipment_needed t) true (t_wage_rate t).

Definition set_approval (a : approval) (r : acceptance) : acceptance :=
  mkAcceptance (va_id r) (va_task_id r) (va_volunteer_id r) (va_availability_date r)
    (va_hours_committed r) (va_contact_email r) (va_contact_phone r)
    (va_additional_notes r) a (va_status r) (va_completion_note r)
    (va_certificate_pushed r) (va_monetisation_value r).

(** [SET status=?, completion_note=?] *)
Definition set_completion (c : completion) (note : option string) (r : acceptance) : acceptance :=
  mkAcceptance (va_id r) (va_task_id r) (va_volunteer_id r) (va_availability_date r)
    (va_hours_committed r) (va_contact_email r) (va_contact_phone r)
    (va_additional_notes r) (va_approval_status r) c note
    (va_certificate_pushed r) (va_monetisation_value r).

(** [SET status=?, completion_note=?, monetisation_value=?] *)
Definition set_completion_value (c : completion) (note : option string) (v : Q)
    (r : acceptance) : acceptance :=
  mkAcceptance (va_id r) (va_task_id r) (va_volunteer_id r) (va_availability_date r)
    (va_hours_committed r) (va_contact_email r) (va_contact_phone r)
    (va_additional_notes r) (va_approval_status r) c note
    (va_certificate_pushed r) v.

Definition set_certificate_pushed (r : acceptance) : acceptance :=
  mkAcceptance (va_id r) (va_task_id r) (va_volunteer_id r) (va_availability_date r)
    (va_hours_committed r) (va_contact_email r) (va_contact_phone r)
    (va_additional_notes r) (va_approval_status r) (va_status r)
    (va_completion_note r) true (va_monetisation_value r).

Definition set_notification_read (n : notification) : notification :=
  mkNotification (n_id n) (n_user_type n) (n_user_id n) (n_message n)
    (n_notification_type n) (n_related_id n) true.

Definition with_tasks (ts : list task) (seq : Z) (s : store) : store :=
  mkStore ts seq (volunteer_acceptances s) (volunteer_acceptances_seq s)
    (notifications s) (notifications_seq s) (volunteers s) (volunteers_seq s).

Definition with_acceptances (rs : list acceptance) (seq : Z) (s : store) : store :=
  mkStore (tasks s) (tasks_seq s) rs seq (notifications s) (notifications_seq s)
    (volunteers s) (volunteers_seq s).

Definition with_notifications (ns : list notification) (seq : Z) (s : store) : store :=
  mkStore (tasks s) (tasks_seq s) (volunteer_acceptances s)
    (volunteer_acceptances_seq s) ns seq (volunteers s) (volunteers_seq s).

Definition with_volunteers (vs : list volunteer) (seq : Z) (s : store) : store :=
  mkStore (tasks s) (tasks_seq s) (volunteer_acceptances s)
    (volunteer_acceptances_seq s) (notifications s) (notifications_seq s) vs seq.

(** ** Queries *)

(** [SELECT * FROM tasks WHERE id=?] *)
Definition task_by_id (s : store) (id : Z) : option task :=
  snd <$> list_find (fun t => t_id t = id) (tasks s).


(** [SELECT * FROM volunteer_acceptances WHERE task_id=? AND volunteer_id=?],
    first row. *)
Definition acceptance_of (s : store) (task_id volunteer_id : Z) : option acceptance :=
  snd <$> list_find (fun r => va_task_id r = task_id /\ va_volunteer_id r = volunteer_id)
            (volunteer_acceptances s).


(** A slot of the task is taken by the row:
    [approval_status='approved' AND (status IS NULL OR status IN
    ('accepted','completed'))]. *)
Definition occupies_slot (r : acceptance) : Prop :=
  va_approval_status r = Approved /\ (va_status r = Accepted \/ va_status r = Completed).

#[global] Instance occupies_slot_dec r : Decision (occupies_slot r).
Proof. unfold occupies_slot. apply _. Defined.

(** [SELECT COUNT( * ) FROM volunteer_acceptances WHERE task_id=? AND
    approval_status='approved' AND (status IS NULL OR status IN
    ('accepted','completed'))]: the approved count of the task. *)
Definition approved_count (s : store) (task_id : Z) : Z :=
  Z.of_nat (length (filter (fun r => va_task_id r = task_id /\ occupies_slot r)
                      (volunteer_acceptances s))).

(** The count the "Withdraw from Task" handler of the accepted tab takes:
    [WHERE task_id=? AND (status IS NULL OR status IN ('accepted','completed'))],
    with no condition on [approval_status]. *)
Definition accepted_or_completed_count (s : store) (task_id : Z) : Z :=
  Z.of_nat (length (filter (fun r => va_task_id r = task_id
                                     /\ (va_status r = Accepted \/ va_status r = Completed))
                      (volunteer_acceptances s))).

(** Truth value of a nullable integer: set and not 0. *)
Definition truthy (n : option Z) : bool :=
  match n with Some k => negb (k =? 0) | None => false end.

(** ** Writes *)

(** [INSERT INTO volunteer_acceptances(task_id, volunteer_id,
    availability_date, hours_committed, contact_email, contact_phone,
    additional_notes, approval_status, status) VALUES(?,?,?,?,?,?,?,
    'pending', 'accepted')].  [UNIQUE(task_id, volunteer_id)] and the two
    foreign keys are checked; the other columns take their defaults. *)
Definition insert_acceptance (task_id volunteer_id : Z) (availability : option date)
    (hours_committed : Z) (email phone notes : string) (s : store) : exn + (Z * store) :=
  if bool_decide (Exists (fun r => va_task_id r = task_id /\ va_volunteer_id r = volunteer_id)
                    (volunteer_acceptances s))
  then inl UniqueViolation
  else if negb (bool_decide (Exists (fun t => t_id t = task_id) (tasks s))
                && bool_decide (Exists (fun v => v_id v = volunteer_id) (volunteers s)))
  then inl ForeignKeyViolation
  else
    let id := volunteer_acceptances_seq s + 1 in
    let row := mkAcceptance id task_id volunteer_id availability hours_committed
                 email phone notes Pending Accepted None false 0%Q in
    inr (id, with_acceptances (volunteer_acceptances s ++ [row]) id s).

(** [DELETE FROM volunteer_acceptances WHERE id=?] *)
Definition delete_acceptance (id : Z) (s : store) : store :=
  with_acceptances (filter (fun r => va_id r <> id) (volunteer_acceptances s))
    (volunteer_acceptances_seq s) s.

(** [UPDATE volunteer_acceptances SET ... WHERE id=?] *)
Definition update_acceptance (id : Z) (f : acceptance -> acceptance) (s : store) : store :=
  with_acceptances
    (fmap (fun r => if decide (va_id r = id) then f r else r) (volunteer_acceptances s))
    (volunteer_acceptances_seq s) s.

(** [UPDATE tasks SET ... WHERE id=?] *)
Definition update_task (id : Z) (f : task -> task) (s : store) : store :=
  with_tasks (fmap (fun t => if decide (t_id t = id) then f t else t) (tasks s))
    (tasks_seq s) s.

(** [INSERT INTO notifications(user_type, user_id, message,
    notification_type, related_id) VALUES('volunteer', ?, ?, ?, ?)] *)
Definition insert_notification (user_id : Z) (message kind : string) (related_id : Z)
    (s : store) : Z * store :=
  let id := notifications_seq s + 1 in
  let row := mkNotification id "volunteer" user_id message kind related_id false in
  (id, with_notifications (notifications s ++ [row]) id s).

(** [UPDATE notifications SET is_read=1 WHERE id=?] *)
Definition mark_notification_read (id : Z) (s : store) : store :=
  with_notifications
    (fmap (fun n => if decide (n_id n = id) then set_notification_read n else n)
       (notifications s))
    (notifications_seq s) s.

(** The sum of the values of the volunteer's completed, approved
    engagements. *)
Definition completed_value (s : store) (volunteer_id : Z) : Q :=
  foldr Qplus 0%Q
    (fmap va_monetisation_value
       (filter (fun r => va_volunteer_id r = volunteer_id
                         /\ va_status r = Completed /\ va_approval_status r = Approved)
          (volunteer_acceptances s))).

(** Modelled from the spec: [update_volunteer_total_value] of
    [lib/monetisation_helper] (absent from the sources).  "Recompute owning
    volunteer's aggregate total value": the volunteer's
    [total_value_generated] becomes the sum of the values of their
    completed, approved engagements. *)
Definition update_volunteer_total_value (volunteer_id : Z) (s : store) : store :=
  with_volunteers
    (fmap (fun v => if decide (v_id v = volunteer_id)
                   then mkVolunteer (v_id v) (completed_value s volunteer_id)
                   else v)
       (volunteers s))
    (volunteers_seq s) s.

(** [register_user("volunteer", ...)] of [lib/auth.py]:
    [INSERT INTO volunteers(...)], the aggregate taking its default 0. *)
Definition insert_volunteer (s : store) : Z * store :=
  let id := volunteers_seq s + 1 in
  (id, with_volunteers (volunteers s ++ [mkVolunteer id 0%Q]) id s).

(** [SELECT total_value_generated FROM volunteers WHERE id=?] *)
Definition total_value_generated (s : store) (volunteer_id : Z) : option Q :=
  (fun p => v_total_value_generated p.2) <$> list_find (fun v => v_id v = volunteer_id) (volunteers s).

(* ===================================================================== *)
(** * Script runs: state, exceptions and the failing store *)
(* ===================================================================== *)

(** What a script run works on: the database, the session state of the
    browser session that runs the script, and the fuse of the store:
    [Some n] lets [n] more statements through and fails the next one,
    [None] never fails. *)
Record world : Type := mkWorld {
  db : store;
  fuse : option nat;
  session_state : gmap string (list Z)
}.

(** A computation of a script: it ends with a value or with an exception
    that nothing caught, and leaves a world behind. *)
Definition M (A : Type) : Type := world -> (exn + A) * world.

#[global] Instance M_ret : MRet M := fun A a w => (inr a, w).

#[global] Instance M_bind : MBind M := fun A B k m w =>
  match m w with
  | (inl e, w') => (inl e, w')
  | (inr a, w') => k a w'
  end.

Definition raise {A} (e : exn) : M A := fun w => (inl e, w).

(** [try: m except Exception as e: h e] *)
Definition try_except {A} (m : M A) (h : exn -> M A) : M A := fun w =>
  match m w with
  | (inl e, w') => h e w'
  | r => r
  end.

(** One statement through [get_conn]: when the store fails it, or a
    constraint refuses it, the connection rolls back and the exception
    goes up; otherwise the statement is committed. *)
Definition statement {A} (op : store -> exn + (A * store)) : M A := fun w =>
  match fuse w with
  | Some O => (inl OperationalError, w)
  | f =>
      match op (db w) with
      | inl e => (inl e, mkWorld (db w) (Nat.pred <$> f) (session_state w))
      | inr (a, s') => (inr a, mkWorld s' (Nat.pred <$> f) (session_state w))
      end
  end.

(** [execute(query, params)] for an UPDATE or a DELETE. *)
Definition execute (f : store -> store) : M unit :=
  statement (fun s => inr (tt, f s)).

(** [fetchall] / [fetchone] *)
Definition fetch {A} (q : store -> A) : M A :=
  statement (fun s => inr (q s, s)).

(** [for x in xs: body x] *)
Fixpoint for_each {A} (xs : list A) (body : A -> M unit) : M unit :=
  match xs with
  | [] => mret tt
  | x :: rest => body x ;; for_each rest body
  end.

(** [check_action_rate_limit] on the session state of the run. *)
Definition rate_limit_ok (user_id : Z) (action : string) (now now' : Z) : M bool := fun w =>
  let r := check_action_rate_limit (session_state w) user_id action now now' in
  (inr r.1, mkWorld (db w) (fuse w) r.2).

(** Running a script on a store that does not fail. *)
Definition run {A} (m : M A) (ss : gmap string (list Z)) (s : store) : (exn + A) * store :=
  let r := m (mkWorld s None ss) in (r.1, db r.2).

(* ===================================================================== *)
(** * pages/1_NGO_Dashboard.py: the tasks tab *)
(* ===================================================================== *)

(** The fields of the "Post a Task" and "Edit Task" forms. *)
Record task_form : Type := mkTaskForm {
  f_title : string;
  f_desc : string;
  f_loc : string;
  f_address : string;
  f_start_date : option date;
  f_end_date : option date;
  f_hours : Z;
  f_work_start_time : option Z;
  f_work_end_time : option Z;
  f_category : string;
  f_required_skills : string;
  f_max_volunteers : Z;
  f_contact_email : string;
  f_contact_phone : string;
  f_deadline : option date;
  f_urgency : string;
  f_age_requirement : string;
  f_physical : string;
  f_equipment : string;
  f_wage_rate : Q
}.

(** What the NGO user can press on the tasks tab.  The buttons under a
    volunteer carry the key of the acceptance row. *)
Inductive ngo_click : Type :=
  | SubmitCreateTask (form : task_form)
  | ClickMarkClosed (task_id : Z)
  | ClickConfirmDelete (task_id : Z) (del_reason : string)
  | ClickApprove (acceptance_id : Z)
  | ClickReject (acceptance_id : Z)
  | ClickWorkCompleted (acceptance_id : Z)
  | ClickCertificateSent (acceptance_id : Z)
  | SubmitWorkNotDone (acceptance_id : Z) (issue : string)
  | SubmitUpdateTask (task_id : Z) (form : task_form)
  | ClickConfirmRemove (acceptance_id task_id : Z).

(** [ORDER BY t.id DESC] *)
Definition id_desc (a b : task) : Prop := t_id b <= t_id a.

#[global] Instance id_desc_dec : RelDecision id_desc.
Proof. intros a b. unfold id_desc. apply _. Defined.

(** [get_tasks_with_counts]: the NGO's tasks that are not deleted, newest
    first, each with its [volunteer_count]. *)
Definition get_tasks_with_counts (ngo_id : Z) (s : store) : list (task * Z) :=
  fmap (fun t => (t, approved_count s (t_id t)))
    (merge_sort id_desc
       (filter (fun t => t_ngo_id t = ngo_id /\ t_is_deleted t = false) (tasks s))).

(** [get_task_volunteers]: the rows of the task, joined with their
    volunteer, newest first, as the pair of the ['approved'] and the
    ['pending'] list. *)
Definition get_task_volunteers (task_id : Z) (s : store)
    : list acceptance * list acceptance :=
  let all_vols :=
    reverse (filter (fun r => va_task_id r = task_id
                              /\ Exists (fun v => v_id v = va_volunteer_id r) (volunteers s))
               (volunteer_acceptances s)) in
  (filter (fun v => va_approval_status v = Approved) all_vols,
   filter (fun v => va_approval_status v = Pending) all_vols).

(** "Auto-close task if max volunteers reached", at the head of the
    expander of each task. *)
Definition auto_close (row : task * Z) : M unit :=
  let '(t, volunteer_count) := row in
  if truthy (t_max_volunteers t)
     && bool_decide (0 < default 0 (t_max_volunteers t))
     && bool_decide (default 0 (t_max_volunteers t) <= volunteer_count)
     && bool_decide (t_status t = Open)
  then execute (update_task (t_id t) (set_task_status Closed))
  else mret tt.

(** The INSERT of "Create Task". *)
Definition insert_task (ngo_id : Z) (f : task_form) (start_d end_d : date) (s : store)
    : exn + (Z * store) :=
  let id := tasks_seq s + 1 in
  let row := mkTask id ngo_id (f_title f) (f_desc f) (f_loc f) (f_address f)
               (Some start_d) (Some end_d) (f_hours f) Open (f_category f)
               (f_required_skills f) (Some (f_max_volunteers f)) (f_contact_email f)
               (f_contact_phone f) (f_deadline f) (f_urgency f) (f_age_requirement f)
               (f_physical f) (f_equipment f) false (f_wage_rate f) in
  inr (id, with_tasks (tasks s ++ [row]) id s).

(** "Create Task".  The result says whether the script asks for a rerun. *)
Definition create_task (ngo_id : Z) (f : task_form) (now now' : Z) : M bool :=
  ok ← rate_limit_ok ngo_id "create_task" now now';
  if negb ok then mret false
  else if negb (forallb nonempty [f_title f; f_desc f; f_loc f; f_address f;
                                  f_contact_email f; f_contact_phone f;
                                  f_category f; f_urgency f])
  then mret false
  else match f_start_date f, f_end_date f with
       | Some start_d, Some end_d =>
           if date_ltb end_d start_d then mret false
           else match f_work_start_time f, f_work_end_time f with
                | Some ws, Some we =>
                    if bool_decide (we <= ws) then mret false
                    else try_except
                           (statement (insert_task ngo_id f start_d end_d) ;; mret true)
                           (fun _ => mret false)
                | _, _ => mret false
                end
       | _, _ => mret false
       end.

(** "Mark Closed" *)
Definition mark_closed (t : task) : M unit :=
  execute (update_task (t_id t) (set_task_status Closed)).

(** "Confirm Delete": one notification for each row of the task, then the
    soft delete. *)
Definition confirm_delete (t : task) (del_reason : string) : M bool :=
  if negb (nonempty (strip del_reason)) then mret false
  else
    affected_volunteers ←
      fetch (fun s => fmap va_volunteer_id
                        (filter (fun r => va_task_id r = t_id t) (volunteer_acceptances s)));
    for_each affected_volunteers (fun vol =>
      statement (fun s => inr (insert_notification vol
        ("Task '" +:+ t_title t +:+ "' has been deleted. Reason: " +:+ strip del_reason)
        "task_deleted" (t_id t) s)) ;; mret tt) ;;
    execute (update_task (t_id t) set_task_deleted) ;;
    mret true.

(** "Approve" under a pending volunteer. *)
Definition approve (ngo_id : Z) (vol : acceptance) (now now' : Z) : M bool :=
  ok ← rate_limit_ok ngo_id "approve_volunteer" now now';
  if ok : bool
  then execute (update_acceptance (va_id vol) (set_approval Approved)) ;; mret true
  else mret false.

(** "Reject" under a pending volunteer. *)
Definition reject (vol : acceptance) : M bool :=
  execute (update_acceptance (va_id vol) (set_approval Rejected)) ;; mret true.

(** "Work Completed" under an approved volunteer. *)
Definition work_completed (t : task) (vol : acceptance) : M bool :=
  task_data ← fetch (fun s => task_by_id s (t_id t));
  match task_data with
  | Some td =>
      match t_start_date td, t_end_date td, negb (Qeq_bool (t_wage_rate td) 0) with
      | Some start_date, Some end_date, true =>
          match duration_days start_date end_date with
          | inl e => raise e
          | inr duration =>
              let monetisation_value :=
                engagement_value (Some (t_wage_rate td)) (t_hours td) duration in
              execute (update_acceptance (va_id vol)
                         (set_completion_value Completed None monetisation_value)) ;;
              execute (update_volunteer_total_value (va_volunteer_id vol)) ;;
              mret true
          end
      | _, _, _ =>
          (* No wage rate set, just mark as completed *)
          execute (update_acceptance (va_id vol) (set_completion Completed None)) ;;
          mret true
      end
  | None =>
      execute (update_acceptance (va_id vol) (set_completion Completed None)) ;;
      mret true
  end.

(** "Certificate Sent" under an approved volunteer, shown while
    [certificate_pushed] is not set. *)
Definition certificate_sent (t : task) (vol : acceptance) : M bool :=
  execute (update_acceptance (va_id vol) set_certificate_pushed) ;;
  statement (fun s => inr (insert_notification (va_volunteer_id vol)
    ("Certificate has been sent to your Email/Phone Number : " +:+ t_title t)
    "certificate_pushed" (va_id vol) s)) ;;
  mret true.

(** "Work Not Done" under an approved volunteer. *)
Definition work_not_done (vol : acceptance) (issue : string) : M bool :=
  if nonempty (strip issue) then
    execute (update_acceptance (va_id vol)
               (set_completion_value NotCompleted (Some (strip issue)) 0%Q)) ;;
    execute (update_volunteer_total_value (va_volunteer_id vol)) ;;
    mret true
  else mret false.

(** "Yes" of the removal confirmation; the context was stored when
    "Remove" was pressed under an approved volunteer. *)
Definition confirm_remove (acceptance_id task_id : Z) : M bool :=
  execute (delete_acceptance acceptance_id) ;;
  task_info ← fetch (fun s => task_by_id s task_id);
  match task_info with
  | Some ti =>
      if bool_decide (t_status ti = Closed) then
        let max_vols := default 0 (t_max_volunteers ti) in
        if negb (max_vols =? 0) then
          current_count ← fetch (fun s => approved_count s task_id);
          if bool_decide (current_count < max_vols)
          then execute (update_task task_id (set_task_status Open)) ;; mret true
          else mret true
        else mret true
      else mret true
  | None => mret true
  end.

(** The critical fields of "Update Task", in the order of the
    [critical_fields] dictionary, each with the outcome of
    [str(old_val) != str(new_val)]. *)
Definition critical_field_changed (task_to_edit : task) (f : task_form)
    (edit_start_date edit_end_date : date) : list (string * bool) :=
  [ ("start_date", bool_decide (t_start_date task_to_edit <> Some edit_start_date));
    ("end_date", bool_decide (t_end_date task_to_edit <> Some edit_end_date));
    ("hours", bool_decide (t_hours task_to_edit <> f_hours f));
    ("location", bool_decide (t_location task_to_edit <> f_loc f));
    ("address", bool_decide (t_address task_to_edit <> f_address f));
    ("contact_email", bool_decide (t_contact_email task_to_edit <> f_contact_email f));
    ("contact_phone", bool_decide (t_contact_phone task_to_edit <> f_contact_phone f));
    ("urgency", bool_decide (t_urgency task_to_edit <> f_urgency f));
    ("physical_requirements",
      bool_decide (t_physical_requirements task_to_edit <> f_physical f));
    ("age_requirement", bool_decide (t_age_requirement task_to_edit <> f_age_requirement f));
    ("equipment_needed", bool_decide (t_equipment_needed task_to_edit <> f_equipment f)) ].

(** [field.replace('_', ' ').capitalize()] *)
Definition field_name (field : string) : string :=
  capitalize (replace_underscores field).

(** The list [changes] of "Update Task". *)
Definition detect_changes (task_to_edit : task) (f : task_form)
    (edit_start_date edit_end_date : date) : list string :=
  fmap (fun p => field_name p.1)
    (filter (fun p => p.2 = true)
       (critical_field_changed task_to_edit f edit_start_date edit_end_date)).

(** The message of a [task_updated] notification. *)
Definition update_message (edit_title : string) (changes : list string) : string :=
  "Update for '" +:+ edit_title +:+ "': " +:+ join ", " changes
    +:+ " have been changed. Please check the latest details.".

(** The row after the UPDATE of "Update Task". *)
Definition edited_task (f : task_form) (edit_start_date edit_end_date : date) (t : task) : task :=
  mkTask (t_id t) (t_ngo_id t) (f_title f) (f_desc f) (f_loc f) (f_address f)
    (Some edit_start_date) (Some edit_end_date) (f_hours f) (t_status t) (f_category f)
    (f_required_skills f) (Some (f_max_volunteers f)) (f_contact_email f)
    (f_contact_phone f) (f_deadline f) (f_urgency f) (f_age_requirement f)
    (f_physical f) (f_equipment f) (t_is_deleted t) (f_wage_rate f).

(** The volunteers an edit is announced to:
    [SELECT volunteer_id FROM volunteer_acceptances WHERE task_id=? AND
    approval_status='approved']. *)
Definition approved_volunteers (task_id : Z) (s : store) : list Z :=
  fmap va_volunteer_id
    (filter (fun r => va_task_id r = task_id /\ va_approval_status r = Approved)
       (volunteer_acceptances s)).

(** "Update Task" *)
Definition submit_update_task (ngo_id : Z) (task_to_edit : task) (f : task_form)
    (now now' : Z) : M bool :=
  ok ← rate_limit_ok ngo_id "edit_task" now now';
  if negb ok then mret false
  else if negb (forallb nonempty [f_title f; f_desc f; f_loc f; f_address f;
                                  f_contact_email f; f_contact_phone f])
  then mret false
  else match f_start_date f, f_end_date f with
       | Some edit_start_date, Some edit_end_date =>
           if date_ltb edit_end_date edit_start_date then mret false
           else
             try_except
               (let changes := detect_changes task_to_edit f edit_start_date edit_end_date in
                execute (update_task (t_id task_to_edit)
                           (edited_task f edit_start_date edit_end_date)) ;;
                match changes with
                | [] => mret tt
                | _ =>
                    affected_volunteers ← fetch (approved_volunteers (t_id task_to_edit));
                    for_each affected_volunteers (fun vol =>
                      statement (fun s => inr (insert_notification vol
                        (update_message (f_title f) changes)
                        "task_updated" (t_id task_to_edit) s)) ;; mret tt)
                end ;;
                mret true)
               (fun _ => mret false)
       | _, _ => mret false
       end.

(** The expander of one task of the list: the auto-close, then the buttons.
    [click] is what the user pressed to start this run, if anything; a
    button answers only in the run that draws it.  The result says whether
    a handler asked for a rerun. *)
Definition task_expander (ngo_id : Z) (row : task * Z) (click : option ngo_click)
    (now now' : Z) : M bool :=
  let t := row.1 in
  auto_close row ;;
  rerun ← match click with
          | Some (ClickMarkClosed task_id) =>
              if bool_decide (task_id = t_id t) then mark_closed t ;; mret true
              else mret false
          | Some (ClickConfirmDelete task_id del_reason) =>
              if bool_decide (task_id = t_id t) then confirm_delete t del_reason
              else mret false
          | _ => mret false
          end;
  if rerun : bool then mret true
  else
    vols_data ← fetch (get_task_volunteers (t_id t));
    let approved_vols := vols_data.1 in
    let pending_vols := vols_data.2 in
    let drawn (vols : list acceptance) (id : Z) : option acceptance :=
      snd <$> list_find (fun r => va_id r = id) vols in
    match click with
    | Some (ClickApprove id) =>
        match drawn pending_vols id with
        | Some vol => approve ngo_id vol now now'
        | None => mret false
        end
    | Some (ClickReject id) =>
        match drawn pending_vols id with
        | Some vol => reject vol
        | None => mret false
        end
    | Some (ClickWorkCompleted id) =>
        match drawn approved_vols id with
        | Some vol => work_completed t vol
        | None => mret false
        end
    | Some (ClickCertificateSent id) =>
        match drawn approved_vols id with
        | Some vol =>
            if va_certificate_pushed vol then mret false else certificate_sent t vol
        | None => mret false
        end
    | Some (SubmitWorkNotDone id issue) =>
        match drawn approved_vols id with
        | Some vol => work_not_done vol issue
        | None => mret false
        end
    | _ => mret false
    end.

(** [for t in tasks: ...], left as soon as a handler asks for a rerun. *)
Fixpoint tasks_loop (ngo_id : Z) (rows : list (task * Z)) (click : option ngo_click)
    (now now' : Z) : M bool :=
  match rows with
  | [] => mret false
  | row :: rest =>
      rerun ← task_expander ngo_id row click now now';
      if rerun : bool then mret true else tasks_loop ngo_id rest click now now'
  end.

(** A run of the tasks tab in which nothing is pressed. *)
Definition render_tasks_tab (ngo_id : Z) (now now' : Z) : M unit :=
  tasks ← fetch (get_tasks_with_counts ngo_id);
  tasks_loop ngo_id tasks None now now' ;;
  mret tt.

(** [SELECT * FROM tasks WHERE id=? AND ngo_id=?] *)
Definition task_of_ngo (task_id ngo_id : Z) (s : store) : option task :=
  snd <$> list_find (fun t => t_id t = task_id /\ t_ngo_id t = ngo_id) (tasks s).

(** A run of the tasks tab started by [click], with the rerun a handler
    asks for. *)
Definition ngo_tasks_tab (ngo_id : Z) (click : ngo_click) (now now' : Z) : M unit :=
  created ← match click with
            | SubmitCreateTask form => create_task ngo_id form now now'
            | _ => mret false
            end;
  if created : bool then render_tasks_tab ngo_id now now'
  else
    tasks ← fetch (get_tasks_with_counts ngo_id);
    rerun ← tasks_loop ngo_id tasks (Some click) now now';
    if rerun : bool then render_tasks_tab ngo_id now now'
    else
      match click with
      | SubmitUpdateTask edit_task_id form =>
          match tasks with
          | [] => mret tt
          | _ =>
              task_to_edit ← fetch (task_of_ngo edit_task_id ngo_id);
              match task_to_edit with
              | Some t =>
                  updated ← submit_update_task ngo_id t form now now';
                  if updated : bool then render_tasks_tab ngo_id now now' else mret tt
              | None => mret tt
              end
          end
      | ClickConfirmRemove acceptance_id task_id =>
          confirm_remove acceptance_id task_id ;;
          render_tasks_tab ngo_id now now'
      | _ => mret tt
      end.

(* ===================================================================== *)
(** * pages/2_Volunteer_Dashboard.py *)
(* ===================================================================== *)

(** The fields of the "Apply for this task" form. *)
Record apply_form : Type := mkApplyForm {
  a_contact_email : string;
  a_contact_phone : string;
  a_additional_notes : string
}.

(** What the volunteer can press. *)
Inductive volunteer_click : Type :=
  | ClickMarkAsRead (notification_id : Z)
  | ClickRemoveFromMyList (task_id : Z)
  | ClickWithdrawApplication (task_id : Z)
  | ClickWithdraw (task_id : Z)
  | SubmitApply (task_id : Z) (form : apply_form)
  | ClickWithdrawFromTask (acceptance_id : Z).

Section VolunteerDashboard.

(** [str(e)] of an exception of the database driver. *)
Variable exn_text : exn -> string.

(** The tasks of the browse tab.  The query always asks for
    [tasks.is_deleted = 0]; its other conditions are filters the volunteer
    chooses, and are taken as not set. *)
Definition browse_tasks (s : store) : list task :=
  merge_sort id_desc (filter (fun t => t_is_deleted t = false) (tasks s)).

(** "Apply for Task" *)
Definition apply_for_task (t : task) (volunteer_id : Z) (form : apply_form)
    : M (option string) :=
  if negb (nonempty (strip (a_additional_notes form))) then
    mret (Some "Please explain why you should be accepted for this task. This field is required.")
  else if negb (nonempty (strip (a_contact_email form))) then
    mret (Some "Email is required.")
  else if negb (nonempty (strip (a_contact_phone form))) then
    mret (Some "Phone number is required.")
  else
    try_except
      (statement (insert_acceptance (t_id t) volunteer_id (t_start_date t) (t_hours t)
                    (a_contact_email form) (a_contact_phone form)
                    (a_additional_notes form)) ;;
       mret (Some "Application submitted successfully! Waiting for NGO approval."))
      (fun e =>
         if contains "UNIQUE constraint" (exn_text e)
         then mret (Some "You have already applied for this task.")
         else mret (Some ("Failed to submit application: " +:+ exn_text e))).

(** "Withdraw" of the browse tab, under an approved, accepted engagement. *)
Definition withdraw (t : task) (already_accepted : acceptance) : M (option string) :=
  execute (delete_acceptance (va_id already_accepted)) ;;
  (* Reopen task if it was closed and now has space *)
  (if bool_decide (t_status t = Closed) then
     if truthy (t_max_volunteers t) then
       current_count ← fetch (fun s => approved_count s (t_id t));
       if bool_decide (current_count < default 0 (t_max_volunteers t))
       then execute (update_task (t_id t) (set_task_status Open))
       else mret tt
     else mret tt
   else mret tt) ;;
  mret (Some "You have withdrawn from this task.").

(** The expander of one task of the browse tab. *)
Definition browse_expander (volunteer_id : Z) (t : task) (click : volunteer_click)
    : M (option string) :=
  already_accepted ← fetch (fun s => acceptance_of s (t_id t) volunteer_id);
  volunteer_count ← fetch (fun s => approved_count s (t_id t));
  let is_full :=
    truthy (t_max_volunteers t)
    && bool_decide (default 0 (t_max_volunteers t) <= volunteer_count) in
  if bool_decide (t_status t = Closed) then mret (Some "This task is closed.")
  else
    match already_accepted with
    | Some acc =>
        match va_approval_status acc with
        | Rejected =>
            match click with
            | ClickRemoveFromMyList _ =>
                execute (delete_acceptance (va_id acc)) ;; mret None
            | _ => mret (Some "Your application was rejected by the NGO.")
            end
        | Pending =>
            match click with
            | ClickWithdrawApplication _ =>
                execute (delete_acceptance (va_id acc)) ;;
                mret (Some "Application withdrawn.")
            | _ => mret (Some "Your application is pending NGO approval.")
            end
        | Approved =>
            if bool_decide (va_status acc = Accepted) then
              match click with
              | ClickWithdraw _ => withdraw t acc
              | _ => mret (Some "You have been approved for this task!")
              end
            else mret (Some "Withdrawal disabled after NGO review.")
        end
    | None =>
        if is_full then mret (Some "This task has reached maximum volunteers.")
        else
          match click with
          | SubmitApply _ form => apply_for_task t volunteer_id form
          | _ => mret None
          end
    end.

(** The rows of the accepted tab: the volunteer's rows, joined with their
    task. *)
Definition accepted_tasks (volunteer_id : Z) (s : store) : list acceptance :=
  reverse (filter (fun r => va_volunteer_id r = volunteer_id
                            /\ Exists (fun t => t_id t = va_task_id r) (tasks s))
             (volunteer_acceptances s)).

(** "Withdraw from Task" of the accepted tab, shown while the row's status
    is 'accepted'. *)
Definition withdraw_from_task (acc : acceptance) : M (option string) :=
  execute (delete_acceptance (va_id acc)) ;;
  (* Check if task should be reopened *)
  task_info ← fetch (fun s => task_by_id s (va_task_id acc));
  match task_info with
  | Some ti =>
      if bool_decide (t_status ti = Closed) then
        if truthy (t_max_volunteers ti) then
          current_count ← fetch (fun s => accepted_or_completed_count s (va_task_id acc));
          if bool_decide (current_count < default 0 (t_max_volunteers ti))
          then execute (update_task (va_task_id acc) (set_task_status Open))
          else mret tt
        else mret tt
      else mret tt
  | None => mret tt
  end ;;
  mret (Some "You have withdrawn from this task.").

(** The unread notifications of the volunteer. *)
Definition unread_notifications (volunteer_id : Z) (s : store) : list notification :=
  filter (fun n => n_user_type n = "volunteer" /\ n_user_id n = volunteer_id
                   /\ n_is_read n = false)
    (notifications s).

(** The task a browse-tab click belongs to. *)
Definition clicked_task (click : volunteer_click) : option Z :=
  match click with
  | ClickRemoveFromMyList task_id | ClickWithdrawApplication task_id
  | ClickWithdraw task_id | SubmitApply task_id _ => Some task_id
  | _ => None
  end.

(** A run of the volunteer dashboard started by [click].  The result is
    the message the page shows for it.  Only the expander the click belongs
    to is followed: the others read and write nothing of their own. *)
Definition volunteer_dashboard (volunteer_id : Z) (click : volunteer_click)
    : M (option string) :=
  match click with
  | ClickMarkAsRead notification_id =>
      notifs ← fetch (unread_notifications volunteer_id);
      if bool_decide (Exists (fun n => n_id n = notification_id) notifs)
      then execute (mark_notification_read notification_id) ;; mret None
      else mret None
  | ClickWithdrawFromTask acceptance_id =>
      rows ← fetch (accepted_tasks volunteer_id);
      match snd <$> list_find (fun r => va_id r = acceptance_id) rows with
      | Some acc =>
          if bool_decide (va_status acc = Accepted) then withdraw_from_task acc
          else mret (Some "Withdrawal disabled after NGO review.")
      | None => mret None
      end
  | _ =>
      tasks ← fetch browse_tasks;
      match snd <$> list_find (fun t => Some (t_id t) = clicked_task click) tasks with
      | Some t => browse_expander volunteer_id t click
      | None => mret None
      end
  end.

End VolunteerDashboard.

(* ===================================================================== *)
(** * The application as a transition system *)
(* ===================================================================== *)

Section Lifecycle.

Variable exn_text : exn -> string.

(** One event: a script run of one of the two dashboards, started by a
    click in some browser session, at some time, against a store that may
    fail at any statement; or the registration of a volunteer. *)
Inductive step : store -> store -> Prop :=
  | step_register_volunteer s :
      step s (insert_volunteer s).2
  | step_ngo s ngo_id click now now' fuse ss :
      step s (db (ngo_tasks_tab ngo_id click now now' (mkWorld s fuse ss)).2)
  | step_volunteer s volunteer_id click fuse ss :
      Exists (fun v => v_id v = volunteer_id) (volunteers s) ->
      step s (db (volunteer_dashboard exn_text volunteer_id click (mkWorld s fuse ss)).2).

(** The states the application can be in, from the empty tables of
    [init_db] on. *)
Inductive reachable : store -> Prop :=
  | reachable_init : reachable empty_store
  | reachable_step s s' : reachable s -> step s s' -> reachable s'.

End Lifecycle.

(* ===================================================================== *)
(** * Events on a store that does not fail, and a worked scenario *)
(* ===================================================================== *)

(** A run of the NGO's tasks tab, in a fresh session at time 0. *)
Definition ngo_event (ngo_id : Z) (click : ngo_click) (s : store) : store :=
  db (ngo_tasks_tab ngo_id click 0 0 (mkWorld s None ∅)).2.

(** A run of the volunteer dashboard. *)
Definition volunteer_event (exn_text : exn -> string) (volunteer_id : Z)
    (click : volunteer_click) (s : store) : store :=
  db (volunteer_dashboard exn_text volunteer_id click (mkWorld s None ∅)).2.

Definition register_event (s : store) : store := (insert_volunteer s).2.

Module Scenario.

(** The scenario of the specification: a one-day task for one volunteer,
    300 an hour, four hours a day. *)
Definition day : date := mkdate 2025 1 10.

Definition one_day_task : task_form :=
  mkTaskForm "Beach cleanup" "Collect litter" "Chennai" "Marina Beach"
    (Some day) (Some day) 4 (Some 9) (Some 13) "Environment" "" 1
    "ngo@example.org" "9999999999" None "Low" "No restriction" "" "" 300.

Definition application : apply_form :=
  mkApplyForm "vol@example.org" "8888888888" "I live nearby".

(** The row of the task once posted. *)
Definition the_task : task :=
  mkTask 1 1 "Beach cleanup" "Collect litter" "Chennai" "Marina Beach"
    (Some day) (Some day) 4 Open "Environment" "" (Some 1)
    "ngo@example.org" "9999999999" None "Low" "No restriction" "" "" false 300.

(** How an SQLite driver words its errors. *)
Definition sqlite_text (e : exn) : string :=
  match e with
  | OperationalError => "unable to open database file"
  | UniqueViolation =>
      "UNIQUE constraint failed: volunteer_acceptances.task_id, volunteer_acceptances.volunteer_id"
  | ForeignKeyViolation => "FOREIGN KEY constraint failed"
  | InvalidRangeError => "end date before start date"
  end.

Section Trace.

Variable exn_text : exn -> string.

(** Two volunteers register; NGO 1 posts the task. *)
Definition posted : store :=
  ngo_event 1 (SubmitCreateTask one_day_task) (register_event (register_event empty_store)).

(** Volunteer 1 applies. *)
Definition applied : store :=
  volunteer_event exn_text 1 (SubmitApply 1 application) posted.

(** Volunteer 2 applies as well, while volunteer 1 is still pending. *)
Definition applied_twice : store :=
  volunteer_event exn_text 2 (SubmitApply 1 application) applied.

(** The NGO approves volunteer 1, with volunteer 2 pending ... *)
Definition approved_first : store := ngo_event 1 (ClickApprove 1) applied_twice.

(** ... and then volunteer 2. *)
Definition approved_both : store := ngo_event 1 (ClickApprove 2) approved_first.

(** Volunteer 1 withdraws on the accepted tab, volunteer 2 still pending. *)
Definition withdrawn : store :=
  volunteer_event exn_text 1 (ClickWithdrawFromTask 1) approved_first.

(** Volunteer 1 applies and the NGO rejects the application. *)
Definition rejected : store := ngo_event 1 (ClickReject 1) applied.

(** The same without volunteer 2: approval, then completion. *)
Definition approved_alone : store := ngo_event 1 (ClickApprove 1) applied.

Definition completed : store := ngo_event 1 (ClickWorkCompleted 1) approved_alone.




End Trace.

End Scenario.

(* ===================================================================== *)
(** * lib/rate_limiter.py: the status and the reset *)
(* ===================================================================== *)

(** [min(recent_requests)] *)
Definition list_min (l : list Z) : option Z :=
  match l with
  | [] => None
  | x :: rest => Some (foldr Z.min x rest)
  end.

(** The dictionary [get_rate_limit_status] returns. *)
Record rate_limit_status : Type := mkStatus {
  count : Z;
  status_window_minutes : Z;
  reset_time : option Z
}.

(** [get_rate_limit_status]; [now] is the reading of [datetime.now()]. *)
Definition get_rate_limit_status (ss : session) (user_id : Z) (action : string)
    (window_minutes now : Z) : rate_limit_status :=
  let key := rate_key user_id action in
  match ss !! key with
  | None => mkStatus 0 window_minutes None
  | Some stamps =>
      let cutoff_time := now - minutes window_minutes in
      let recent_requests := filter (fun timestamp => cutoff_time < timestamp) stamps in
      mkStatus (Z.of_nat (length recent_requests)) window_minutes
        ((fun oldest_request => oldest_request + minutes window_minutes)
           <$> list_min recent_requests)
  end.

(** [reset_rate_limit]: an action that is [None] or the empty string resets
    every key of the user. *)
Definition reset_rate_limit (ss : session) (user_id : Z) (action : option string) : session :=
  if nonempty (default "" action)
  then delete (rate_key user_id (default "" action)) ss
  else filter (fun kv => String.prefix ("rate_limit_" +:+ pretty user_id +:+ "_") kv.1 = false) ss.

(* ===================================================================== *)
(** * lib/query_helpers.py: the analytics of an NGO *)
(* ===================================================================== *)



(* ===================================================================== *)
(** * Helpers of the pages *)
(* ===================================================================== *)

(** The characters of the class [[a-z0-9]]. *)
Definition is_lower_alnum (c : ascii) : bool :=
  let n := nat_of_ascii c in
  ((97 <=? n) && (n <=? 122) || (48 <=? n) && (n <=? 57))%nat.

(** [re.sub(r"[^a-z0-9]+", "_", s)]: every maximal run of characters
    outside the class becomes one underscore.  [in_run] says that the
    character before was outside the class. *)
Fixpoint sub_runs (in_run : bool) (s : string) : string :=
  match s with
  | EmptyString => EmptyString
  | String c rest =>
      if is_lower_alnum c then String c (sub_runs false rest)
      else if in_run then sub_runs true rest
      else String "_" (sub_runs true rest)
  end.

(** [s.lstrip("_")], [s.rstrip("_")] and [s.strip("_")] *)
Fixpoint lstrip_underscores (s : string) : string :=
  match s with
  | String c rest => if Ascii.eqb c "_" then lstrip_underscores rest else s
  | EmptyString => EmptyString
  end.

Fixpoint rstrip_underscores (s : string) : string :=
  match s with
  | EmptyString => EmptyString
  | String c rest =>
      match rstrip_underscores rest with
      | EmptyString => if Ascii.eqb c "_" then EmptyString else String c EmptyString
      | r => String c r
      end
  end.

Definition strip_underscores (s : string) : string :=
  rstrip_underscores (lstrip_underscores s).

(** [_sanitize_identifier] of [pages/1_NGO_Dashboard.py], on ASCII text:
    [re.sub(r"[^a-z0-9]+", "_", value.lower()).strip("_") or "file"]. *)
Definition _sanitize_identifier (value : string) : string :=
  let stripped := strip_underscores (sub_runs false (map_string lower value)) in
  if nonempty stripped then stripped else "file".

(** [ch.isdigit()], on ASCII text. *)
Definition is_digit (c : ascii) : bool :=
  let n := nat_of_ascii c in ((48 <=? n) && (n <=? 57))%nat.





(* ===================================================================== *)
(** * pages/2_Volunteer_Dashboard.py: the statistics of a volunteer *)
(* ===================================================================== *)



(* ===================================================================== *)
(** * pages/2_Volunteer_Dashboard.py: the day type filter *)
(* ===================================================================== *)

(** [date.weekday()]: Monday is 0, Sunday is 6. *)
Definition weekday (d : date) : Z := (toordinal d + 6) mod 7.

(** [is_weekend_day] and [is_weekday_day] of
    [pages/2_Volunteer_Dashboard.py].  The argument is a date column, which
    holds [str(date)] or NULL; the model keeps the date, and NULL (like the
    empty text) gives [False]. *)
Definition is_weekend_day (date_str : option date) : bool :=
  match date_str with
  | None => false
  | Some date_obj => bool_decide (weekday date_obj ∈ [5; 6])
  end.

Definition is_weekday_day (date_str : option date) : bool :=
  match date_str with
  | None => false
  | Some date_obj => bool_decide (weekday date_obj ∈ [0; 1; 2; 3; 4])
  end.

(** The choices of the "Day Type" filter of the browse tab. *)
Inductive day_type : Type := AllDays | Weekend | Weekday.

(** The day type filter.  [tasks.date], the column that [start_date] and
    [end_date] fall back to, is written by no handler and is NULL. *)
Definition day_type_filter_tasks (day_type_filter : day_type) (tasks : list task)
    : list task :=
  match day_type_filter with
  | Weekend =>
      filter (fun t => is_weekend_day (t_start_date t) || is_weekend_day (t_end_date t) = true)
        tasks
  | Weekday =>
      filter (fun t => is_weekday_day (t_start_date t) || is_weekday_day (t_end_date t) = true)
        tasks
  | AllDays => tasks
  end.

(* ===================================================================== *)
(** * The vocabulary of the statements *)
(* ===================================================================== *)

(** [triple I P m Q]: started in a store that satisfies [P], the
    computation [m] ends with a value [a] in a store that satisfies [Q a],
    or with an exception in a store that satisfies [I]; whatever the fuse
    and the session state are. *)
Definition triple {A} (I P : store -> Prop) (m : M A) (Q : A -> store -> Prop) : Prop :=
  forall w, P (db w) ->
    match m w with
    | (inl _, w') => I (db w')
    | (inr a, w') => Q a (db w')
    end.

(** A computation that keeps [P] whether it ends well or not. *)
Definition keeps {A} (P : store -> Prop) (m : M A) : Prop :=
  triple P P m (fun _ => P).

(** ** The invariants of the acceptance table *)

(** A value other than 0 sits only on a completed, approved engagement. *)
Definition value_only_when_completed (s : store) : Prop :=
  forall r, r ∈ volunteer_acceptances s ->
    ~ (va_monetisation_value r == 0)%Q ->
    va_status r = Completed /\ va_approval_status r = Approved.

(** Keys of acceptance rows come from the sequence: no two rows share one,
    and none is ahead of the sequence. *)
Definition acceptance_keys_ok (s : store) : Prop :=
  NoDup (fmap va_id (volunteer_acceptances s))
  /\ forall r, r ∈ volunteer_acceptances s -> va_id r <= volunteer_acceptances_seq s.

Definition acceptance_inv (s : store) : Prop :=
  value_only_when_completed s /\ acceptance_keys_ok s.

(** Every row with key [id] has approval status [a]. *)
Definition approval_of_key (id : Z) (a : approval) (s : store) : Prop :=
  forall r, r ∈ volunteer_acceptances s -> va_id r = id -> va_approval_status r = a.

(** No critical field differs between the stored task and the form. *)
Definition no_critical_change (task_to_edit : task) (f : task_form)
    (edit_start_date edit_end_date : date) : Prop :=
  t_start_date task_to_edit = Some edit_start_date
  /\ t_end_date task_to_edit = Some edit_end_date
  /\ t_hours task_to_edit = f_hours f
  /\ t_location task_to_edit = f_loc f
  /\ t_address task_to_edit = f_address f
  /\ t_contact_email task_to_edit = f_contact_email f
  /\ t_contact_phone task_to_edit = f_contact_phone f
  /\ t_urgency task_to_edit = f_urgency f
  /\ t_physical_requirements task_to_edit = f_physical f
  /\ t_age_requirement task_to_edit = f_age_requirement f
  /\ t_equipment_needed task_to_edit = f_equipment f.

(** The values the aggregate adds up. *)
Definition counted (volunteer_id : Z) (r : acceptance) : Prop :=
  va_volunteer_id r = volunteer_id /\ va_status r = Completed
  /\ va_approval_status r = Approved.

#[global] Instance counted_dec volunteer_id r : Decision (counted volunteer_id r).
Proof. unfold counted. apply _. Defined.



(** A computation is atomic when a run of it that ends with an exception
    leaves the database as it found it. *)
Definition atomic {A} (m : M A) : Prop :=
  forall w e w', m w = (inl e, w') -> db w' = db w.

(** A handler that reports failures itself is atomic when every run of it
    that does not report [success] leaves the database as it found it. *)
Definition atomic_unless {A} (success : A) (m : M A) : Prop :=
  forall w, (m w).1 = inr success \/ db (m w).2 = db w.


(** Atomicity as the specification words it: every transition is atomic,
    the soft delete with its notifications among them. *)
Definition every_transition_atomic : Prop :=
  forall (t : task) (del_reason : string), atomic (confirm_delete t del_reason).

(** ** Texts *)

(** Every character of the text satisfies [P]. *)
Fixpoint all_chars (P : ascii -> Prop) (s : string) : Prop :=
  match s with
  | EmptyString => True
  | String c rest => P c /\ all_chars P rest
  end.

(** The characters of a file name prefix: lower-case letters, digits and
    the underscore. *)
Definition is_identifier_char (c : ascii) : bool :=
  is_lower_alnum c || Ascii.eqb c "_".

Fixpoint string_forall (f : ascii -> bool) (s : string) : bool :=
  match s with
  | EmptyString => true
  | String c rest => f c && string_forall f rest
  end.

(** The last character of a text. *)
Fixpoint last_char (s : string) : option ascii :=
  match s with
  | EmptyString => None
  | String c EmptyString => Some c
  | String _ rest => last_char rest
  end.

Definition first_char (s : string) : option ascii :=
  match s with
  | EmptyString => None
  | String c _ => Some c
  end.

(** ** The invariants of the whole store *)

(** [UNIQUE(task_id, volunteer_id)] of [volunteer_acceptances]. *)
Definition pair_unique (s : store) : Prop :=
  NoDup (fmap (fun r => (va_task_id r, va_volunteer_id r)) (volunteer_acceptances s)).

(** The two foreign keys of [volunteer_acceptances]. *)
Definition references_ok (s : store) : Prop :=
  forall r, r ∈ volunteer_acceptances s ->
    Exists (fun t => t_id t = va_task_id r) (tasks s)
    /\ Exists (fun v => v_id v = va_volunteer_id r) (volunteers s).

(** An engagement the NGO has reviewed (completed or not completed) is an
    approved one. *)
Definition reviewed_only_when_approved (s : store) : Prop :=
  forall r, r ∈ volunteer_acceptances s ->
    va_status r <> Accepted -> va_approval_status r = Approved.

(** Keys of tasks and of notifications come from their sequences. *)
Definition task_keys_ok (s : store) : Prop :=
  NoDup (t_id <$> tasks s) /\ forall t, t ∈ tasks s -> t_id t <= tasks_seq s.

Definition notification_keys_ok (s : store) : Prop :=
  NoDup (n_id <$> notifications s)
  /\ forall n, n ∈ notifications s -> n_id n <= notifications_seq s.

(** A task has both its dates, and does not end before it starts. *)
Definition task_dated (t : task) : Prop :=
  exists start_d end_d,
    t_start_date t = Some start_d /\ t_end_date t = Some end_d
    /\ date_ltb end_d start_d = false.

Definition store_inv (s : store) : Prop :=
  acceptance_inv s /\ reviewed_only_when_approved s /\ pair_unique s
  /\ references_ok s /\ task_keys_ok s /\ (forall t, t ∈ tasks s -> task_dated t)
  /\ notification_keys_ok s.

(** What stays of a state [s0] in a later state [s]: its tasks, with their
    owner and their deletion mark; its notifications, up to the read mark;
    and, for the engagements that are still there, the pair they are for
    and the decision the NGO took on them. *)
Definition tasks_kept (s0 s : store) : Prop :=
  forall t0, t0 ∈ tasks s0 ->
    exists t, t ∈ tasks s /\ t_id t = t_id t0 /\ t_ngo_id t = t_ngo_id t0
              /\ (t_is_deleted t0 = true -> t_is_deleted t = true).

Definition notifications_kept (s0 s : store) : Prop :=
  forall n0, n0 ∈ notifications s0 ->
    exists n, n ∈ notifications s /\ n_id n = n_id n0 /\ n_user_type n = n_user_type n0
              /\ n_user_id n = n_user_id n0 /\ n_message n = n_message n0
              /\ n_notification_type n = n_notification_type n0
              /\ n_related_id n = n_related_id n0
              /\ (n_is_read n0 = true -> n_is_read n = true).

Definition decisions_kept (s0 s : store) : Prop :=
  (forall r0 r, r0 ∈ volunteer_acceptances s0 -> r ∈ volunteer_acceptances s ->
     va_id r = va_id r0 ->
     va_task_id r = va_task_id r0 /\ va_volunteer_id r = va_volunteer_id r0
     /\ (va_approval_status r0 <> Pending -> va_approval_status r = va_approval_status r0))
  /\ (forall r0, r0 ∈ volunteer_acceptances s0 -> va_id r0 <= volunteer_acceptances_seq s).

Definition evolves (s0 s : store) : Prop :=
  tasks_kept s0 s /\ notifications_kept s0 s /\ decisions_kept s0 s.

Definition evolution_inv (s0 s : store) : Prop := store_inv s /\ evolves s0 s.

(** An edit of task rows that the invariants allow. *)
Definition task_edit_ok (f : task -> task) : Prop :=
  forall t, t_id (f t) = t_id t /\ t_ngo_id (f t) = t_ngo_id t
            /\ (t_is_deleted t = true -> t_is_deleted (f t) = true)
            /\ (task_dated t -> task_dated (f t)).

(** An edit of the acceptance rows with key [id] that the invariants
    allow. *)
Definition row_edit_ok (s : store) (id : Z) (f : acceptance -> acceptance) : Prop :=
  forall r, r ∈ volunteer_acceptances s -> va_id r = id ->
    va_id (f r) = va_id r /\ va_task_id (f r) = va_task_id r
    /\ va_volunteer_id (f r) = va_volunteer_id r
    /\ (~ (va_monetisation_value (f r) == 0)%Q ->
        va_status (f r) = Completed /\ va_approval_status (f r) = Approved)
    /\ (va_status (f r) <> Accepted -> va_approval_status (f r) = Approved)
    /\ (va_approval_status r <> Pending -> va_approval_status (f r) = va_approval_status r).

Section Evolution.

Variable exn_text : exn -> string.

(** The states the application can get to from the state [s0]. *)
Inductive reachable_from (s0 : store) : store -> Prop :=
  | from_here : reachable_from s0 s0
  | from_step s s' : reachable_from s0 s -> step exn_text s s' -> reachable_from s0 s'.

End Evolution.

(** ** What single runs leave and write *)

(** What a run of the dashboard of volunteer [v] leaves of the state [s0]
    it started in: the engagements of the other volunteers, the
    [volunteers] table, the notifications of the other users, and every
    task, up to a reopening. *)
Definition volunteer_frame (v : Z) (s0 s : store) : Prop :=
  filter (fun r => va_volunteer_id r <> v) (volunteer_acceptances s)
  = filter (fun r => va_volunteer_id r <> v) (volunteer_acceptances s0)
  /\ volunteers s = volunteers s0
  /\ filter (fun n => n_user_id n <> v) (notifications s)
     = filter (fun n => n_user_id n <> v) (notifications s0)
  /\ Forall2 (fun t0 t => t = t0 \/ t = set_task_status Open t0) (tasks s0) (tasks s).

(** The invariants of the store, and what a run of volunteer [v] leaves. *)
Definition volunteer_run_inv (v : Z) (s0 s : store) : Prop :=
  evolution_inv s0 s /\ volunteer_frame v s0 s.


(** The condition of the auto-close at the head of an expander. *)
Definition at_capacity (row : task * Z) : bool :=
  truthy (t_max_volunteers row.1)
  && bool_decide (0 < default 0 (t_max_volunteers row.1))
  && bool_decide (default 0 (t_max_volunteers row.1) <= row.2).

(** The write of the auto-close of one expander. *)
Definition close_if_full (s : store) (row : task * Z) : store :=
  if at_capacity row && bool_decide (t_status row.1 = Open)
  then update_task (t_id row.1) (set_task_status Closed) s
  else s.

(** The engagement is for a task of the NGO. *)
Definition engagement_of_ngo (s : store) (ngo_id : Z) (r : acceptance) : Prop :=
  Exists (fun t => t_id t = va_task_id r /\ t_ngo_id t = ngo_id) (tasks s).

#[global] Instance engagement_of_ngo_dec s ngo_id r : Decision (engagement_of_ngo s ngo_id r).
Proof. unfold engagement_of_ngo. apply _. Defined.

(** ** Applications, totals and forms *)

(** The task takes no application: it is deleted, closed, or has its
    places taken. *)
Definition unavailable (s : store) (t : task) : Prop :=
  t_is_deleted t = true \/ t_status t = Closed
  \/ (truthy (t_max_volunteers t) = true
      /\ default 0 (t_max_volunteers t) <= approved_count s (t_id t)).


(** The checks of "Create Task" on the form. *)
Definition valid_task_form (f : task_form) (start_d end_d : date) : Prop :=
  forallb nonempty [f_title f; f_desc f; f_loc f; f_address f; f_contact_email f;
                    f_contact_phone f; f_category f; f_urgency f] = true
  /\ f_start_date f = Some start_d /\ f_end_date f = Some end_d
  /\ date_leb start_d end_d = true
  /\ exists ws we, f_work_start_time f = Some ws /\ f_work_end_time f = Some we /\ ws < we.

(* ===================================================================== *)
(** * The calendar and the value calculator *)
(* ===================================================================== *)

Section CalendarFacts.

Lemma days_before_year_succ (y : Z) :
  days_before_year (y + 1) = days_before_year y + (if is_leap y then 366 else 365).
Proof.
  unfold days_before_year, is_leap.
  replace (y + 1 - 1) with y by lia.
  destruct (Z.eqb_spec (y mod 4) 0), (Z.eqb_spec (y mod 100) 0),
    (Z.eqb_spec (y mod 400) 0); cbv [andb orb negb];
    Z.div_mod_to_equations; lia.
Qed.

Lemma days_before_year_mono (y y' : Z) :
  y <= y' -> days_before_year y' - days_before_year y >= 365 * (y' - y).
Proof.
  intros H. replace y' with (y + Z.of_nat (Z.to_nat (y' - y))) by lia.
  induction (Z.to_nat (y' - y)) as [|n IH].
  - replace (y + Z.of_nat 0) with y by lia. lia.
  - replace (y + Z.of_nat (S n)) with (y + Z.of_nat n + 1) by lia.
    rewrite days_before_year_succ. destruct (is_leap _); lia.
Qed.

(** Within a valid date, month and day offsets stay inside the year. *)
Lemma day_of_year_bounds (d : date) :
  valid_date d ->
  1 <= days_before_month (year d) (month d) + day d
    <= (if is_leap (year d) then 366 else 365).
Proof.
  intros (Hy & Hm & Hd). revert Hd.
  unfold days_before_month, days_in_month.
  assert (month d = 1 \/ month d = 2 \/ month d = 3 \/ month d = 4 \/
          month d = 5 \/ month d = 6 \/ month d = 7 \/ month d = 8 \/
          month d = 9 \/ month d = 10 \/ month d = 11 \/ month d = 12) as Hc by lia.
  destruct (is_leap (year d));
    repeat (destruct Hc as [-> | Hc]; [simpl; lia |]); rewrite Hc; simpl; lia.
Qed.

Lemma days_before_month_step (y m : Z) :
  1 <= m < 12 ->
  days_before_month y (m + 1) = days_before_month y m + days_in_month y m.
Proof.
  intros Hm. unfold days_before_month, days_in_month.
  assert (m = 1 \/ m = 2 \/ m = 3 \/ m = 4 \/ m = 5 \/ m = 6 \/ m = 7 \/
          m = 8 \/ m = 9 \/ m = 10 \/ m = 11) as Hc by lia.
  destruct (is_leap y);
    repeat (destruct Hc as [-> | Hc]; [simpl; lia |]); rewrite Hc; simpl; lia.
Qed.

Lemma days_in_month_pos (y m : Z) : 28 <= days_in_month y m.
Proof.
  unfold days_in_month.
  destruct (m =? 2); [destruct (is_leap y); lia |].
  destruct ((m =? 4) || (m =? 6) || (m =? 9) || (m =? 11)); lia.
Qed.

Lemma days_before_month_mono (y m m' : Z) :
  1 <= m -> m < m' -> m' <= 12 ->
  days_before_month y m + days_in_month y m <= days_before_month y m'.
Proof.
  intros H1 Hlt H12.
  replace m' with (m + 1 + Z.of_nat (Z.to_nat (m' - m - 1))) in * by lia.
  induction (Z.to_nat (m' - m - 1)) as [|n IH].
  - replace (m + 1 + Z.of_nat 0) with (m + 1) by lia.
    rewrite days_before_month_step by lia. lia.
  - replace (m + 1 + Z.of_nat (S n)) with (m + 1 + Z.of_nat n + 1) in * by lia.
    rewrite days_before_month_step by lia.
    pose proof (days_in_month_pos y (m + 1 + Z.of_nat n)). lia.
Qed.

(** The ordinal is strictly monotone on valid dates. *)
Lemma toordinal_lt (a b : date) :
  valid_date a -> valid_date b -> date_ltb a b = true ->
  toordinal a < toordinal b.
Proof.
  intros Ha Hb Hlt.
  pose proof (day_of_year_bounds a Ha) as Ba.
  pose proof (day_of_year_bounds b Hb) as Bb.
  destruct Ha as (Hya & Hma & Hda), Hb as (Hyb & Hmb & Hdb).
  unfold date_ltb in Hlt. unfold toordinal.
  apply orb_true_iff in Hlt as [Hy | Hlt].
  - apply Z.ltb_lt in Hy.
    pose proof (days_before_year_mono (year a + 1) (year b) ltac:(lia)) as Hm.
    rewrite days_before_year_succ in Hm.
    destruct (is_leap (year a)); lia.
  - apply andb_true_iff in Hlt as [Hy Hlt]. apply Z.eqb_eq in Hy.
    rewrite Hy in *.
    apply orb_true_iff in Hlt as [Hm | Hlt].
    + apply Z.ltb_lt in Hm.
      pose proof (days_before_month_mono (year b) (month a) (month b)
                    ltac:(lia) Hm ltac:(lia)). lia.
    + apply andb_true_iff in Hlt as [Hm Hd].
      apply Z.eqb_eq in Hm. apply Z.ltb_lt in Hd. rewrite Hm. lia.
Qed.

Lemma date_ltb_irrefl (d : date) : date_ltb d d = false.
Proof.
  unfold date_ltb. rewrite !Z.ltb_irrefl, !Z.eqb_refl. reflexivity.
Qed.

(** The order on dates is total: not [b < a] and not [a < b] is [a = b]. *)
Lemma date_ltb_total (a b : date) :
  date_ltb a b = false -> date_ltb b a = false -> a = b.
Proof.
  destruct a as [ya ma da], b as [yb mb db]. unfold date_ltb; simpl.
  intros H1 H2.
  destruct (Z.ltb_spec ya yb), (Z.ltb_spec yb ya); simpl in *; try discriminate; try lia.
  assert (ya = yb) by lia; subst.
  rewrite Z.eqb_refl in *; simpl in *.
  destruct (Z.ltb_spec ma mb), (Z.ltb_spec mb ma); simpl in *; try discriminate; try lia.
  assert (ma = mb) by lia; subst.
  rewrite Z.eqb_refl in *; simpl in *.
  destruct (Z.ltb_spec da db), (Z.ltb_spec db da); simpl in *; try discriminate; try lia.
  f_equal; lia.
Qed.

End CalendarFacts.

(** C7.  [duration_days] counts the calendar days from [start_d] to [end_d],
    both included: for valid dates with [end_d] not before [start_d] it
    returns an integer that is at least 1 (the difference of the day numbers
    plus one); on one and the same date it returns 1; and when [end_d] is
    before [start_d] it fails with [InvalidRangeError]. *)
Theorem duration_days_inclusive (start_d end_d : date) :
  valid_date start_d -> valid_date end_d ->
  (date_leb start_d end_d = true ->
     exists n, duration_days start_d end_d = inr n /\ 1 <= n
               /\ n = toordinal end_d - toordinal start_d + 1)
  /\ duration_days start_d start_d = inr 1
  /\ (date_ltb end_d start_d = true ->
        duration_days start_d end_d = inl InvalidRangeError).
Proof.
  intros Hs He. repeat split.
  - intros Hle. unfold date_leb in Hle. apply negb_true_iff in Hle.
    unfold duration_days. rewrite Hle.
    eexists; split; [reflexivity | split; [| reflexivity]].
    destruct (date_ltb start_d end_d) eqn:Hlt.
    + pose proof (toordinal_lt _ _ Hs He Hlt). lia.
    + rewrite (date_ltb_total _ _ Hlt Hle). lia.
  - unfold duration_days. rewrite date_ltb_irrefl. f_equal. lia.
  - intros Hlt. unfold duration_days. now rewrite Hlt.
Qed.

Lemma duration_days_inclusive_witness :
  let s := mkdate 2024 2 28 in
  let e := mkdate 2024 3 1 in
  duration_days s e = inr 3
  /\ duration_days s s = inr 1
  /\ duration_days (mkdate 2024 3 6) e = inl InvalidRangeError.
Proof.
  intros s e.
  assert (Hs : valid_date s) by (repeat split; vm_compute; discriminate).
  assert (He : valid_date e) by (repeat split; vm_compute; discriminate).
  assert (H6 : valid_date (mkdate 2024 3 6)) by (repeat split; vm_compute; discriminate).
  destruct (duration_days_inclusive s e Hs He) as (H1 & H2 & _).
  destruct (duration_days_inclusive (mkdate 2024 3 6) e H6 He) as (_ & _ & H3).
  split; [| split].
  - destruct (H1 eq_refl) as (n & Hn & _ & Heq). rewrite Hn, Heq. reflexivity.
  - exact H2.
  - exact (H3 eq_refl).
Defined.

(* ===================================================================== *)
(** * The rate limiter *)
(* ===================================================================== *)

Section RateLimiterFacts.

Lemma filter_filter_lt (c c' : Z) (l : list Z) :
  c <= c' ->
  filter (fun x => c' < x) (filter (fun x => c < x) l) = filter (fun x => c' < x) l.
Proof.
  intros Hc. induction l as [|x l IH]; [reflexivity |].
  rewrite (filter_cons (fun x => c < x)). destruct (decide (c < x)) as [Hx | Hx].
  - rewrite !filter_cons. destruct (decide (c' < x)); now rewrite IH.
  - rewrite IH, filter_cons. destruct (decide (c' < x)); [lia | reflexivity].
Qed.

Lemma check_rate_limit_log ss user_id action max_requests window_minutes now now' :
  let recent := filter (fun x => now - minutes window_minutes < x)
                  (default [] (ss !! rate_key user_id action)) in
  let r := check_rate_limit ss user_id action max_requests window_minutes now now' in
  r.1 = negb (bool_decide (max_requests <= Z.of_nat (length recent)))
  /\ r.2 !! rate_key user_id action = Some (if r.1 then recent ++ [now'] else recent).
Proof.
  unfold check_rate_limit.
  set (key := rate_key user_id action).
  assert (default [] (match ss !! key with Some _ => ss | None => <[key:=[]]> ss end !! key)
          = default [] (ss !! key)) as ->.
  { destruct (ss !! key) eqn:E; [now rewrite E | now rewrite lookup_insert_eq]. }
  simpl. destruct (bool_decide _); simpl; split; try reflexivity.
  - now rewrite lookup_insert_eq.
  - now rewrite lookup_insert_eq.
Qed.

(** What the session keeps for the key is the part of the history that was
    inside the window at the last call: for any later cutoff the stored
    log and the whole history select the same stamps. *)
Lemma history_log user_id action max_requests window_minutes ss allowed t :
  0 <= window_minutes ->
  history user_id action max_requests window_minutes ss allowed t ->
  (forall x, x ∈ allowed -> x <= t)
  /\ forall c, t - minutes window_minutes <= c ->
       filter (fun x => c < x) (default [] (ss !! rate_key user_id action))
       = filter (fun x => c < x) allowed.
Proof.
  intros Hw H. induction H as [ss t Hnone | ss allowed t now now' H IH Ht Hn r
                               | ss ss' allowed t H IH Heq].
  - split; [intros x Hx; inversion Hx |]. intros c _. now rewrite Hnone.
  - destruct IH as [IHle IH].
    pose proof (check_rate_limit_log ss user_id action max_requests
                  window_minutes now now') as [Hr1 Hr2].
    fold r in Hr1, Hr2. split.
    + intros x Hx. destruct (r.1).
      * apply elem_of_app in Hx as [Hx | Hx]; [specialize (IHle x Hx); lia |].
        apply list_elem_of_singleton in Hx. lia.
      * specialize (IHle x Hx). lia.
    + intros c Hc. rewrite Hr2. simpl.
      assert (Hmin : minutes window_minutes >= 0) by (unfold minutes; lia).
      destruct (r.1).
      * rewrite !filter_app. f_equal.
        rewrite filter_filter_lt by lia. apply IH. lia.
      * rewrite filter_filter_lt by lia. apply IH. lia.
  - destruct IH as [IHle IH]. split; [exact IHle |].
    intros c Hc. rewrite Heq. now apply IH.
Qed.

End RateLimiterFacts.


(** The 11th [create_task] request inside five minutes is refused. *)
Example create_task_eleventh_refused :
  let call ss t := (check_action_rate_limit ss 7 "create_task" t t).2 in
  let ss10 := fold_left call (fmap (fun i => Z.of_nat i * 1000000) (seq 1 10)) ∅ in
  (check_action_rate_limit ss10 7 "create_task" 11000000 11000000).1 = false
  /\ (check_action_rate_limit ss10 7 "create_task" (minutes 5 + 1000000) (minutes 5 + 1000000)).1 = true.
Proof. vm_compute. split; reflexivity. Qed.


(* ===================================================================== *)
(** * Reasoning about script runs *)
(* ===================================================================== *)


Section TripleRules.

Context {A B : Type}.
Implicit Types (I P : store -> Prop).

Lemma triple_ret I P (a : A) (Q : A -> store -> Prop) :
  (forall s, P s -> Q a s) -> triple I P (mret a) Q.
Proof. intros H w Hw. simpl. auto. Qed.

Lemma triple_raise I P (e : exn) (Q : A -> store -> Prop) :
  (forall s, P s -> I s) -> triple I P (raise e) Q.
Proof. intros H w Hw. simpl. auto. Qed.

Lemma triple_bind I P (m : M A) (k : A -> M B) (R : A -> store -> Prop)
    (Q : B -> store -> Prop) :
  triple I P m R -> (forall a, triple I (R a) (k a) Q) -> triple I P (m ≫= k) Q.
Proof.
  intros Hm Hk w Hw. specialize (Hm w Hw).
  unfold mbind, M_bind. destruct (m w) as [[e | a] w']; [exact Hm |].
  exact (Hk a w' Hm).
Qed.

Lemma triple_statement I P (op : store -> exn + (A * store)) (Q : A -> store -> Prop) :
  (forall s, P s -> I s) ->
  (forall s a s', P s -> op s = inr (a, s') -> Q a s') ->
  triple I P (statement op) Q.
Proof.
  intros HI HQ w Hw. unfold statement.
  destruct (fuse w) as [[|n] |]; simpl; auto;
    destruct (op (db w)) as [e | [a s']] eqn:E; simpl; eauto.
Qed.

Lemma triple_fetch I P (q : store -> A) (Q : A -> store -> Prop) :
  (forall s, P s -> I s) -> (forall s, P s -> Q (q s) s) -> triple I P (fetch q) Q.
Proof.
  intros HI HQ. apply triple_statement; [exact HI |].
  intros s a s' Hs Heq. inversion Heq; subst. auto.
Qed.

Lemma triple_try I I' P (m : M A) (h : exn -> M A) (Q : A -> store -> Prop) :
  triple I' P m Q -> (forall e, triple I I' (h e) Q) -> triple I P (try_except m h) Q.
Proof.
  intros Hm Hh w Hw. specialize (Hm w Hw). unfold try_except.
  destruct (m w) as [[e | a] w']; [exact (Hh e w' Hm) | exact Hm].
Qed.

Lemma triple_conseq I P P' (m : M A) (Q Q' : A -> store -> Prop) :
  triple I P' m Q' -> (forall s, P s -> P' s) -> (forall a s, Q' a s -> Q a s) ->
  triple I P m Q.
Proof.
  intros Hm HP HQ w Hw. specialize (Hm w (HP _ Hw)).
  destruct (m w) as [[e | a] w']; auto.
Qed.

End TripleRules.

Lemma triple_execute I P (f : store -> store) (Q : unit -> store -> Prop) :
  (forall s, P s -> I s) -> (forall s, P s -> Q tt (f s)) -> triple I P (execute f) Q.
Proof.
  intros HI HQ. apply triple_statement; [exact HI |].
  intros s a s' Hs Heq. inversion Heq; subst. auto.
Qed.

Lemma triple_rate_limit_ok I P user_id action now now' (Q : bool -> store -> Prop) :
  (forall b s, P s -> Q b s) -> triple I P (rate_limit_ok user_id action now now') Q.
Proof. intros H w Hw. simpl. auto. Qed.

Lemma triple_for_each {A} I P (xs : list A) (body : A -> M unit) :
  (forall x, triple I P (body x) (fun _ => P)) ->
  triple I P (for_each xs body) (fun _ => P).
Proof.
  intros Hb. induction xs as [|x xs IH]; simpl.
  - apply triple_ret. auto.
  - eapply triple_bind; [apply Hb | intros ?; exact IH].
Qed.


Section KeepsRules.

Context {A B : Type} (P : store -> Prop).

Lemma keeps_ret (a : A) : keeps P (mret a).
Proof. apply triple_ret. auto. Qed.

Lemma keeps_raise (e : exn) : keeps P (raise e : M A).
Proof. apply triple_raise. auto. Qed.

Lemma keeps_bind (m : M A) (k : A -> M B) :
  keeps P m -> (forall a, keeps P (k a)) -> keeps P (m ≫= k).
Proof. intros Hm Hk. eapply triple_bind; [exact Hm | exact Hk]. Qed.

Lemma keeps_statement (op : store -> exn + (A * store)) :
  (forall s a s', P s -> op s = inr (a, s') -> P s') -> keeps P (statement op).
Proof. intros H. apply triple_statement; auto. Qed.

Lemma keeps_fetch (q : store -> A) : keeps P (fetch q).
Proof. apply triple_fetch; auto. Qed.

(** What a fetch returns may be used by what follows it. *)
Lemma keeps_fetch_bind (q : store -> A) (k : A -> M B) :
  (forall a, triple P (fun s => P s /\ a = q s) (k a) (fun _ => P)) ->
  keeps P (fetch q ≫= k).
Proof.
  intros Hk. eapply triple_bind; [| exact Hk].
  apply triple_fetch; auto.
Qed.

Lemma keeps_try (m : M A) (h : exn -> M A) :
  keeps P m -> (forall e, keeps P (h e)) -> keeps P (try_except m h).
Proof. intros Hm Hh. eapply triple_try; [exact Hm | exact Hh]. Qed.

End KeepsRules.

Lemma keeps_execute P (f : store -> store) :
  (forall s, P s -> P (f s)) -> keeps P (execute f).
Proof. intros H. apply triple_execute; auto. Qed.

Lemma keeps_rate_limit_ok P user_id action now now' :
  keeps P (rate_limit_ok user_id action now now').
Proof. apply triple_rate_limit_ok. auto. Qed.

Lemma keeps_for_each {A} P (xs : list A) (body : A -> M unit) :
  (forall x, keeps P (body x)) -> keeps P (for_each xs body).
Proof. apply triple_for_each. Qed.

(** A guarded computation keeps [P] when it does so from the guard on. *)
Lemma keeps_weaken {A} (P G : store -> Prop) (m : M A) :
  keeps P m -> triple P (fun s => P s /\ G s) m (fun _ => P).
Proof. intros H. eapply triple_conseq; [exact H | tauto | auto]. Qed.

Create HintDb keeps discriminated.

#[local] Hint Resolve keeps_ret keeps_raise keeps_fetch keeps_rate_limit_ok : keeps.

(** Takes a computation apart along its binds, conditionals and matches. *)
Ltac keeps_split :=
  repeat first
    [ solve [auto 1 with keeps nocore]
    | progress cbv zeta
    | apply keeps_ret
    | apply keeps_raise
    | apply keeps_fetch
    | apply keeps_rate_limit_ok
    | apply keeps_bind; [| intros ? ]
    | apply keeps_try; [| intros ? ]
    | apply keeps_for_each; intros ?
    | match goal with
      | |- keeps _ (if ?b then _ else _) => destruct b
      | |- keeps _ (match ?x with _ => _ end) => destruct x
      end ].

(** ** Writes and the invariants of the acceptance table *)

Section AcceptanceInvariant.

Lemma key_determines_row {A} (f : A -> Z) (l : list A) x y :
  NoDup (f <$> l) -> x ∈ l -> y ∈ l -> f x = f y -> x = y.
Proof.
  induction l as [|a l IH]; intros Hn Hx Hy Heq; [inversion Hx |].
  rewrite fmap_cons in Hn. apply NoDup_cons in Hn as [Ha Hn].
  apply elem_of_cons in Hx as [-> | Hx]; apply elem_of_cons in Hy as [-> | Hy]; auto.
  - exfalso. apply Ha. rewrite Heq. now apply list_elem_of_fmap_2.
  - exfalso. apply Ha. rewrite <- Heq. now apply list_elem_of_fmap_2.
Qed.

Lemma acceptance_inv_same (s s' : store) :
  volunteer_acceptances s' = volunteer_acceptances s ->
  volunteer_acceptances_seq s' = volunteer_acceptances_seq s ->
  acceptance_inv s -> acceptance_inv s'.
Proof.
  intros Hl Hq [Hv [Hn Hk]]. unfold acceptance_inv, value_only_when_completed,
    acceptance_keys_ok. rewrite Hl, Hq. auto.
Qed.

Lemma acceptance_inv_update_task id f s :
  acceptance_inv s -> acceptance_inv (update_task id f s).
Proof. now apply acceptance_inv_same. Qed.

Lemma acceptance_inv_insert_notification v msg kind rel s :
  acceptance_inv s -> acceptance_inv (insert_notification v msg kind rel s).2.
Proof. now apply acceptance_inv_same. Qed.

Lemma acceptance_inv_update_total v s :
  acceptance_inv s -> acceptance_inv (update_volunteer_total_value v s).
Proof. now apply acceptance_inv_same. Qed.

Lemma acceptance_inv_mark_read id s :
  acceptance_inv s -> acceptance_inv (mark_notification_read id s).
Proof. now apply acceptance_inv_same. Qed.

Lemma acceptance_inv_insert_volunteer s :
  acceptance_inv s -> acceptance_inv (insert_volunteer s).2.
Proof. now apply acceptance_inv_same. Qed.

Lemma acceptance_inv_insert_task ngo f sd ed s id s' :
  insert_task ngo f sd ed s = inr (id, s') -> acceptance_inv s -> acceptance_inv s'.
Proof. intros [= _ <-]. now apply acceptance_inv_same. Qed.

Lemma acceptance_inv_delete id s :
  acceptance_inv s -> acceptance_inv (delete_acceptance id s).
Proof.
  intros [Hv [Hn Hk]]. split; [| split]; simpl.
  - intros r Hr. apply list_elem_of_filter in Hr as [_ Hr]. auto.
  - apply (NoDup_fmap_2_strong va_id); [| now apply NoDup_filter, (NoDup_fmap_1 va_id)].
    intros x y Hx Hy Heq.
    apply list_elem_of_filter in Hx as [_ Hx]. apply list_elem_of_filter in Hy as [_ Hy].
    apply (key_determines_row va_id (volunteer_acceptances s)); auto.
  - intros r Hr. apply list_elem_of_filter in Hr as [_ Hr]. auto.
Qed.

Lemma acceptance_inv_insert t v av h e p n s id s' :
  insert_acceptance t v av h e p n s = inr (id, s') ->
  acceptance_inv s -> acceptance_inv s'.
Proof.
  unfold insert_acceptance. intros Hins [Hv [Hn Hk]].
  destruct (bool_decide _); [discriminate |].
  destruct (negb _); [discriminate |].
  injection Hins as <- <-. split; [| split]; simpl.
  - intros r Hr. apply elem_of_app in Hr as [Hr | Hr]; [auto |].
    apply list_elem_of_singleton in Hr as ->. simpl. intros H. now destruct H.
  - rewrite fmap_app. apply NoDup_app. split; [exact Hn | split].
    + intros x Hx Hx'. apply list_elem_of_singleton in Hx'. subst x.
      apply list_elem_of_fmap in Hx as (r & Heq & Hr). specialize (Hk r Hr).
      simpl in Heq. lia.
    + simpl. apply NoDup_singleton.
  - intros r Hr. apply elem_of_app in Hr as [Hr | Hr]; [specialize (Hk r Hr); lia |].
    apply list_elem_of_singleton in Hr as ->. simpl. lia.
Qed.

(** An update that keeps the key of the rows it touches, and leaves them
    with no value or completed and approved, keeps the invariants. *)
Lemma acceptance_inv_update id f s :
  (forall r, va_id (f r) = va_id r) ->
  (forall r, r ∈ volunteer_acceptances s -> va_id r = id ->
     ~ (va_monetisation_value (f r) == 0)%Q ->
     va_status (f r) = Completed /\ va_approval_status (f r) = Approved) ->
  acceptance_inv s -> acceptance_inv (update_acceptance id f s).
Proof.
  intros Hid Hf [Hv [Hn Hk]]. split; [| split]; simpl.
  - intros r' Hr'. apply list_elem_of_fmap in Hr' as (r & -> & Hr).
    destruct (decide (va_id r = id)); auto.
  - rewrite <- list_fmap_compose.
    erewrite list_fmap_ext; [exact Hn |].
    intros i r _. simpl. destruct (decide (va_id r = id)); auto.
  - intros r' Hr'. apply list_elem_of_fmap in Hr' as (r & -> & Hr).
    destruct (decide (va_id r = id)); [rewrite Hid |]; auto.
Qed.

Lemma acceptance_inv_approve id s :
  acceptance_inv s -> acceptance_inv (update_acceptance id (set_approval Approved) s).
Proof.
  intros H. apply acceptance_inv_update; auto.
  intros r Hr _ Hnz. simpl in *. destruct H as [Hv _].
  destruct (Hv r Hr Hnz). auto.
Qed.

Lemma acceptance_inv_reject id s :
  approval_of_key id Pending s ->
  acceptance_inv s -> acceptance_inv (update_acceptance id (set_approval Rejected) s).
Proof.
  intros Hg H. apply acceptance_inv_update; auto.
  intros r Hr Hid Hnz. simpl in *. destruct H as [Hv _].
  destruct (Hv r Hr Hnz) as [_ Ha]. rewrite (Hg r Hr Hid) in Ha. discriminate.
Qed.

Lemma acceptance_inv_complete id note s :
  approval_of_key id Approved s ->
  acceptance_inv s ->
  acceptance_inv (update_acceptance id (set_completion Completed note) s).
Proof.
  intros Hg H. apply acceptance_inv_update; auto.
  intros r Hr Hid _. simpl. split; [reflexivity | exact (Hg r Hr Hid)].
Qed.

Lemma acceptance_inv_complete_value id note v s :
  approval_of_key id Approved s ->
  acceptance_inv s ->
  acceptance_inv (update_acceptance id (set_completion_value Completed note v) s).
Proof.
  intros Hg H. apply acceptance_inv_update; auto.
  intros r Hr Hid _. simpl. split; [reflexivity | exact (Hg r Hr Hid)].
Qed.

Lemma acceptance_inv_not_completed id note s :
  acceptance_inv s ->
  acceptance_inv (update_acceptance id (set_completion_value NotCompleted note 0%Q) s).
Proof.
  intros H. apply acceptance_inv_update; auto.
  intros r Hr Hid Hnz. simpl in Hnz. now destruct Hnz.
Qed.

Lemma acceptance_inv_certificate id s :
  acceptance_inv s -> acceptance_inv (update_acceptance id set_certificate_pushed s).
Proof.
  intros H. apply acceptance_inv_update; auto.
  intros r Hr _ Hnz. simpl in *. destruct H as [Hv _]. exact (Hv r Hr Hnz).
Qed.

(** With distinct keys, the row drawn under a key is the only one with it. *)
Lemma approval_of_drawn (vols : list acceptance) id vol a s :
  acceptance_inv s ->
  snd <$> list_find (fun r => va_id r = id) vols = Some vol ->
  (forall r, r ∈ vols -> r ∈ volunteer_acceptances s /\ va_approval_status r = a) ->
  approval_of_key (va_id vol) a s.
Proof.
  intros [_ [Hn _]] Hfind Hin r Hr Hid.
  destruct (list_find _ vols) as [[i vol'] |] eqn:E; [| discriminate].
  simpl in Hfind. injection Hfind as ->.
  apply list_find_Some in E as (Hi & _ & _).
  apply list_elem_of_lookup_2 in Hi. destruct (Hin vol Hi) as [Hvol Ha].
  rewrite (key_determines_row va_id _ r vol Hn Hr Hvol Hid). exact Ha.
Qed.

End AcceptanceInvariant.

(** ** Every handler keeps the invariants of the acceptance table *)

Section HandlersKeepInvariant.

Variable exn_text : exn -> string.

Lemma keeps_update_task id f : keeps acceptance_inv (execute (update_task id f)).
Proof. apply keeps_execute. intros s. apply acceptance_inv_update_task. Qed.

Lemma keeps_notify v msg kind rel :
  keeps acceptance_inv (statement (fun s => inr (insert_notification v msg kind rel s))).
Proof.
  apply keeps_statement. intros s a s' Hs [= _ <-].
  now apply acceptance_inv_insert_notification.
Qed.

Lemma keeps_update_total v : keeps acceptance_inv (execute (update_volunteer_total_value v)).
Proof. apply keeps_execute. intros s. apply acceptance_inv_update_total. Qed.

Lemma keeps_delete id : keeps acceptance_inv (execute (delete_acceptance id)).
Proof. apply keeps_execute. intros s. apply acceptance_inv_delete. Qed.

Lemma keeps_mark_read id : keeps acceptance_inv (execute (mark_notification_read id)).
Proof. apply keeps_execute. intros s. apply acceptance_inv_mark_read. Qed.

Lemma keeps_set_approved id :
  keeps acceptance_inv (execute (update_acceptance id (set_approval Approved))).
Proof. apply keeps_execute. intros s. apply acceptance_inv_approve. Qed.

Lemma keeps_set_not_completed id note :
  keeps acceptance_inv
    (execute (update_acceptance id (set_completion_value NotCompleted note 0%Q))).
Proof. apply keeps_execute. intros s. apply acceptance_inv_not_completed. Qed.

Lemma keeps_set_certificate id :
  keeps acceptance_inv (execute (update_acceptance id set_certificate_pushed)).
Proof. apply keeps_execute. intros s. apply acceptance_inv_certificate. Qed.

Lemma keeps_insert_task ngo f sd ed :
  keeps acceptance_inv (statement (insert_task ngo f sd ed)).
Proof.
  apply keeps_statement. intros s a s' Hs H. eapply acceptance_inv_insert_task; eauto.
Qed.

Lemma keeps_insert_acceptance t v av h e p n :
  keeps acceptance_inv (statement (insert_acceptance t v av h e p n)).
Proof.
  apply keeps_statement. intros s a s' Hs H. eapply acceptance_inv_insert; eauto.
Qed.

#[local] Hint Resolve keeps_update_task keeps_notify keeps_update_total keeps_delete
  keeps_mark_read keeps_set_approved keeps_set_not_completed keeps_set_certificate
  keeps_insert_task keeps_insert_acceptance : keeps.

Ltac keeps_auto := keeps_split; auto with keeps.

Lemma keeps_auto_close row : keeps acceptance_inv (auto_close row).
Proof. destruct row as [t n]. unfold auto_close. keeps_auto. Qed.

Lemma keeps_create_task ngo f now now' : keeps acceptance_inv (create_task ngo f now now').
Proof. unfold create_task. keeps_auto. Qed.

Lemma keeps_mark_closed t : keeps acceptance_inv (mark_closed t).
Proof. unfold mark_closed. keeps_auto. Qed.

Lemma keeps_confirm_delete t reason : keeps acceptance_inv (confirm_delete t reason).
Proof. unfold confirm_delete. keeps_auto. Qed.

Lemma keeps_approve ngo vol now now' : keeps acceptance_inv (approve ngo vol now now').
Proof. unfold approve. keeps_auto. Qed.

Lemma keeps_certificate_sent t vol : keeps acceptance_inv (certificate_sent t vol).
Proof. unfold certificate_sent. keeps_auto. Qed.

Lemma keeps_work_not_done vol issue : keeps acceptance_inv (work_not_done vol issue).
Proof. unfold work_not_done. keeps_auto. Qed.

Lemma keeps_confirm_remove a t : keeps acceptance_inv (confirm_remove a t).
Proof. unfold confirm_remove. keeps_auto. Qed.

Lemma keeps_submit_update_task ngo t f now now' :
  keeps acceptance_inv (submit_update_task ngo t f now now').
Proof. unfold submit_update_task. keeps_auto. Qed.

(** "Reject" needs the row to be pending, as the page that draws the
    button has it. *)
Lemma keeps_reject vol :
  triple acceptance_inv
    (fun s => acceptance_inv s /\ approval_of_key (va_id vol) Pending s)
    (reject vol) (fun _ => acceptance_inv).
Proof.
  unfold reject. eapply triple_bind.
  - apply triple_execute with (Q := fun _ => acceptance_inv); [tauto |].
    intros s [Hs Hg]. now apply acceptance_inv_reject.
  - intros ?. apply keeps_ret.
Qed.

(** "Work Completed" needs the row to be approved. *)
Lemma keeps_work_completed t vol :
  triple acceptance_inv
    (fun s => acceptance_inv s /\ approval_of_key (va_id vol) Approved s)
    (work_completed t vol) (fun _ => acceptance_inv).
Proof.
  unfold work_completed.
  set (G := fun s => acceptance_inv s /\ approval_of_key (va_id vol) Approved s).
  assert (Hplain : triple acceptance_inv G
            (execute (update_acceptance (va_id vol) (set_completion Completed None)) ;;
             mret true) (fun _ => acceptance_inv)).
  { eapply triple_bind.
    - apply triple_execute with (Q := fun _ => acceptance_inv); [unfold G; tauto |].
      intros s [Hs Hg]. now apply acceptance_inv_complete.
    - intros ?. apply keeps_ret. }
  eapply triple_bind.
  - apply triple_fetch with (Q := fun _ => G); [unfold G; tauto | auto].
  - intros [td |]; [| exact Hplain].
    destruct (t_start_date td); [| exact Hplain].
    destruct (t_end_date td); [| exact Hplain].
    destruct (negb _); [| exact Hplain].
    destruct (duration_days _ _) as [e | duration].
    + apply triple_raise. unfold G; tauto.
    + eapply triple_bind.
      * apply triple_execute with (Q := fun _ => acceptance_inv); [unfold G; tauto |].
        intros s [Hs Hg]. now apply acceptance_inv_complete_value.
      * intros ?. keeps_auto.
Qed.

(** The rows [get_task_volunteers] hands to the page are rows of the table
    with the approval status of their list. *)
Lemma get_task_volunteers_rows task_id s :
  (forall r, r ∈ (get_task_volunteers task_id s).1 ->
     r ∈ volunteer_acceptances s /\ va_approval_status r = Approved)
  /\ (forall r, r ∈ (get_task_volunteers task_id s).2 ->
        r ∈ volunteer_acceptances s /\ va_approval_status r = Pending).
Proof.
  unfold get_task_volunteers; simpl. split; intros r Hr;
    apply list_elem_of_filter in Hr as [Ha Hr];
    apply elem_of_reverse, list_elem_of_filter in Hr as [_ Hr]; auto.
Qed.

Lemma keeps_task_expander ngo row click now now' :
  keeps acceptance_inv (task_expander ngo row click now now').
Proof.
  unfold task_expander.
  apply keeps_bind; [apply keeps_auto_close | intros _].
  apply keeps_bind.
  { destruct click as [[]|]; keeps_auto;
      auto using keeps_mark_closed, keeps_confirm_delete. }
  intros [|]; [apply keeps_ret |].
  apply keeps_fetch_bind. intros vols.
  assert (Hdrawn : forall id vol a (which : list acceptance * list acceptance -> list acceptance),
             (which = fst /\ a = Approved \/ which = snd /\ a = Pending) ->
             snd <$> list_find (fun r => va_id r = id) (which vols) = Some vol ->
             forall s, acceptance_inv s /\ vols = get_task_volunteers (t_id row.1) s ->
                       acceptance_inv s /\ approval_of_key (va_id vol) a s).
  { intros id vol a which Hw Hfind s [Hs ->]. split; [exact Hs |].
    eapply approval_of_drawn; [exact Hs | exact Hfind |].
    destruct (get_task_volunteers_rows (t_id row.1) s) as [H1 H2].
    destruct Hw as [[-> ->] | [-> ->]]; auto. }
  destruct click as [[]|]; simpl; try (apply keeps_weaken, keeps_ret).
  - destruct (snd <$> list_find _ vols.2) as [vol|]; [| apply keeps_weaken, keeps_ret].
    apply keeps_weaken, keeps_approve.
  - destruct (snd <$> list_find _ vols.2) as [vol|] eqn:E; [| apply keeps_weaken, keeps_ret].
    eapply triple_conseq; [apply keeps_reject | | auto].
    eapply (Hdrawn _ _ _ snd); eauto.
  - destruct (snd <$> list_find _ vols.1) as [vol|] eqn:E; [| apply keeps_weaken, keeps_ret].
    eapply triple_conseq; [apply keeps_work_completed | | auto].
    eapply (Hdrawn _ _ _ fst); eauto.
  - destruct (snd <$> list_find _ vols.1) as [vol|]; [| apply keeps_weaken, keeps_ret].
    destruct (va_certificate_pushed vol); apply keeps_weaken;
      [apply keeps_ret | apply keeps_certificate_sent].
  - destruct (snd <$> list_find _ vols.1) as [vol|]; [| apply keeps_weaken, keeps_ret].
    apply keeps_weaken, keeps_work_not_done.
Qed.

Lemma keeps_tasks_loop ngo rows click now now' :
  keeps acceptance_inv (tasks_loop ngo rows click now now').
Proof.
  induction rows as [|row rows IH]; simpl; [apply keeps_ret |].
  apply keeps_bind; [apply keeps_task_expander |].
  intros [|]; [apply keeps_ret | exact IH].
Qed.

Lemma keeps_render_tasks_tab ngo now now' :
  keeps acceptance_inv (render_tasks_tab ngo now now').
Proof. unfold render_tasks_tab. keeps_auto. apply keeps_tasks_loop. Qed.

Lemma keeps_ngo_tasks_tab ngo click now now' :
  keeps acceptance_inv (ngo_tasks_tab ngo click now now').
Proof.
  unfold ngo_tasks_tab.
  apply keeps_bind; [destruct click; auto using keeps_create_task with keeps |].
  intros [|]; [apply keeps_render_tasks_tab |].
  apply keeps_bind; [apply keeps_fetch | intros tasks].
  apply keeps_bind; [apply keeps_tasks_loop |].
  intros [|]; [apply keeps_render_tasks_tab |].
  destruct click; try apply keeps_ret.
  - destruct tasks; [apply keeps_ret |].
    apply keeps_bind; [apply keeps_fetch |].
    intros [t |]; [| apply keeps_ret].
    apply keeps_bind; [apply keeps_submit_update_task |].
    intros [|]; [apply keeps_render_tasks_tab | apply keeps_ret].
  - apply keeps_bind; [apply keeps_confirm_remove |].
    intros _. apply keeps_render_tasks_tab.
Qed.

Lemma keeps_apply_for_task t v form :
  keeps acceptance_inv (apply_for_task exn_text t v form).
Proof. unfold apply_for_task. keeps_auto. Qed.

Lemma keeps_withdraw t acc : keeps acceptance_inv (withdraw t acc).
Proof. unfold withdraw. keeps_auto. Qed.

Lemma keeps_withdraw_from_task acc : keeps acceptance_inv (withdraw_from_task acc).
Proof. unfold withdraw_from_task. keeps_auto. Qed.

#[local] Hint Resolve keeps_apply_for_task keeps_withdraw keeps_withdraw_from_task : keeps.

Lemma keeps_browse_expander v t click :
  keeps acceptance_inv (browse_expander exn_text v t click).
Proof. unfold browse_expander. keeps_auto. Qed.

#[local] Hint Resolve keeps_browse_expander : keeps.

Lemma keeps_volunteer_dashboard v click :
  keeps acceptance_inv (volunteer_dashboard exn_text v click).
Proof. unfold volunteer_dashboard. destruct click; keeps_auto. Qed.

Lemma acceptance_inv_empty : acceptance_inv empty_store.
Proof.
  split; [| split]; simpl.
  - intros r Hr. inversion Hr.
  - constructor.
  - intros r Hr. inversion Hr.
Qed.

(** The invariants hold in every state the application reaches. *)
Lemma reachable_acceptance_inv s : reachable exn_text s -> acceptance_inv s.
Proof.
  induction 1 as [| s s' _ IH Hstep]; [apply acceptance_inv_empty |].
  destruct Hstep as [s | s ngo click now now' fuse ss | s v click fuse ss _].
  - now apply acceptance_inv_insert_volunteer.
  - pose proof (keeps_ngo_tasks_tab ngo click now now' (mkWorld s fuse ss) IH) as H.
    destruct (ngo_tasks_tab _ _ _ _ _) as [[e | a] w']; exact H.
  - pose proof (keeps_volunteer_dashboard v click (mkWorld s fuse ss) IH) as H.
    destruct (volunteer_dashboard _ _ _ _) as [[e | a] w']; exact H.
Qed.

End HandlersKeepInvariant.


Section ReachableEvents.

Variable exn_text : exn -> string.

Lemma reachable_register s :
  reachable exn_text s -> reachable exn_text (register_event s).
Proof. intros H. exact (reachable_step _ _ _ H (step_register_volunteer _ s)). Qed.

Lemma reachable_ngo ngo click s :
  reachable exn_text s -> reachable exn_text (ngo_event ngo click s).
Proof. intros H. exact (reachable_step _ _ _ H (step_ngo _ s ngo click 0 0 None ∅)). Qed.

Lemma reachable_volunteer v click s :
  reachable exn_text s ->
  bool_decide (Exists (fun x => v_id x = v) (volunteers s)) = true ->
  reachable exn_text (volunteer_event exn_text v click s).
Proof.
  intros H Hv. apply bool_decide_eq_true in Hv.
  exact (reachable_step _ _ _ H (step_volunteer _ s v click None ∅ Hv)).
Qed.

Lemma reachable_posted : reachable exn_text Scenario.posted.
Proof.
  unfold Scenario.posted.
  apply reachable_ngo, reachable_register, reachable_register, reachable_init.
Qed.

Lemma reachable_applied : reachable exn_text (Scenario.applied exn_text).
Proof.
  unfold Scenario.applied.
  apply reachable_volunteer; [apply reachable_posted | vm_compute; reflexivity].
Qed.

Lemma reachable_applied_twice : reachable exn_text (Scenario.applied_twice exn_text).
Proof.
  unfold Scenario.applied_twice.
  apply reachable_volunteer; [apply reachable_applied | vm_compute; reflexivity].
Qed.

Lemma reachable_rejected : reachable exn_text (Scenario.rejected exn_text).
Proof. unfold Scenario.rejected. apply reachable_ngo, reachable_applied. Qed.

Lemma reachable_approved_first : reachable exn_text (Scenario.approved_first exn_text).
Proof.
  unfold Scenario.approved_first. apply reachable_ngo, reachable_applied_twice.
Qed.

Lemma reachable_approved_alone : reachable exn_text (Scenario.approved_alone exn_text).
Proof. unfold Scenario.approved_alone. apply reachable_ngo, reachable_applied. Qed.


End ReachableEvents.

(** C5.  In every state the application reaches, an engagement whose value
    is not 0 is completed and approved; so an engagement that is not
    completed, or not approved, has value 0. *)
Theorem value_nonzero_only_completed_approved (exn_text : exn -> string) (s : store) :
  reachable exn_text s ->
  forall r, r ∈ volunteer_acceptances s ->
    (~ (va_monetisation_value r == 0)%Q ->
       va_status r = Completed /\ va_approval_status r = Approved)
    /\ (va_status r <> Completed \/ va_approval_status r <> Approved ->
          (va_monetisation_value r == 0)%Q).
Proof.
  intros Hreach r Hr.
  destruct (reachable_acceptance_inv exn_text s Hreach) as [Hv _].
  split; [exact (Hv r Hr) |].
  intros Hnot. destruct (Qeq_dec (va_monetisation_value r) 0) as [Hz | Hnz]; [exact Hz |].
  destruct (Hv r Hr Hnz) as [Hc Ha]. destruct Hnot as [Hnot | Hnot]; contradiction.
Qed.

Lemma value_nonzero_only_completed_approved_witness :
  Forall (fun r => (va_monetisation_value r == 0)%Q)
    (volunteer_acceptances (Scenario.approved_first Scenario.sqlite_text)).
Proof.
  apply Forall_forall. intros r Hr.
  destruct (value_nonzero_only_completed_approved Scenario.sqlite_text
              (Scenario.approved_first Scenario.sqlite_text)
              (reachable_approved_first Scenario.sqlite_text) r Hr) as [_ H].
  apply H. left.
  vm_compute in Hr.
  repeat (apply elem_of_cons in Hr as [-> | Hr]; [discriminate |]).
  now apply elem_of_nil in Hr.
Defined.

(** C1.  The approved count is not bounded by [max_volunteers]: two
    volunteers apply to a task with [max_volunteers = 1] while nobody is
    approved yet, the NGO approves the first (the task is closed for
    capacity) and then the second, whose "Approve" button is still drawn;
    the reached state has two approved, accepted engagements on the
    task. *)
Theorem approve_exceeds_max_volunteers (exn_text : exn -> string) :
  let s := Scenario.approved_both exn_text in
  reachable exn_text s
  /\ t_max_volunteers <$> task_by_id s 1 = Some (Some 1)
  /\ approved_count (Scenario.approved_first exn_text) 1 = 1
  /\ approved_count s 1 = 2.
Proof.
  intros s. split.
  - unfold s, Scenario.approved_both. apply reachable_ngo, reachable_approved_first.
  - subst s. vm_compute. repeat split; reflexivity.
Qed.

(** C2.  A task closed for capacity is not reopened by the withdrawal of
    its only approved volunteer when another application is pending: with
    [max_volunteers = 1], volunteer 1 approved (the task is closed) and
    volunteer 2 pending, "Withdraw from Task" of volunteer 1 deletes the
    engagement, the approved count drops to 0, and the task stays
    closed.  Without the pending application the same withdrawal reopens
    the task. *)
Theorem withdraw_leaves_task_closed (exn_text : exn -> string) :
  let before := Scenario.approved_first exn_text in
  let after := Scenario.withdrawn exn_text in
  reachable exn_text after
  /\ t_status <$> task_by_id before 1 = Some Closed
  /\ approved_count before 1 = 1
  /\ approved_count after 1 = 0
  /\ t_max_volunteers <$> task_by_id after 1 = Some (Some 1)
  /\ t_status <$> task_by_id after 1 = Some Closed
  /\ t_status <$> task_by_id
       (volunteer_event exn_text 1 (ClickWithdrawFromTask 1)
          (Scenario.approved_alone exn_text)) 1 = Some Open.
Proof.
  intros before after. split.
  - unfold after, Scenario.withdrawn.
    apply reachable_volunteer; [apply reachable_approved_first | vm_compute; reflexivity].
  - subst before after. vm_compute. repeat split; reflexivity.
Qed.

(** The scenario of the specification, step by step: the application is
    pending; the approval closes the task, whose one place is taken; the
    completion stores 300 × 4 × 1 = 1200 and the volunteer's aggregate
    becomes 1200. *)
Example scenario_of_the_specification (exn_text : exn -> string) :
  (fun r => (va_approval_status r, va_status r))
    <$> volunteer_acceptances (Scenario.applied exn_text) = [(Pending, Accepted)]
  /\ t_status <$> task_by_id (Scenario.applied exn_text) 1 = Some Open
  /\ t_status <$> task_by_id (Scenario.approved_alone exn_text) 1 = Some Closed
  /\ (fun r => (va_approval_status r, va_status r, Qred (va_monetisation_value r)))
       <$> volunteer_acceptances (Scenario.completed exn_text)
     = [(Approved, Completed, 1200%Q)]
  /\ Qred <$> total_value_generated (Scenario.approved_alone exn_text) 1 = Some 0%Q
  /\ Qred <$> total_value_generated (Scenario.completed exn_text) 1 = Some 1200%Q.
Proof. vm_compute. repeat split; reflexivity. Qed.

(* ===================================================================== *)
(** * Runs on a store that does not fail *)
(* ===================================================================== *)

Section RunEquations.

Context {A B : Type}.

Lemma run_fetch_bind (q : store -> A) (k : A -> M B) s ss :
  (fetch q ≫= k) (mkWorld s None ss) = k (q s) (mkWorld s None ss).
Proof. reflexivity. Qed.

Lemma run_execute_bind (f : store -> store) (k : unit -> M B) s ss :
  (execute f ≫= k) (mkWorld s None ss) = k tt (mkWorld (f s) None ss).
Proof. reflexivity. Qed.



Lemma run_rate_limit_bind (k : bool -> M B) user_id action now now' s f ss :
  (rate_limit_ok user_id action now now' ≫= k) (mkWorld s f ss)
  = k (check_action_rate_limit ss user_id action now now').1
      (mkWorld s f (check_action_rate_limit ss user_id action now now').2).
Proof. reflexivity. Qed.

End RunEquations.


Section PairFacts.

Implicit Types (s : store) (l : list acceptance).






End PairFacts.




Section ReapplyFacts.




End ReapplyFacts.



(* ===================================================================== *)
(** * Editing a task: who is told, and what *)
(* ===================================================================== *)


Section EditFacts.

Lemma contains_prefix needle rest : contains needle (needle +:+ rest) = true.
Proof.
  assert (String.prefix needle (needle +:+ rest) = true) as H.
  { induction needle as [|c n IH]; simpl; [now destruct rest |].
    destruct (ascii_dec c c); [exact IH | contradiction]. }
  destruct needle, rest; simpl in *; rewrite ?H; reflexivity.
Qed.

Lemma contains_app_r needle pre s :
  contains needle s = true -> contains needle (pre +:+ s) = true.
Proof.
  intros H. induction pre as [|c pre IH]; simpl; [exact H |].
  rewrite IH. apply orb_true_r.
Qed.

Lemma string_app_assoc (a b c : string) : (a +:+ b) +:+ c = a +:+ (b +:+ c).
Proof.
  induction a as [|x a IH]; [reflexivity |].
  change (String x ((a +:+ b) +:+ c) = String x (a +:+ (b +:+ c))). now rewrite IH.
Qed.

Lemma update_message_names_first title field rest :
  contains field (update_message title (field :: rest)) = true.
Proof.
  unfold update_message. do 3 apply contains_app_r.
  destruct rest as [|r rest]; simpl join.
  - apply contains_prefix.
  - rewrite string_app_assoc. apply contains_prefix.
Qed.

Lemma detect_changes_start t f sd ed :
  t_start_date t <> Some sd ->
  exists rest, detect_changes t f sd ed = "Start date" :: rest.
Proof.
  intros H. unfold detect_changes, critical_field_changed.
  rewrite filter_cons, decide_True by (simpl; now apply bool_decide_eq_true).
  rewrite fmap_cons. eexists. reflexivity.
Qed.

Lemma detect_changes_none t f sd ed :
  no_critical_change t f sd ed -> detect_changes t f sd ed = [].
Proof.
  intros (H1 & H2 & H3 & H4 & H5 & H6 & H7 & H8 & H9 & H10 & H11).
  unfold detect_changes, critical_field_changed.
  rewrite H1, H2, H3, H4, H5, H6, H7, H8, H9, H10, H11.
  repeat (rewrite filter_cons, decide_False
            by (simpl; rewrite bool_decide_eq_true; intros Hne; now apply Hne)).
  reflexivity.
Qed.

(** The run of "Update Task" once the rate limit and the form checks are
    passed. *)
Lemma submit_update_task_run s ss ngo t f sd ed now now' :
  (check_action_rate_limit ss ngo "edit_task" now now').1 = true ->
  forallb nonempty [f_title f; f_desc f; f_loc f; f_address f;
                    f_contact_email f; f_contact_phone f] = true ->
  f_start_date f = Some sd -> f_end_date f = Some ed ->
  date_ltb ed sd = false ->
  (run (submit_update_task ngo t f now now') ss s).2
  = (run (match detect_changes t f sd ed with
          | [] => mret tt
          | _ =>
              for_each (approved_volunteers (t_id t) s) (fun vol =>
                statement (fun s => inr (insert_notification vol
                  (update_message (f_title f) (detect_changes t f sd ed))
                  "task_updated" (t_id t) s)) ;; mret tt)
          end) (check_action_rate_limit ss ngo "edit_task" now now').2
         (update_task (t_id t) (edited_task f sd ed) s)).2.
Proof.
  intros Hrate Hreq Hsd Hed Hrange.
  unfold run. cbv zeta. cbn [snd]. unfold submit_update_task.
  rewrite run_rate_limit_bind, Hrate. cbn [negb].
  rewrite Hreq, Hsd, Hed, Hrange. cbn [negb].
  unfold try_except. rewrite run_execute_bind.
  set (w := mkWorld (update_task (t_id t) (edited_task f sd ed) s) None _).
  destruct (detect_changes t f sd ed) as [|c cs] eqn:E.
  - reflexivity.
  - unfold mbind at 1. unfold M_bind at 1. unfold w. rewrite run_fetch_bind.
    replace (approved_volunteers (t_id t) (update_task (t_id t) (edited_task f sd ed) s))
      with (approved_volunteers (t_id t) s) by reflexivity.
    destruct (for_each _ _ _) as [[e | []] w']; reflexivity.
Qed.

End EditFacts.

(** C8.  "Update Task" on a task with exactly one approved volunteer: when
    the start date differs from the stored one, exactly one notification is
    added, addressed to that volunteer, of type [task_updated], and its
    message names "Start date" as the first of the changed fields; when no
    critical field differs, no notification is added. *)
Theorem edit_start_date_notifies_approved_volunteer (s : store)
    (ss : gmap string (list Z)) (ngo_id : Z) (t : task) (f : task_form)
    (sd ed : date) (v : Z) (now now' : Z) :
  (check_action_rate_limit ss ngo_id "edit_task" now now').1 = true ->
  forallb nonempty [f_title f; f_desc f; f_loc f; f_address f;
                    f_contact_email f; f_contact_phone f] = true ->
  f_start_date f = Some sd -> f_end_date f = Some ed ->
  date_ltb ed sd = false ->
  approved_volunteers (t_id t) s = [v] ->
  let after := (run (submit_update_task ngo_id t f now now') ss s).2 in
  (t_start_date t <> Some sd ->
     exists message rest,
       notifications after
       = notifications s
           ++ [mkNotification (notifications_seq s + 1) "volunteer" v message
                 "task_updated" (t_id t) false]
       /\ detect_changes t f sd ed = "Start date" :: rest
       /\ message = update_message (f_title f) ("Start date" :: rest)
       /\ contains "Start date" message = true)
  /\ (no_critical_change t f sd ed -> notifications after = notifications s).
Proof.
  intros Hrate Hreq Hsd Hed Hrange Hone after. subst after.
  rewrite (submit_update_task_run s ss ngo_id t f sd ed now now' Hrate Hreq Hsd Hed Hrange).
  split.
  - intros Hstart. destruct (detect_changes_start t f sd ed Hstart) as [rest Hch].
    rewrite Hch, Hone. exists (update_message (f_title f) ("Start date" :: rest)), rest.
    split; [reflexivity |]. split; [reflexivity |]. split; [reflexivity |].
    apply update_message_names_first.
  - intros Hsame. rewrite (detect_changes_none t f sd ed Hsame). reflexivity.
Qed.

Lemma edit_start_date_notifies_approved_volunteer_witness :
  let s := Scenario.approved_first Scenario.sqlite_text in
  let moved := mkTaskForm "Beach cleanup" "Collect litter" "Chennai" "Marina Beach"
                 (Some (mkdate 2025 1 9)) (Some Scenario.day) 4 (Some 9) (Some 13)
                 "Environment" "" 1 "ngo@example.org" "9999999999" None "Low"
                 "No restriction" "" "" 300 in
  let after := (run (submit_update_task 1 (set_task_status Closed Scenario.the_task)
                       moved 0 0) ∅ s).2 in
  exists message rest,
    notifications after
    = notifications s ++ [mkNotification (notifications_seq s + 1) "volunteer" 1 message
                            "task_updated" 1 false]
    /\ detect_changes (set_task_status Closed Scenario.the_task) moved
         (mkdate 2025 1 9) Scenario.day = "Start date" :: rest
    /\ message = update_message "Beach cleanup" ("Start date" :: rest)
    /\ contains "Start date" message = true.
Proof.
  intros s moved after.
  refine (proj1 (edit_start_date_notifies_approved_volunteer s ∅ 1
                   (set_task_status Closed Scenario.the_task) moved
                   (mkdate 2025 1 9) Scenario.day 1 0 0 _ _ _ _ _ _) _).
  - vm_compute. reflexivity.
  - reflexivity.
  - reflexivity.
  - reflexivity.
  - reflexivity.
  - vm_compute. reflexivity.
  - discriminate.
Defined.

(* ===================================================================== *)
(** * Completing an engagement: the value and the aggregate *)
(* ===================================================================== *)

Section ValueFacts.




End ValueFacts.

Section AggregateFacts.

Variable volunteer_id : Z.




End AggregateFacts.








(* ===================================================================== *)
(** * Failures in the middle of a transition *)
(* ===================================================================== *)


Section AtomicFacts.

Lemma atomic_of_triple {A} (m : M A) :
  (forall s0, triple (eq s0) (eq s0) m (fun _ _ => True)) -> atomic m.
Proof.
  intros H w e w' Hrun. specialize (H (db w) w eq_refl).
  rewrite Hrun in H. now symmetry.
Qed.

Lemma atomic_statement {A} (op : store -> exn + (A * store)) : atomic (statement op).
Proof.
  apply atomic_of_triple. intros s0. apply triple_statement; auto.
Qed.

(** One write, with nothing but the answer after it. *)
Lemma atomic_single_write {A} (f : store -> store) (a : A) :
  atomic (execute f ;; mret a).
Proof.
  apply atomic_of_triple. intros s0.
  eapply triple_bind with (R := fun _ _ => True).
  - apply triple_execute; auto.
  - intros ?. apply triple_ret. auto.
Qed.

(** Reads before a computation do not harm its atomicity. *)
Lemma atomic_fetch_bind {A B} (q : store -> A) (k : A -> M B) :
  (forall a, atomic (k a)) -> atomic (fetch q ≫= k).
Proof.
  intros Hk w e w' Hrun. unfold mbind, M_bind, fetch, statement in Hrun.
  destruct (fuse w) as [[|n] |]; simpl in Hrun.
  - now injection Hrun as _ <-.
  - exact (Hk _ _ _ _ Hrun).
  - exact (Hk _ _ _ _ Hrun).
Qed.

Lemma surjective_pairing_world (w : world) :
  w = mkWorld (db w) (fuse w) (session_state w).
Proof. now destruct w. Qed.

Lemma atomic_ret {A} (a : A) : atomic (mret a).
Proof. intros w e w' H. discriminate. Qed.

End AtomicFacts.


(** "Confirm Delete" on a task with two applicants, against a store that
    fails at the third statement: the list of the volunteers is read, the
    first notification is written and committed, the second write fails.
    The run ends with the exception, the first notification stays, and the
    task is not deleted. *)
Lemma confirm_delete_not_atomic : ~ every_transition_atomic.
Proof.
  intros Hatomic.
  set (s := Scenario.approved_first Scenario.sqlite_text).
  destruct (confirm_delete Scenario.the_task "cancelled" (mkWorld s (Some 2%nat) ∅))
    as [[e | b] w'] eqn:Hrun.
  - specialize (Hatomic _ _ _ _ _ Hrun). simpl in Hatomic.
    revert Hrun. vm_compute. intros [= _ <-].
    revert Hatomic. vm_compute. discriminate.
  - revert Hrun. vm_compute. discriminate.
Qed.

(** C6 (amended).  Each statement is atomic: when it fails, it is rolled
    back and the database is as before.  So are the transitions that make
    one write: "Mark Closed", "Reject", "Approve", and, on the volunteer's
    side, "Remove from My List", "Withdraw Application" and "Apply for
    Task", whose failure the page reports itself. *)
Theorem single_write_transitions_atomic (exn_text : exn -> string) :
  (forall A (op : store -> exn + (A * store)), atomic (statement op))
  /\ (forall t, atomic (mark_closed t))
  /\ (forall vol, atomic (reject vol))
  /\ (forall ngo_id vol now now', atomic (approve ngo_id vol now now'))
  /\ (forall v t task_id, atomic (browse_expander exn_text v t (ClickRemoveFromMyList task_id)))
  /\ (forall v t task_id,
        atomic (browse_expander exn_text v t (ClickWithdrawApplication task_id)))
  /\ (forall t v form,
        atomic_unless (Some "Application submitted successfully! Waiting for NGO approval.")
          (apply_for_task exn_text t v form)).
Proof.
  split; [intros A op; apply atomic_statement |].
  split; [intros t; apply atomic_of_triple; intros s0; apply triple_execute; auto |].
  split; [intros vol; apply atomic_single_write |].
  split.
  { intros ngo_id vol now now' w e w' Hrun. unfold approve in Hrun.
    rewrite (surjective_pairing_world w) in Hrun. rewrite run_rate_limit_bind in Hrun.
    destruct (check_action_rate_limit _ _ _ _ _).1; [| discriminate].
    exact (atomic_single_write _ _ _ _ _ Hrun). }
  assert (Hclicks : forall v t click,
             (forall acc, va_approval_status acc = Approved ->
                          bool_decide (va_status acc = Accepted) = true ->
                          match click with ClickWithdraw _ => False | _ => True end) ->
             match click with SubmitApply _ _ => False | _ => True end ->
             atomic (browse_expander exn_text v t click)).
  { intros v t click Hw Ha. unfold browse_expander.
    apply atomic_fetch_bind. intros acc. apply atomic_fetch_bind. intros n. cbv zeta.
    destruct (bool_decide (t_status t = Closed)); [apply atomic_ret |].
    destruct acc as [acc |].
    - destruct (va_approval_status acc) eqn:Happr.
      + destruct click; first [apply atomic_ret | apply atomic_single_write].
      + destruct (bool_decide (va_status acc = Accepted)) eqn:Hst; [| apply atomic_ret].
        specialize (Hw acc Happr Hst).
        destruct click; first [apply atomic_ret | contradiction].
      + destruct click; first [apply atomic_ret | apply atomic_single_write].
    - destruct (_ && _); [apply atomic_ret |].
      destruct click; first [apply atomic_ret | contradiction]. }
  split; [intros v t task_id; apply Hclicks; auto |].
  split; [intros v t task_id; apply Hclicks; auto |].
  intros t v form w. unfold apply_for_task.
  repeat (destruct (negb _); [right; reflexivity |]).
  unfold try_except, mbind, M_bind, statement.
  destruct (fuse w) as [[|n] |]; simpl.
  - destruct (contains _ _); right; reflexivity.
  - destruct (insert_acceptance _ _ _ _ _ _ _ _) as [e | [a s']]; simpl;
      [destruct (contains _ _); right; reflexivity | left; reflexivity].
  - destruct (insert_acceptance _ _ _ _ _ _ _ _) as [e | [a s']]; simpl;
      [destruct (contains _ _); right; reflexivity | left; reflexivity].
Qed.

(* ===================================================================== *)
(** * The rate limiter: keys, windows and resets *)
(* ===================================================================== *)

Section Pretty.

Lemma pretty_N_char_digit x : is_digit (pretty_N_char x) = true.
Proof.
  destruct x as [|p]; [reflexivity |].
  do 4 (try destruct p as [p|p|]); reflexivity.
Qed.

Lemma all_chars_pretty_N_go (P : ascii -> Prop) x s :
  (forall c, is_digit c = true -> P c) -> all_chars P s -> all_chars P (pretty_N_go x s).
Proof.
  intros HP. revert s. induction (N.lt_wf_0 x) as [x _ IH]. intros s Hs.
  destruct (decide (x = 0)%N) as [-> | Hx]; [now rewrite pretty_N_go_0 |].
  rewrite pretty_N_go_step by lia. apply IH.
  - apply N.div_lt; lia.
  - split; [apply HP, pretty_N_char_digit | exact Hs].
Qed.

Lemma all_chars_app (P : ascii -> Prop) s1 s2 :
  all_chars P s1 -> all_chars P s2 -> all_chars P (s1 +:+ s2).
Proof.
  induction s1 as [|c s1 IH]; [auto |].
  intros [Hc H1] H2. change (P c /\ all_chars P (s1 +:+ s2)). auto.
Qed.

(** [str(user_id)] holds no underscore. *)
Lemma pretty_Z_no_underscore (z : Z) : all_chars (fun c => c <> "_"%char) (pretty z).
Proof.
  assert (Hd : forall c, is_digit c = true -> c <> "_"%char).
  { intros c Hc ->. discriminate Hc. }
  assert (Hp : forall p : positive, all_chars (fun c => c <> "_"%char) (pretty p)).
  { intros p. unfold pretty, pretty_positive, pretty, pretty_N.
    destruct (decide _); [discriminate |].
    apply all_chars_pretty_N_go; [exact Hd | exact I]. }
  destruct z as [|p|p]; unfold pretty, pretty_Z.
  - split; [discriminate | exact I].
  - apply Hp.
  - apply all_chars_app; [split; [discriminate | exact I] | apply Hp].
Qed.

(** Two texts that agree up to and after their first underscore. *)
Lemma split_at_underscore p p' a a' :
  all_chars (fun c => c <> "_"%char) p -> all_chars (fun c => c <> "_"%char) p' ->
  p +:+ "_" +:+ a = p' +:+ "_" +:+ a' -> p = p' /\ a = a'.
Proof.
  revert p'. induction p as [|c p IH]; intros [|c' p'] Hp Hp' Heq.
  - now injection Heq.
  - destruct Hp' as [Hc' _]. injection Heq as Hc _. now subst.
  - destruct Hp as [Hc _]. injection Heq as Hc' _. now subst.
  - destruct Hp as [_ Hp]. destruct Hp' as [_ Hp'].
    injection Heq as -> Heq. destruct (IH p' Hp Hp' Heq) as [-> ->]. auto.
Qed.

(** The key names the user and the action: no two pairs share one. *)
Lemma rate_key_inj u a u' a' : rate_key u a = rate_key u' a' -> u = u' /\ a = a'.
Proof.
  unfold rate_key. intros Heq. apply (inj (String.app "rate_limit_")) in Heq.
  apply split_at_underscore in Heq as [Hu Ha]; auto using pretty_Z_no_underscore.
  split; [now apply (inj pretty) | exact Ha].
Qed.

Lemma prefix_cons c s c' s' :
  String.prefix (String c s) (String c' s')
  = if ascii_dec c c' then String.prefix s s' else false.
Proof. reflexivity. Qed.

Lemma prefix_app_underscore p p' a' :
  all_chars (fun c => c <> "_"%char) p -> all_chars (fun c => c <> "_"%char) p' ->
  String.prefix (p +:+ "_") (p' +:+ "_" +:+ a') = bool_decide (p = p').
Proof.
  revert p'. induction p as [|c p IH]; intros [|c' p'] Hp Hp'.
  - destruct a'; vm_compute; reflexivity.
  - destruct Hp' as [Hc' _].
    change (String.prefix (String "_" "") (String c' (p' +:+ "_" +:+ a')) = false).
    rewrite prefix_cons. destruct (ascii_dec "_" c') as [<- | _]; [now destruct Hc' | reflexivity].
  - destruct Hp as [Hc _].
    change (String.prefix (String c (p +:+ "_")) (String "_" a') = bool_decide (String c p = "")).
    rewrite prefix_cons. destruct (ascii_dec c "_") as [-> | _]; [now destruct Hc | reflexivity].
  - destruct Hp as [_ Hp]. destruct Hp' as [_ Hp'].
    change (String.prefix (String c (p +:+ "_")) (String c' (p' +:+ "_" +:+ a'))
            = bool_decide (String c p = String c' p')).
    rewrite prefix_cons. destruct (ascii_dec c c') as [-> | Hne].
    + rewrite IH by assumption. apply bool_decide_ext. split; [now intros -> | now intros [= ->]].
    + symmetry. apply bool_decide_eq_false. intros [= -> _]. now apply Hne.
Qed.

End Pretty.

Section LimiterFacts.

Lemma rate_key_prefix u u' a' :
  String.prefix ("rate_limit_" +:+ pretty u +:+ "_") (rate_key u' a') = bool_decide (u = u').
Proof.
  unfold rate_key.
  assert (Hstep : forall x y, String.prefix ("rate_limit_" +:+ x) ("rate_limit_" +:+ y)
                              = String.prefix x y).
  { intros x y. vm_compute String.append at 1.
    change ("rate_limit_" +:+ x) with
      (String "r" (String "a" (String "t" (String "e" (String "_" (String "l" (String "i"
        (String "m" (String "i" (String "t" (String "_" x))))))))))).
    change ("rate_limit_" +:+ y) with
      (String "r" (String "a" (String "t" (String "e" (String "_" (String "l" (String "i"
        (String "m" (String "i" (String "t" (String "_" y))))))))))).
    repeat (rewrite prefix_cons; destruct (ascii_dec _ _); [| congruence]).
    reflexivity. }
  rewrite Hstep, prefix_app_underscore by apply pretty_Z_no_underscore.
  apply bool_decide_ext. split; [now intros ?%(inj pretty) | now intros ->].
Qed.

Lemma check_rate_limit_frame ss u a max w now now' k :
  k <> rate_key u a -> (check_rate_limit ss u a max w now now').2 !! k = ss !! k.
Proof.
  intros Hk. unfold check_rate_limit. cbv zeta.
  set (key := rate_key u a) in *.
  assert (H1 : (match ss !! key with Some _ => ss | None => <[key:=[]]> ss end) !! k = ss !! k).
  { destruct (ss !! key); [reflexivity | now rewrite lookup_insert_ne]. }
  destruct (bool_decide _); simpl; rewrite ?lookup_insert_ne by congruence; exact H1.
Qed.

End LimiterFacts.

(** X12.  The limits are per user and per action: a call of
    [check_rate_limit] for one (user, action) pair leaves the log of every
    other pair as it was, so no request counts against another user's or
    another action's limit. *)
Theorem check_rate_limit_other_pair (ss : session) (u u' : Z) (a a' : string)
    (max_requests window_minutes now now' : Z) :
  (u, a) <> (u', a') ->
  (check_rate_limit ss u a max_requests window_minutes now now').2 !! rate_key u' a'
  = ss !! rate_key u' a'.
Proof.
  intros Hne. apply check_rate_limit_frame. intros Heq.
  apply rate_key_inj in Heq as [-> ->]. now apply Hne.
Qed.

Lemma check_rate_limit_other_pair_witness :
  (check_rate_limit ∅ 1 "create_task" 10 5 0 0).2 !! rate_key 12 "create_task" = None.
Proof.
  rewrite (check_rate_limit_other_pair ∅ 1 12 "create_task" "create_task" 10 5 0 0).
  - apply lookup_empty.
  - discriminate.
Defined.

(** X13.  [reset_rate_limit] clears the logs of the user it names and of
    nobody else: with an action, the log of that (user, action) pair; with
    no action (or the empty string), the log of every action of the user.
    Every other pair keeps its log; user 12 is not caught by the prefix of
    user 1. *)
Theorem reset_rate_limit_clears (ss : session) (u : Z) (action : option string)
    (u' : Z) (a' : string) :
  reset_rate_limit ss u action !! rate_key u' a'
  = if bool_decide (u' = u /\ (nonempty (default "" action) = true -> action = Some a'))
    then None else ss !! rate_key u' a'.
Proof.
  unfold reset_rate_limit. destruct (nonempty (default "" action)) eqn:Hact.
  - destruct action as [a |]; [| discriminate]. simpl.
    destruct (decide (rate_key u a = rate_key u' a')) as [Heq | Hne].
    + rewrite Heq, lookup_delete_eq. apply rate_key_inj in Heq as [-> ->].
      now rewrite bool_decide_eq_true_2.
    + rewrite lookup_delete_ne by exact Hne.
      rewrite bool_decide_eq_false_2; [reflexivity |].
      intros [-> Ha]. specialize (Ha eq_refl). now injection Ha as ->.
  - destruct (decide (u = u')) as [<- | Hne].
    + rewrite bool_decide_eq_true_2 by (split; [reflexivity | discriminate]).
      apply map_lookup_filter_None. right. intros x _. cbn [fst].
      rewrite rate_key_prefix, bool_decide_eq_true_2; [discriminate | reflexivity].
    + rewrite bool_decide_eq_false_2 by (intros [-> _]; now apply Hne).
      destruct (ss !! rate_key u' a') as [x |] eqn:E.
      * apply map_lookup_filter_Some. split; [exact E |]. cbn [fst].
        rewrite rate_key_prefix. now apply bool_decide_eq_false_2.
      * apply map_lookup_filter_None. now left.
Qed.

Section WindowFacts.

Lemma filter_length_mono {A} (P Q : A -> Prop) `{!forall x, Decision (P x)}
    `{!forall x, Decision (Q x)} (l : list A) :
  (forall x, P x -> Q x) -> (length (filter P l) <= length (filter Q l))%nat.
Proof.
  intros HPQ. induction l as [|x l IH]; [reflexivity |].
  rewrite !filter_cons. destruct (decide (P x)) as [Hp | Hp].
  - rewrite decide_True by auto. simpl. lia.
  - destruct (decide (Q x)); simpl; lia.
Qed.

Lemma filter_length_all {A} (P : A -> Prop) `{!forall x, Decision (P x)} (l : list A) :
  length (filter P l) = length l -> filter P l = l.
Proof.
  induction l as [|x l IH]; [reflexivity |].
  rewrite filter_cons. destruct (decide (P x)); simpl; intros Hlen.
  - f_equal. apply IH. lia.
  - pose proof (length_filter P l). lia.
Qed.

Lemma filter_all {A} (P : A -> Prop) `{!forall x, Decision (P x)} (l : list A) :
  (forall x, x ∈ l -> P x) -> filter P l = l.
Proof.
  induction l as [|x l IH]; intros Hall; [reflexivity |].
  rewrite filter_cons, decide_True by (apply Hall; left).
  f_equal. apply IH. intros y Hy. apply Hall. now right.
Qed.

Lemma filter_length_lt {A} (P : A -> Prop) `{!forall x, Decision (P x)} (l : list A) x :
  x ∈ l -> ~ P x -> (length (filter P l) < length l)%nat.
Proof.
  intros Hx Hp. induction l as [|y l IH]; [inversion Hx |].
  rewrite filter_cons. pose proof (length_filter P l).
  apply elem_of_cons in Hx as [<- | Hx].
  - rewrite decide_False by exact Hp. simpl. lia.
  - specialize (IH Hx). destruct (decide (P y)); simpl; lia.
Qed.

Lemma list_min_spec (l : list Z) m :
  list_min l = Some m -> m ∈ l /\ forall x, x ∈ l -> m <= x.
Proof.
  destruct l as [|x l]; [discriminate |]. simpl. intros [= <-].
  induction l as [|y l IH]; simpl.
  - split; [left |]. intros z Hz. apply list_elem_of_singleton in Hz. lia.
  - destruct IH as [Hin Hle]. set (m := foldr Z.min x l) in *. split.
    + destruct (Z.min_spec y m) as [[_ ->] | [_ ->]]; [right; left |].
      apply elem_of_cons in Hin as [Hin | Hin]; [rewrite Hin; left | right; right; exact Hin].
    + intros z Hz. assert (Hz' : z = y \/ z ∈ x :: l).
      { apply elem_of_cons in Hz as [Hz | Hz]; [right; rewrite Hz; left |].
        apply elem_of_cons in Hz as [Hz | Hz]; [now left | right; right; exact Hz]. }
      destruct Hz' as [-> | Hz']; [lia | specialize (Hle z Hz'); lia].
Qed.

(** The log of a key never holds more stamps than the limit. *)
Lemma history_log_bound user_id action max_requests window_minutes ss allowed t :
  0 <= max_requests ->
  history user_id action max_requests window_minutes ss allowed t ->
  Z.of_nat (length (default [] (ss !! rate_key user_id action))) <= max_requests.
Proof.
  intros Hmax H. induction H as [ss t Hnone | ss allowed t now now' H IH Ht Hn r
                                 | ss ss' allowed t H IH Heq].
  - rewrite Hnone. simpl. lia.
  - pose proof (check_rate_limit_log ss user_id action max_requests
                  window_minutes now now') as [Hr1 Hr2].
    fold r in Hr1, Hr2. rewrite Hr2. simpl.
    pose proof (length_filter (fun x => now - minutes window_minutes < x)
                  (default [] (ss !! rate_key user_id action))) as Hlen.
    destruct (r.1).
    + symmetry in Hr1. apply negb_true_iff, bool_decide_eq_false in Hr1.
      rewrite length_app. simpl. lia.
    + lia.
  - now rewrite Heq.
Qed.

End WindowFacts.

(** X10.  What the limiter guarantees: of the requests it lets through for
    one (user, action) pair in one session, no more than [max_requests]
    carry a stamp inside any one window of [window_minutes], wherever the
    window is placed. *)
Theorem allowed_requests_in_any_window (user_id : Z) (action : string)
    (max_requests window_minutes : Z) (ss : session) (allowed : list Z) (t : Z) :
  0 <= max_requests -> 0 <= window_minutes ->
  history user_id action max_requests window_minutes ss allowed t ->
  forall c,
    Z.of_nat (length (filter (fun x => c - minutes window_minutes < x /\ x <= c) allowed))
    <= max_requests.
Proof.
  intros Hmax Hw H. induction H as [ss t Hnone | ss allowed t now now' H IH Ht Hn r
                                    | ss ss' allowed t H IH Heq]; intros c.
  - simpl. lia.
  - pose proof (check_rate_limit_log ss user_id action max_requests
                  window_minutes now now') as [Hr1 _].
    pose proof (history_log _ _ _ _ _ _ _ Hw H) as [Hle Hlog].
    rewrite (Hlog (now - minutes window_minutes)) in Hr1 by lia.
    fold r in Hr1. destruct (r.1); [| apply IH].
    symmetry in Hr1. apply negb_true_iff, bool_decide_eq_false in Hr1.
    rewrite filter_app, length_app, filter_cons, filter_nil.
    destruct (decide (c - minutes window_minutes < now' /\ now' <= c)) as [Hin | Hout].
    + pose proof (filter_length_mono
                    (fun x => c - minutes window_minutes < x /\ x <= c)
                    (fun x => now - minutes window_minutes < x) allowed) as Hmono.
      simpl. simpl in Hmono. specialize (Hmono ltac:(intros x; lia)). lia.
    + specialize (IH c). simpl. lia.
  - apply IH.
Qed.

Lemma allowed_requests_in_any_window_witness :
  Z.of_nat (length (filter (fun x => 0 - minutes 5 < x /\ x <= 0) [0])) <= 10.
Proof.
  assert (Hh : history 7 "create_task" 10 5
                 (check_rate_limit ∅ 7 "create_task" 10 5 0 0).2 [0] 0).
  { exact (history_call 7 "create_task" 10 5 ∅ [] 0 0 0
             (history_fresh 7 "create_task" 10 5 ∅ 0 (lookup_empty _))
             ltac:(lia) ltac:(lia)). }
  exact (allowed_requests_in_any_window 7 "create_task" 10 5 _ [0] 0
           ltac:(lia) ltac:(lia) Hh 0).
Defined.

(** X11.  When a request is refused, [get_rate_limit_status] tells when the
    next one goes through: its [reset_time] is set, lies after the refused
    request, and a later request of the pair is let through exactly when
    the clock has reached it. *)
Theorem reset_time_is_next_accept (user_id : Z) (action : string)
    (max_requests window_minutes : Z) (ss : session) (allowed : list Z) (t now now' : Z) :
  0 < max_requests ->
  history user_id action max_requests window_minutes ss allowed t ->
  (check_rate_limit ss user_id action max_requests window_minutes now now').1 = false ->
  exists rt,
    reset_time (get_rate_limit_status ss user_id action window_minutes now) = Some rt
    /\ now < rt
    /\ forall now2 now2',
         (check_rate_limit
            (check_rate_limit ss user_id action max_requests window_minutes now now').2
            user_id action max_requests window_minutes now2 now2').1 = true
         <-> rt <= now2.
Proof.
  intros Hmax H Hrefused.
  assert (Hmax0 : 0 <= max_requests) by lia.
  pose proof (history_log_bound _ _ _ _ _ _ _ Hmax0 H) as Hbound.
  pose proof (check_rate_limit_log ss user_id action max_requests
                window_minutes now now') as [Hr1 Hr2].
  cbv zeta in Hr1, Hr2. rewrite Hrefused in Hr1, Hr2.
  symmetry in Hr1. apply negb_false_iff, bool_decide_eq_true in Hr1.
  set (key := rate_key user_id action) in *.
  set (stored := default [] (ss !! key)) in *.
  set (P := fun x : Z => now - minutes window_minutes < x) in *.
  pose proof (length_filter P stored) as Hlen.
  assert (Hall : filter P stored = stored) by (apply filter_length_all; lia).
  assert (Hfull : Z.of_nat (length stored) = max_requests) by lia.
  rewrite Hall in Hr2.
  destruct (list_min stored) as [m |] eqn:Hmin.
  2:{ destruct stored; [simpl in Hfull; lia | discriminate]. }
  destruct (list_min_spec stored m Hmin) as [Hm Hleast].
  exists (m + minutes window_minutes). split; [| split].
  - unfold get_rate_limit_status. fold key.
    destruct (ss !! key) as [stamps |] eqn:E.
    + unfold stored in *. simpl in *. fold P. rewrite Hall, Hmin. reflexivity.
    + unfold stored in Hfull. simpl in Hfull. lia.
  - assert (Hpm : P m).
    { rewrite <- Hall in Hm. now apply list_elem_of_filter in Hm as [Hpm _]. }
    unfold P in Hpm. lia.
  - intros now2 now2'.
    pose proof (check_rate_limit_log
                  (check_rate_limit ss user_id action max_requests window_minutes now now').2
                  user_id action max_requests window_minutes now2 now2') as [Hs1 _].
    cbv zeta in Hs1. fold key in Hs1. rewrite Hr2 in Hs1. simpl in Hs1.
    rewrite Hs1, negb_true_iff, bool_decide_eq_false.
    set (P2 := fun x : Z => now2 - minutes window_minutes < x).
    pose proof (length_filter P2 stored) as Hlen2. split.
    + intros Hlt. destruct (decide (P2 m)) as [Hp2 | Hp2]; [| unfold P2 in Hp2; lia].
      exfalso. apply Hlt.
      assert (filter P2 stored = stored) as ->; [| lia].
      apply filter_all. intros x Hx. specialize (Hleast x Hx).
      unfold P2 in *. lia.
    + intros Hrt. pose proof (filter_length_lt P2 stored m Hm) as Hlt.
      unfold P2 in Hlt at 1. specialize (Hlt ltac:(lia)). fold P2. lia.
Qed.

Lemma reset_time_is_next_accept_witness :
  let ss := (check_rate_limit ∅ 7 "ping" 1 5 0 0).2 in
  exists rt,
    reset_time (get_rate_limit_status ss 7 "ping" 5 1000000) = Some rt
    /\ 1000000 < rt
    /\ forall now2 now2',
         (check_rate_limit (check_rate_limit ss 7 "ping" 1 5 1000000 1000000).2
            7 "ping" 1 5 now2 now2').1 = true
         <-> rt <= now2.
Proof.
  intros ss.
  assert (Hh : history 7 "ping" 1 5 ss [0] 0).
  { exact (history_call 7 "ping" 1 5 ∅ [] 0 0 0
             (history_fresh 7 "ping" 1 5 ∅ 0 (lookup_empty _))
             ltac:(lia) ltac:(lia)). }
  assert (Hr : (check_rate_limit ss 7 "ping" 1 5 1000000 1000000).1 = false)
    by (vm_compute; reflexivity).
  exact (reset_time_is_next_accept 7 "ping" 1 5 ss [0] 0 1000000 1000000
           ltac:(lia) Hh Hr).
Defined.

(* ===================================================================== *)
(** * The invariants of the store *)
(* ===================================================================== *)

Section StoreInvariant.

Ltac inv_parts :=
  split; [split; [| split; [| split; [| split; [| split; [| split]]]]] | split; [| split]].

Lemma fmap_key_same {A} (key : A -> Z) (g : A -> A) (l : list A) :
  (forall x, key (g x) = key x) -> key <$> (g <$> l) = key <$> l.
Proof.
  intros Hg. rewrite <- list_fmap_compose. apply list_fmap_ext. intros i x _. apply Hg.
Qed.

Lemma fmap_key_same_on {A B} (key : A -> B) (g : A -> A) (l : list A) :
  (forall x, x ∈ l -> key (g x) = key x) -> key <$> (g <$> l) = key <$> l.
Proof.
  intros Hg. rewrite <- list_fmap_compose. apply Forall_fmap_ext_1, Forall_forall.
  intros x Hx. simpl. now apply Hg.
Qed.

Lemma Exists_fmap_key {A} (key : A -> Z) (g : A -> A) (l : list A) k :
  (forall x, key (g x) = key x) ->
  Exists (fun x => key x = k) l -> Exists (fun x => key x = k) (g <$> l).
Proof.
  intros Hg H. apply Exists_exists in H as (x & Hx & Hk). apply Exists_exists.
  exists (g x). split; [now apply list_elem_of_fmap_2 | now rewrite Hg].
Qed.

Lemma Exists_app_l {A} (P : A -> Prop) (l l' : list A) : Exists P l -> Exists P (l ++ l').
Proof. intros H. apply Exists_app. now left. Qed.

Lemma store_inv_update_task id f s0 s :
  task_edit_ok f -> evolution_inv s0 s -> evolution_inv s0 (update_task id f s).
Proof.
  intros Hf [(Ha & Hr & Hp & Href & [Hn Hk] & Hd & Hnk) (Ht & Hno & Hdec)].
  set (g := fun t => if decide (t_id t = id) then f t else t).
  assert (Hg : forall t, t_id (g t) = t_id t /\ t_ngo_id (g t) = t_ngo_id t
                         /\ (t_is_deleted t = true -> t_is_deleted (g t) = true)
                         /\ (task_dated t -> task_dated (g t))).
  { intros t. unfold g. destruct (decide _); [apply Hf | tauto]. }
  split; [split; [| split; [| split; [| split; [| split; [| split]]]]] | split; [| split]].
  - now apply acceptance_inv_update_task.
  - exact Hr.
  - exact Hp.
  - intros r Hr'. destruct (Href r Hr') as [H1 H2]. split; [| exact H2].
    simpl. apply Exists_fmap_key; [apply Hg | exact H1].
  - split; simpl.
    + fold g. rewrite fmap_key_same by apply Hg. exact Hn.
    + intros t' Ht'. apply list_elem_of_fmap in Ht' as (t & -> & Hin).
      change (t_id (g t) <= tasks_seq s). destruct (Hg t) as [-> _]. auto.
  - intros t' Ht'. simpl in Ht'. apply list_elem_of_fmap in Ht' as (t & -> & Hin).
    change (task_dated (g t)). apply Hg. auto.
  - exact Hnk.
  - intros t0 Ht0. destruct (Ht t0 Ht0) as (t & Hin & H1 & H2 & H3).
    exists (g t). destruct (Hg t) as (G1 & G2 & G3 & _). split; [| split; [| split]].
    + simpl. now apply list_elem_of_fmap_2.
    + congruence.
    + congruence.
    + auto.
  - exact Hno.
  - exact Hdec.
Qed.

Lemma task_edit_ok_status st : task_edit_ok (set_task_status st).
Proof. intros t. simpl. tauto. Qed.

Lemma task_edit_ok_deleted : task_edit_ok set_task_deleted.
Proof. intros t. simpl. tauto. Qed.

Lemma task_edit_ok_edited f sd ed :
  date_ltb ed sd = false -> task_edit_ok (edited_task f sd ed).
Proof.
  intros Hd t. simpl. repeat split; auto. intros _. exists sd, ed. auto.
Qed.

Lemma store_inv_insert_task ngo f sd ed s0 s id s' :
  date_ltb ed sd = false ->
  insert_task ngo f sd ed s = inr (id, s') -> evolution_inv s0 s -> evolution_inv s0 s'.
Proof.
  intros Hdate Hins [(Ha & Hr & Hp & Href & [Hn Hk] & Hd & Hnk) (Ht & Hno & Hdec)].
  pose proof (acceptance_inv_insert_task _ _ _ _ _ _ _ Hins Ha) as Ha'.
  injection Hins as <- <-.
  split; [split; [| split; [| split; [| split; [| split; [| split]]]]] | split; [| split]].
  - exact Ha'.
  - exact Hr.
  - exact Hp.
  - intros r Hr'. destruct (Href r Hr') as [H1 H2]. split; [| exact H2].
    simpl. now apply Exists_app_l.
  - split; simpl.
    + rewrite fmap_app. apply NoDup_app. split; [exact Hn | split].
      * intros x Hx Hx'. apply list_elem_of_singleton in Hx'. subst x.
        apply list_elem_of_fmap in Hx as (t & Heq & Hin). specialize (Hk t Hin).
        simpl in Heq. lia.
      * apply NoDup_singleton.
    + intros t Hin. apply elem_of_app in Hin as [Hin | Hin]; [specialize (Hk t Hin); lia |].
      apply list_elem_of_singleton in Hin as ->. simpl. lia.
  - intros t Hin. simpl in Hin. apply elem_of_app in Hin as [Hin | Hin]; [auto |].
    apply list_elem_of_singleton in Hin as ->. exists sd, ed. auto.
  - exact Hnk.
  - intros t0 Ht0. destruct (Ht t0 Ht0) as (t & Hin & H). exists t.
    split; [simpl; apply elem_of_app; now left | exact H].
  - exact Hno.
  - exact Hdec.
Qed.

Lemma store_inv_insert_notification v msg kind rel s0 s :
  evolution_inv s0 s -> evolution_inv s0 (insert_notification v msg kind rel s).2.
Proof.
  intros [(Ha & Hr & Hp & Href & Htk & Hd & [Hn Hk]) (Ht & Hno & Hdec)].
  assert (Hnk' : notification_keys_ok (insert_notification v msg kind rel s).2).
  { split; simpl.
    + rewrite fmap_app. apply NoDup_app. split; [exact Hn | split].
      * intros x Hx Hx'. apply list_elem_of_singleton in Hx'. subst x.
        apply list_elem_of_fmap in Hx as (n & Heq & Hin). specialize (Hk n Hin).
        simpl in Heq. lia.
      * apply NoDup_singleton.
    + intros n Hin. apply elem_of_app in Hin as [Hin | Hin]; [specialize (Hk n Hin); lia |].
      apply list_elem_of_singleton in Hin as ->. simpl. lia. }
  assert (Hno' : notifications_kept s0 (insert_notification v msg kind rel s).2).
  { intros n0 Hn0. destruct (Hno n0 Hn0) as (n & Hin & H). exists n.
    split; [simpl; apply elem_of_app; now left | exact H]. }
  inv_parts; assumption.
Qed.

Lemma store_inv_mark_read id s0 s :
  evolution_inv s0 s -> evolution_inv s0 (mark_notification_read id s).
Proof.
  intros [(Ha & Hr & Hp & Href & Htk & Hd & [Hn Hk]) (Ht & Hno & Hdec)].
  set (g := fun n => if decide (n_id n = id) then set_notification_read n else n).
  assert (Hg : forall n, n_id (g n) = n_id n).
  { intros n. unfold g. now destruct (decide _). }
  assert (Hnk' : notification_keys_ok (mark_notification_read id s)).
  { split; simpl.
    + fold g. rewrite fmap_key_same by apply Hg. exact Hn.
    + intros n' Hn'. apply list_elem_of_fmap in Hn' as (n & -> & Hin).
      change (n_id (g n) <= notifications_seq s). rewrite Hg. auto. }
  assert (Hno' : notifications_kept s0 (mark_notification_read id s)).
  { intros n0 Hn0. destruct (Hno n0 Hn0) as (n & Hin & H1 & H2 & H3 & H4 & H5 & H6 & H7).
    exists (g n). split; [simpl; now apply list_elem_of_fmap_2 |].
    unfold g. destruct (decide _); simpl; repeat split; auto. }
  inv_parts; assumption.
Qed.

Lemma store_inv_update_total v s0 s :
  evolution_inv s0 s -> evolution_inv s0 (update_volunteer_total_value v s).
Proof.
  intros [(Ha & Hr & Hp & Href & Htk & Hd & Hnk) (Ht & Hno & Hdec)].
  assert (Href' : references_ok (update_volunteer_total_value v s)).
  { intros r Hr'. destruct (Href r Hr') as [H1 H2]. split; [exact H1 |].
    simpl. apply (Exists_fmap_key v_id); [| exact H2].
    intros x. now destruct (decide _). }
  inv_parts; assumption.
Qed.

Lemma store_inv_insert_volunteer s0 s :
  evolution_inv s0 s -> evolution_inv s0 (insert_volunteer s).2.
Proof.
  intros [(Ha & Hr & Hp & Href & Htk & Hd & Hnk) (Ht & Hno & Hdec)].
  assert (Href' : references_ok (insert_volunteer s).2).
  { intros r Hr'. destruct (Href r Hr') as [H1 H2]. split; [exact H1 |].
    simpl. now apply Exists_app_l. }
  inv_parts; assumption.
Qed.

Lemma pair_determines_row (l : list acceptance) x y :
  NoDup ((fun r => (va_task_id r, va_volunteer_id r)) <$> l) -> x ∈ l -> y ∈ l ->
  va_task_id x = va_task_id y -> va_volunteer_id x = va_volunteer_id y -> x = y.
Proof.
  induction l as [|a l IH]; intros Hn Hx Hy Ht Hv; [inversion Hx |].
  rewrite fmap_cons in Hn. apply NoDup_cons in Hn as [Hna Hn].
  apply elem_of_cons in Hx as [-> | Hx]; apply elem_of_cons in Hy as [-> | Hy]; auto.
  - exfalso. apply Hna. rewrite Ht, Hv.
    now apply (list_elem_of_fmap_2 (fun r => (va_task_id r, va_volunteer_id r))).
  - exfalso. apply Hna. rewrite <- Ht, <- Hv.
    now apply (list_elem_of_fmap_2 (fun r => (va_task_id r, va_volunteer_id r))).
Qed.

Lemma store_inv_delete id s0 s :
  evolution_inv s0 s -> evolution_inv s0 (delete_acceptance id s).
Proof.
  intros [(Ha & Hr & Hp & Href & Htk & Hd & Hnk) (Ht & Hno & [Hdec Hseq])].
  assert (Ha' := acceptance_inv_delete id s Ha).
  assert (Hr' : reviewed_only_when_approved (delete_acceptance id s)).
  { intros r Hin. apply list_elem_of_filter in Hin as [_ Hin]. auto. }
  assert (Hp' : pair_unique (delete_acceptance id s)).
  { unfold pair_unique. simpl.
    apply (NoDup_fmap_2_strong (fun r => (va_task_id r, va_volunteer_id r)));
      [| apply NoDup_filter; eapply NoDup_fmap_1; exact Hp].
    intros x y Hx Hy Heq.
    apply list_elem_of_filter in Hx as [_ Hx]. apply list_elem_of_filter in Hy as [_ Hy].
    injection Heq as H1 H2. exact (pair_determines_row _ x y Hp Hx Hy H1 H2). }
  assert (Href' : references_ok (delete_acceptance id s)).
  { intros r Hin. apply list_elem_of_filter in Hin as [_ Hin]. apply (Href r Hin). }
  assert (Hdec' : decisions_kept s0 (delete_acceptance id s)).
  { split; [| exact Hseq].
    intros r0 r Hr0 Hin. apply list_elem_of_filter in Hin as [_ Hin]. now apply Hdec. }
  inv_parts; assumption.
Qed.

Lemma store_inv_insert t v av h e p n s0 s id s' :
  insert_acceptance t v av h e p n s = inr (id, s') ->
  evolution_inv s0 s -> evolution_inv s0 s'.
Proof.
  intros Hins [(Ha & Hr & Hp & Href & Htk & Hd & Hnk) (Ht & Hno & [Hdec Hseq])].
  assert (Ha' := acceptance_inv_insert _ _ _ _ _ _ _ _ _ _ Hins Ha).
  unfold insert_acceptance in Hins.
  destruct (bool_decide (Exists _ _)) eqn:Hdup; [discriminate |].
  destruct (negb _) eqn:Hfk; [discriminate |].
  apply bool_decide_eq_false in Hdup.
  apply negb_false_iff, andb_true_iff in Hfk as [Hft Hfv].
  apply bool_decide_eq_true in Hft. apply bool_decide_eq_true in Hfv.
  injection Hins as <- <-.
  set (row := mkAcceptance (volunteer_acceptances_seq s + 1) t v av h e p n
                Pending Accepted None false 0%Q) in *.
  set (s' := with_acceptances (volunteer_acceptances s ++ [row])
               (volunteer_acceptances_seq s + 1) s) in *.
  assert (Hr' : reviewed_only_when_approved s').
  { intros r Hin. apply elem_of_app in Hin as [Hin | Hin]; [auto |].
    apply list_elem_of_singleton in Hin as ->. simpl. congruence. }
  assert (Hp' : pair_unique s').
  { unfold pair_unique. simpl. rewrite fmap_app. apply NoDup_app.
    split; [exact Hp | split; [| apply NoDup_singleton]].
    intros x Hx Hx'. apply list_elem_of_singleton in Hx'. subst x.
    apply list_elem_of_fmap in Hx as (r & Heq & Hin). injection Heq as H1 H2.
    apply Hdup, Exists_exists. exists r. auto. }
  assert (Href' : references_ok s').
  { intros r Hin. apply elem_of_app in Hin as [Hin | Hin]; [exact (Href r Hin) |].
    apply list_elem_of_singleton in Hin as ->. simpl. auto. }
  assert (Hdec' : decisions_kept s0 s').
  { split; [| intros r0 Hr0; specialize (Hseq r0 Hr0); simpl; lia].
    intros r0 r Hr0 Hin Hid. apply elem_of_app in Hin as [Hin | Hin]; [now apply Hdec |].
    apply list_elem_of_singleton in Hin as ->. specialize (Hseq r0 Hr0).
    simpl in Hid. lia. }
  inv_parts; assumption.
Qed.

Lemma store_inv_update id f s0 s :
  row_edit_ok s id f -> evolution_inv s0 s -> evolution_inv s0 (update_acceptance id f s).
Proof.
  intros Hf [(Ha & Hr & Hp & Href & Htk & Hd & Hnk) (Ht & Hno & [Hdec Hseq])].
  set (g := fun r => if decide (va_id r = id) then f r else r).
  assert (Hg : forall r, r ∈ volunteer_acceptances s ->
             va_id (g r) = va_id r /\ va_task_id (g r) = va_task_id r
             /\ va_volunteer_id (g r) = va_volunteer_id r
             /\ (~ (va_monetisation_value (g r) == 0)%Q ->
                 va_status (g r) = Completed /\ va_approval_status (g r) = Approved)
             /\ (va_status (g r) <> Accepted -> va_approval_status (g r) = Approved)
             /\ (va_approval_status r <> Pending ->
                 va_approval_status (g r) = va_approval_status r)).
  { intros r Hin. unfold g. destruct (decide _) as [Hid | Hid]; [exact (Hf r Hin Hid) |].
    destruct Ha as [Hv _]. repeat split; auto; now apply Hv. }
  assert (Hl : volunteer_acceptances (update_acceptance id f s)
               = g <$> volunteer_acceptances s) by reflexivity.
  assert (Ha' : acceptance_inv (update_acceptance id f s)).
  { destruct Ha as [Hv [Hn Hk]]. split; [| split].
    - intros r' Hin. rewrite Hl in Hin. apply list_elem_of_fmap in Hin as (r & -> & Hin).
      apply (Hg r Hin).
    - rewrite Hl, fmap_key_same_on; [exact Hn | intros r Hin; apply (Hg r Hin)].
    - intros r' Hin. rewrite Hl in Hin. apply list_elem_of_fmap in Hin as (r & -> & Hin).
      destruct (Hg r Hin) as [-> _]. auto. }
  assert (Hr' : reviewed_only_when_approved (update_acceptance id f s)).
  { intros r' Hin. rewrite Hl in Hin. apply list_elem_of_fmap in Hin as (r & -> & Hin).
    apply (Hg r Hin). }
  assert (Hp' : pair_unique (update_acceptance id f s)).
  { unfold pair_unique. rewrite Hl, fmap_key_same_on; [exact Hp |].
    intros r Hin. destruct (Hg r Hin) as (_ & H1 & H2 & _). now rewrite H1, H2. }
  assert (Href' : references_ok (update_acceptance id f s)).
  { intros r' Hin. rewrite Hl in Hin. apply list_elem_of_fmap in Hin as (r & -> & Hin).
    destruct (Hg r Hin) as (_ & H1 & H2 & _). rewrite H1, H2. exact (Href r Hin). }
  assert (Hdec' : decisions_kept s0 (update_acceptance id f s)).
  { split; [| exact Hseq].
    intros r0 r' Hr0 Hin Hid. rewrite Hl in Hin.
    apply list_elem_of_fmap in Hin as (r & -> & Hin).
    destruct (Hg r Hin) as (G0 & G1 & G2 & _ & _ & G3).
    rewrite G0 in Hid. destruct (Hdec r0 r Hr0 Hin Hid) as (D1 & D2 & D3).
    rewrite G1, G2. repeat split; auto.
    intros Hnp. rewrite G3; [auto |]. rewrite D3; auto. }
  inv_parts; assumption.
Qed.

End StoreInvariant.

Section RowEdits.

Ltac row_parts :=
  split; [reflexivity | split; [reflexivity | split; [reflexivity | split; [| split]]]].

Lemma row_edit_ok_certificate s id :
  store_inv s -> row_edit_ok s id set_certificate_pushed.
Proof.
  intros ([Hv _] & Hr & _) r Hin _. row_parts; simpl; auto.
Qed.

Lemma row_edit_ok_decide s id a :
  store_inv s -> approval_of_key id Pending s -> row_edit_ok s id (set_approval a).
Proof.
  intros ([Hv _] & Hr & _) Hg r Hin Hid. specialize (Hg r Hin Hid). row_parts; simpl.
  - intros Hnz. destruct (Hv r Hin Hnz) as [_ Happ]. congruence.
  - intros Hst. specialize (Hr r Hin Hst). congruence.
  - congruence.
Qed.

Lemma row_edit_ok_complete s id note :
  store_inv s -> approval_of_key id Approved s ->
  row_edit_ok s id (set_completion Completed note).
Proof.
  intros _ Hg r Hin Hid. specialize (Hg r Hin Hid). row_parts; simpl; auto.
Qed.

Lemma row_edit_ok_complete_value s id note v :
  store_inv s -> approval_of_key id Approved s ->
  row_edit_ok s id (set_completion_value Completed note v).
Proof.
  intros _ Hg r Hin Hid. specialize (Hg r Hin Hid). row_parts; simpl; auto.
Qed.

Lemma row_edit_ok_not_completed s id note :
  store_inv s -> approval_of_key id Approved s ->
  row_edit_ok s id (set_completion_value NotCompleted note 0%Q).
Proof.
  intros _ Hg r Hin Hid. specialize (Hg r Hin Hid). row_parts; simpl; auto.
  intros Hnz. now destruct Hnz.
Qed.

End RowEdits.

(** ** Every handler keeps the invariants of the store *)

Ltac inv_split :=
  repeat first
    [ solve [eauto 3 with keeps nocore]
    | progress cbv zeta
    | apply keeps_ret
    | apply keeps_raise
    | apply keeps_fetch
    | apply keeps_rate_limit_ok
    | apply keeps_bind; [| intros ? ]
    | apply keeps_try; [| intros ? ]
    | apply keeps_for_each; intros ?
    | match goal with
      | |- keeps _ (if ?b then _ else _) => destruct b eqn:?
      | |- keeps _ (match ?x with _ => _ end) => destruct x eqn:?
      end ].

Section HandlersKeepStoreInvariant.

Variable exn_text : exn -> string.
Variable s0 : store.

Lemma inv_update_task id f :
  task_edit_ok f -> keeps (evolution_inv s0) (execute (update_task id f)).
Proof. intros Hf. apply keeps_execute. intros s. now apply store_inv_update_task. Qed.

Lemma inv_notify v msg kind rel :
  keeps (evolution_inv s0) (statement (fun s => inr (insert_notification v msg kind rel s))).
Proof.
  apply keeps_statement. intros s a s' Hs [= _ <-].
  now apply store_inv_insert_notification.
Qed.

Lemma inv_update_total v :
  keeps (evolution_inv s0) (execute (update_volunteer_total_value v)).
Proof. apply keeps_execute. intros s. apply store_inv_update_total. Qed.

Lemma inv_delete id : keeps (evolution_inv s0) (execute (delete_acceptance id)).
Proof. apply keeps_execute. intros s. apply store_inv_delete. Qed.

Lemma inv_mark_read id : keeps (evolution_inv s0) (execute (mark_notification_read id)).
Proof. apply keeps_execute. intros s. apply store_inv_mark_read. Qed.

Lemma inv_set_certificate id :
  keeps (evolution_inv s0) (execute (update_acceptance id set_certificate_pushed)).
Proof.
  apply keeps_execute. intros s Hs. apply store_inv_update; [| exact Hs].
  apply row_edit_ok_certificate, Hs.
Qed.

Lemma inv_insert_task ngo f sd ed :
  date_ltb ed sd = false -> keeps (evolution_inv s0) (statement (insert_task ngo f sd ed)).
Proof.
  intros Hd. apply keeps_statement. intros s a s' Hs H.
  eapply store_inv_insert_task; eauto.
Qed.

Lemma inv_insert_acceptance t v av h e p n :
  keeps (evolution_inv s0) (statement (insert_acceptance t v av h e p n)).
Proof.
  apply keeps_statement. intros s a s' Hs H. eapply store_inv_insert; eauto.
Qed.

(** An update of the rows with key [id], under what the page knows of
    their approval status. *)
Lemma inv_update_row id f a :
  (forall s, store_inv s -> approval_of_key id a s -> row_edit_ok s id f) ->
  triple (evolution_inv s0) (fun s => evolution_inv s0 s /\ approval_of_key id a s)
    (execute (update_acceptance id f)) (fun _ => evolution_inv s0).
Proof.
  intros Hf. apply triple_execute; [tauto |].
  intros s [Hs Hg]. apply store_inv_update; [| exact Hs]. apply Hf; [apply Hs | exact Hg].
Qed.

#[local] Hint Resolve inv_update_task inv_notify inv_update_total inv_delete inv_mark_read
  inv_set_certificate inv_insert_task inv_insert_acceptance
  task_edit_ok_status task_edit_ok_deleted task_edit_ok_edited
  keeps_ret keeps_raise keeps_fetch keeps_rate_limit_ok : keeps.

Lemma inv_auto_close row : keeps (evolution_inv s0) (auto_close row).
Proof. destruct row as [t n]. unfold auto_close. inv_split. Qed.

Lemma inv_create_task ngo f now now' : keeps (evolution_inv s0) (create_task ngo f now now').
Proof. unfold create_task. inv_split. Qed.

Lemma inv_mark_closed t : keeps (evolution_inv s0) (mark_closed t).
Proof. unfold mark_closed. inv_split. Qed.

Lemma inv_confirm_delete t reason : keeps (evolution_inv s0) (confirm_delete t reason).
Proof. unfold confirm_delete. inv_split. Qed.

Lemma inv_certificate_sent t vol : keeps (evolution_inv s0) (certificate_sent t vol).
Proof. unfold certificate_sent. inv_split. Qed.

Lemma inv_confirm_remove a t : keeps (evolution_inv s0) (confirm_remove a t).
Proof. unfold confirm_remove. inv_split. Qed.

Lemma inv_submit_update_task ngo t f now now' :
  keeps (evolution_inv s0) (submit_update_task ngo t f now now').
Proof. unfold submit_update_task. inv_split. Qed.

(** The handlers under a volunteer need what the page knows of the row:
    that it is pending, or approved. *)
Lemma inv_approve ngo vol now now' :
  triple (evolution_inv s0)
    (fun s => evolution_inv s0 s /\ approval_of_key (va_id vol) Pending s)
    (approve ngo vol now now') (fun _ => evolution_inv s0).
Proof.
  unfold approve. eapply triple_bind.
  - apply triple_rate_limit_ok with (Q := fun _ s =>
      evolution_inv s0 s /\ approval_of_key (va_id vol) Pending s). auto.
  - intros [|]; [| apply keeps_weaken, keeps_ret].
    eapply triple_bind; [| intros ?; apply keeps_ret].
    apply inv_update_row. intros s. apply row_edit_ok_decide.
Qed.

Lemma inv_reject vol :
  triple (evolution_inv s0)
    (fun s => evolution_inv s0 s /\ approval_of_key (va_id vol) Pending s)
    (reject vol) (fun _ => evolution_inv s0).
Proof.
  unfold reject. eapply triple_bind; [| intros ?; apply keeps_ret].
  apply inv_update_row. intros s. apply row_edit_ok_decide.
Qed.

Lemma inv_work_completed t vol :
  triple (evolution_inv s0)
    (fun s => evolution_inv s0 s /\ approval_of_key (va_id vol) Approved s)
    (work_completed t vol) (fun _ => evolution_inv s0).
Proof.
  unfold work_completed.
  set (G := fun s => evolution_inv s0 s /\ approval_of_key (va_id vol) Approved s).
  assert (Hplain : triple (evolution_inv s0) G
            (execute (update_acceptance (va_id vol) (set_completion Completed None)) ;;
             mret true) (fun _ => evolution_inv s0)).
  { eapply triple_bind; [| intros ?; apply keeps_ret].
    apply inv_update_row. intros s. apply row_edit_ok_complete. }
  eapply triple_bind.
  - apply triple_fetch with (Q := fun _ => G); [unfold G; tauto | auto].
  - intros [td |]; [| exact Hplain].
    destruct (t_start_date td); [| exact Hplain].
    destruct (t_end_date td); [| exact Hplain].
    destruct (negb _); [| exact Hplain].
    destruct (duration_days _ _) as [e | duration].
    + apply triple_raise. unfold G; tauto.
    + eapply triple_bind.
      * apply inv_update_row. intros s. apply row_edit_ok_complete_value.
      * intros ?. inv_split.
Qed.

Lemma inv_work_not_done vol issue :
  triple (evolution_inv s0)
    (fun s => evolution_inv s0 s /\ approval_of_key (va_id vol) Approved s)
    (work_not_done vol issue) (fun _ => evolution_inv s0).
Proof.
  unfold work_not_done. destruct (nonempty _); [| apply keeps_weaken, keeps_ret].
  eapply triple_bind.
  - apply inv_update_row. intros s. apply row_edit_ok_not_completed.
  - intros ?. inv_split.
Qed.

Lemma inv_task_expander ngo row click now now' :
  keeps (evolution_inv s0) (task_expander ngo row click now now').
Proof.
  unfold task_expander.
  apply keeps_bind; [apply inv_auto_close | intros _].
  apply keeps_bind.
  { destruct click as [[]|]; inv_split;
      auto using inv_mark_closed, inv_confirm_delete. }
  intros [|]; [apply keeps_ret |].
  apply keeps_fetch_bind. intros vols.
  assert (Hdrawn : forall id vol a (which : list acceptance * list acceptance -> list acceptance),
             (which = fst /\ a = Approved \/ which = snd /\ a = Pending) ->
             snd <$> list_find (fun r => va_id r = id) (which vols) = Some vol ->
             forall s, evolution_inv s0 s /\ vols = get_task_volunteers (t_id row.1) s ->
                       evolution_inv s0 s /\ approval_of_key (va_id vol) a s).
  { intros id vol a which Hw Hfind s [Hs ->]. split; [exact Hs |].
    eapply approval_of_drawn; [apply Hs | exact Hfind |].
    destruct (get_task_volunteers_rows (t_id row.1) s) as [H1 H2].
    destruct Hw as [[-> ->] | [-> ->]]; auto. }
  destruct click as [[]|]; simpl; try (apply keeps_weaken, keeps_ret).
  - destruct (snd <$> list_find _ vols.2) as [vol|] eqn:E; [| apply keeps_weaken, keeps_ret].
    eapply triple_conseq; [apply inv_approve | | auto].
    eapply (Hdrawn _ _ _ snd); eauto.
  - destruct (snd <$> list_find _ vols.2) as [vol|] eqn:E; [| apply keeps_weaken, keeps_ret].
    eapply triple_conseq; [apply inv_reject | | auto].
    eapply (Hdrawn _ _ _ snd); eauto.
  - destruct (snd <$> list_find _ vols.1) as [vol|] eqn:E; [| apply keeps_weaken, keeps_ret].
    eapply triple_conseq; [apply inv_work_completed | | auto].
    eapply (Hdrawn _ _ _ fst); eauto.
  - destruct (snd <$> list_find _ vols.1) as [vol|]; [| apply keeps_weaken, keeps_ret].
    destruct (va_certificate_pushed vol); apply keeps_weaken;
      [apply keeps_ret | apply inv_certificate_sent].
  - destruct (snd <$> list_find _ vols.1) as [vol|] eqn:E; [| apply keeps_weaken, keeps_ret].
    eapply triple_conseq; [apply inv_work_not_done | | auto].
    eapply (Hdrawn _ _ _ fst); eauto.
Qed.

Lemma inv_tasks_loop ngo rows click now now' :
  keeps (evolution_inv s0) (tasks_loop ngo rows click now now').
Proof.
  induction rows as [|row rows IH]; simpl; [apply keeps_ret |].
  apply keeps_bind; [apply inv_task_expander |].
  intros [|]; [apply keeps_ret | exact IH].
Qed.

Lemma inv_render_tasks_tab ngo now now' :
  keeps (evolution_inv s0) (render_tasks_tab ngo now now').
Proof.
  unfold render_tasks_tab. apply keeps_bind; [apply keeps_fetch | intros tasks].
  apply keeps_bind; [apply inv_tasks_loop | intros ?; apply keeps_ret].
Qed.

Lemma inv_ngo_tasks_tab ngo click now now' :
  keeps (evolution_inv s0) (ngo_tasks_tab ngo click now now').
Proof.
  unfold ngo_tasks_tab.
  apply keeps_bind; [destruct click; auto using inv_create_task with keeps |].
  intros [|]; [apply inv_render_tasks_tab |].
  apply keeps_bind; [apply keeps_fetch | intros tasks].
  apply keeps_bind; [apply inv_tasks_loop |].
  intros [|]; [apply inv_render_tasks_tab |].
  destruct click; try apply keeps_ret.
  - destruct tasks; [apply keeps_ret |].
    apply keeps_bind; [apply keeps_fetch |].
    intros [t |]; [| apply keeps_ret].
    apply keeps_bind; [apply inv_submit_update_task |].
    intros [|]; [apply inv_render_tasks_tab | apply keeps_ret].
  - apply keeps_bind; [apply inv_confirm_remove |].
    intros _. apply inv_render_tasks_tab.
Qed.

Lemma inv_apply_for_task t v form :
  keeps (evolution_inv s0) (apply_for_task exn_text t v form).
Proof. unfold apply_for_task. inv_split. Qed.

Lemma inv_withdraw t acc : keeps (evolution_inv s0) (withdraw t acc).
Proof. unfold withdraw. inv_split. Qed.

Lemma inv_withdraw_from_task acc : keeps (evolution_inv s0) (withdraw_from_task acc).
Proof. unfold withdraw_from_task. inv_split. Qed.

#[local] Hint Resolve inv_apply_for_task inv_withdraw inv_withdraw_from_task : keeps.

Lemma inv_browse_expander v t click :
  keeps (evolution_inv s0) (browse_expander exn_text v t click).
Proof. unfold browse_expander. inv_split. Qed.

#[local] Hint Resolve inv_browse_expander : keeps.

Lemma inv_volunteer_dashboard v click :
  keeps (evolution_inv s0) (volunteer_dashboard exn_text v click).
Proof. unfold volunteer_dashboard. destruct click; inv_split. Qed.

(** Every transition keeps the invariants, and what stays of [s0]. *)
Lemma step_evolution_inv s s' :
  step exn_text s s' -> evolution_inv s0 s -> evolution_inv s0 s'.
Proof.
  intros Hstep IH.
  destruct Hstep as [s | s ngo click now now' fuse ss | s v click fuse ss _].
  - now apply store_inv_insert_volunteer.
  - pose proof (inv_ngo_tasks_tab ngo click now now' (mkWorld s fuse ss) IH) as H.
    destruct (ngo_tasks_tab _ _ _ _ _) as [[e | a] w']; exact H.
  - pose proof (inv_volunteer_dashboard v click (mkWorld s fuse ss) IH) as H.
    destruct (volunteer_dashboard _ _ _ _) as [[e | a] w']; exact H.
Qed.

End HandlersKeepStoreInvariant.

Section ReachableInvariant.

Variable exn_text : exn -> string.

Lemma evolves_refl s : store_inv s -> evolves s s.
Proof.
  intros ([_ [Hn Hk]] & _). split; [| split; [| split]].
  - intros t Ht. exists t. auto.
  - intros n Hin. exists n. repeat split; auto.
  - intros r0 r Hr0 Hr Hid.
    rewrite (key_determines_row va_id _ r r0 Hn Hr Hr0 Hid). auto.
  - exact Hk.
Qed.

Lemma store_inv_empty : store_inv empty_store.
Proof.
  assert (Hnil : forall {A} (x : A), x ∈ @nil A -> False) by (intros A x Hx; inversion Hx).
  split; [apply acceptance_inv_empty |].
  split; [intros r Hr; destruct (Hnil _ _ Hr) |].
  split; [apply NoDup_nil_2 |].
  split; [intros r Hr; destruct (Hnil _ _ Hr) |].
  split; [split; [apply NoDup_nil_2 | intros r Hr; destruct (Hnil _ _ Hr)] |].
  split; [intros r Hr; destruct (Hnil _ _ Hr) |].
  split; [apply NoDup_nil_2 | intros r Hr; destruct (Hnil _ _ Hr)].
Qed.

(** The invariants hold in every state the application reaches. *)
Lemma reachable_store_inv s : reachable exn_text s -> store_inv s.
Proof.
  induction 1 as [| s s' _ IH Hstep]; [apply store_inv_empty |].
  apply (step_evolution_inv exn_text s s s' Hstep). split; [exact IH | now apply evolves_refl].
Qed.

(** From a state that satisfies them on, they hold together with what
    stays of that state. *)
Lemma reachable_from_evolution_inv s0 s :
  store_inv s0 -> reachable_from exn_text s0 s -> evolution_inv s0 s.
Proof.
  intros H0. induction 1 as [| s s' _ IH Hstep].
  - split; [exact H0 | now apply evolves_refl].
  - exact (step_evolution_inv exn_text s0 s s' Hstep IH).
Qed.

Lemma reachable_from_ngo s0 ngo click s :
  reachable_from exn_text s0 s -> reachable_from exn_text s0 (ngo_event ngo click s).
Proof. intros H. exact (from_step _ _ _ _ H (step_ngo _ s ngo click 0 0 None ∅)). Qed.

End ReachableInvariant.

(** X1.  In every state the application reaches, nobody has two
    engagements with one task, and every engagement is for a task and a
    volunteer that exist: no handler deletes a task or a volunteer row. *)
Theorem engagement_pairs_unique_and_referenced (exn_text : exn -> string) (s : store) :
  reachable exn_text s ->
  (forall r r', r ∈ volunteer_acceptances s -> r' ∈ volunteer_acceptances s ->
     va_task_id r = va_task_id r' -> va_volunteer_id r = va_volunteer_id r' -> r = r')
  /\ (forall r, r ∈ volunteer_acceptances s ->
        Exists (fun t => t_id t = va_task_id r) (tasks s)
        /\ Exists (fun v => v_id v = va_volunteer_id r) (volunteers s)).
Proof.
  intros Hreach. destruct (reachable_store_inv exn_text s Hreach) as (_ & _ & Hp & Href & _).
  split; [| exact Href].
  intros r r' Hr Hr'. exact (pair_determines_row _ r r' Hp Hr Hr').
Qed.

Lemma engagement_pairs_unique_and_referenced_witness :
  Forall (fun r => Exists (fun t => t_id t = va_task_id r)
                     (tasks (Scenario.applied_twice Scenario.sqlite_text)))
    (volunteer_acceptances (Scenario.applied_twice Scenario.sqlite_text)).
Proof.
  apply Forall_forall. intros r Hr.
  destruct (engagement_pairs_unique_and_referenced Scenario.sqlite_text
              (Scenario.applied_twice Scenario.sqlite_text)
              (reachable_applied_twice Scenario.sqlite_text)) as [_ H].
  exact (proj1 (H r Hr)).
Defined.

(** X2.  In every state the application reaches, an engagement that is not
    approved (pending or rejected) still has the status [accepted]: only
    approved engagements are ever marked completed or not completed. *)
Theorem unapproved_engagement_never_reviewed (exn_text : exn -> string) (s : store) :
  reachable exn_text s ->
  forall r, r ∈ volunteer_acceptances s ->
    va_approval_status r <> Approved -> va_status r = Accepted.
Proof.
  intros Hreach r Hr Hna.
  destruct (reachable_store_inv exn_text s Hreach) as (_ & Hrev & _).
  destruct (decide (va_status r = Accepted)) as [| Hst]; [assumption |].
  now specialize (Hrev r Hr Hst).
Qed.

Lemma unapproved_engagement_never_reviewed_witness :
  Forall (fun r => va_status r = Accepted)
    (volunteer_acceptances (Scenario.rejected Scenario.sqlite_text)).
Proof.
  apply Forall_forall. intros r Hr.
  apply (unapproved_engagement_never_reviewed Scenario.sqlite_text
           (Scenario.rejected Scenario.sqlite_text)
           (reachable_rejected Scenario.sqlite_text) r Hr).
  vm_compute in Hr.
  repeat (apply elem_of_cons in Hr as [-> | Hr]; [discriminate |]).
  now apply elem_of_nil in Hr.
Defined.

(** X3.  In every state the application reaches, every task has its start
    date and its end date, and does not end before it starts: "Create
    Task" and "Update Task" refuse any other form. *)
Theorem task_dates_in_order (exn_text : exn -> string) (s : store) :
  reachable exn_text s ->
  forall t, t ∈ tasks s ->
    exists start_d end_d,
      t_start_date t = Some start_d /\ t_end_date t = Some end_d
      /\ date_leb start_d end_d = true.
Proof.
  intros Hreach t Ht.
  destruct (reachable_store_inv exn_text s Hreach) as (_ & _ & _ & _ & _ & Hd & _).
  destruct (Hd t Ht) as (sd & ed & H1 & H2 & H3). exists sd, ed.
  unfold date_leb. now rewrite H3.
Qed.

Lemma task_dates_in_order_witness :
  Forall (fun t => exists start_d end_d,
            t_start_date t = Some start_d /\ t_end_date t = Some end_d
            /\ date_leb start_d end_d = true)
    (tasks Scenario.posted).
Proof.
  apply Forall_forall.
  exact (task_dates_in_order Scenario.sqlite_text Scenario.posted
           (reachable_posted Scenario.sqlite_text)).
Defined.

(** X4.  A task is never removed: whatever happens after a state the
    application has reached, each of its tasks is still in the table, with
    the same key and the same owner, and a task that was deleted stays
    deleted (the deletion is a mark that nothing takes back). *)
Theorem tasks_never_removed (exn_text : exn -> string) (s0 s : store) :
  reachable exn_text s0 -> reachable_from exn_text s0 s ->
  forall t0, t0 ∈ tasks s0 ->
    exists t, t ∈ tasks s /\ t_id t = t_id t0 /\ t_ngo_id t = t_ngo_id t0
              /\ (t_is_deleted t0 = true -> t_is_deleted t = true).
Proof.
  intros Hreach Hfrom.
  pose proof (reachable_store_inv exn_text s0 Hreach) as H0.
  destruct (reachable_from_evolution_inv exn_text s0 s H0 Hfrom) as [_ (Ht & _)].
  exact Ht.
Qed.

Lemma tasks_never_removed_witness :
  Forall (fun t0 => exists t,
            t ∈ tasks (ngo_event 1 (ClickConfirmDelete 1 "cancelled") Scenario.posted)
            /\ t_id t = t_id t0 /\ t_ngo_id t = t_ngo_id t0
            /\ (t_is_deleted t0 = true -> t_is_deleted t = true))
    (tasks Scenario.posted).
Proof.
  apply Forall_forall.
  apply (tasks_never_removed Scenario.sqlite_text Scenario.posted).
  - apply reachable_posted.
  - apply reachable_from_ngo, from_here.
Defined.

(** X5.  A notification is never removed or rewritten: whatever happens
    after a state the application has reached, each of its notifications is
    still there, for the same user and with the same message, kind and
    reference; only its read mark can change, and only from unread to
    read. *)
Theorem notifications_never_removed (exn_text : exn -> string) (s0 s : store) :
  reachable exn_text s0 -> reachable_from exn_text s0 s ->
  forall n0, n0 ∈ notifications s0 ->
    exists n, n ∈ notifications s /\ n_id n = n_id n0 /\ n_user_type n = n_user_type n0
              /\ n_user_id n = n_user_id n0 /\ n_message n = n_message n0
              /\ n_notification_type n = n_notification_type n0
              /\ n_related_id n = n_related_id n0
              /\ (n_is_read n0 = true -> n_is_read n = true).
Proof.
  intros Hreach Hfrom.
  pose proof (reachable_store_inv exn_text s0 Hreach) as H0.
  destruct (reachable_from_evolution_inv exn_text s0 s H0 Hfrom) as [_ (_ & Hn & _)].
  exact Hn.
Qed.

(** X6.  The NGO's decision on an application is final: whatever happens
    after a state the application has reached, an engagement row that is
    still there is for the same task and the same volunteer, and if it was
    approved or rejected, it still is. *)
Theorem approval_decision_final (exn_text : exn -> string) (s0 s : store) :
  reachable exn_text s0 -> reachable_from exn_text s0 s ->
  forall r0 r, r0 ∈ volunteer_acceptances s0 -> r ∈ volunteer_acceptances s ->
    va_id r = va_id r0 ->
    va_task_id r = va_task_id r0 /\ va_volunteer_id r = va_volunteer_id r0
    /\ (va_approval_status r0 <> Pending -> va_approval_status r = va_approval_status r0).
Proof.
  intros Hreach Hfrom.
  pose proof (reachable_store_inv exn_text s0 Hreach) as H0.
  destruct (reachable_from_evolution_inv exn_text s0 s H0 Hfrom) as [_ (_ & _ & Hd & _)].
  exact Hd.
Qed.

Lemma reachable_from_volunteer (exn_text : exn -> string) s0 v click s :
  reachable_from exn_text s0 s ->
  bool_decide (Exists (fun x => v_id x = v) (volunteers s)) = true ->
  reachable_from exn_text s0 (volunteer_event exn_text v click s).
Proof.
  intros H Hv. apply bool_decide_eq_true in Hv.
  exact (from_step _ _ _ _ H (step_volunteer _ s v click None ∅ Hv)).
Qed.

Lemma notifications_never_removed_witness :
  let s0 := ngo_event 1 (ClickConfirmDelete 1 "cancelled")
              (Scenario.applied Scenario.sqlite_text) in
  let s := volunteer_event Scenario.sqlite_text 1 (ClickMarkAsRead 1) s0 in
  Forall (fun n0 => exists n,
            n ∈ notifications s /\ n_id n = n_id n0 /\ n_user_type n = n_user_type n0
            /\ n_user_id n = n_user_id n0 /\ n_message n = n_message n0
            /\ n_notification_type n = n_notification_type n0
            /\ n_related_id n = n_related_id n0
            /\ (n_is_read n0 = true -> n_is_read n = true))
    (notifications s0).
Proof.
  intros s0 s. apply Forall_forall.
  assert (Hv : bool_decide (Exists (fun x => v_id x = 1) (volunteers s0)) = true)
    by (vm_compute; reflexivity).
  apply (notifications_never_removed Scenario.sqlite_text s0 s).
  - unfold s0. apply reachable_ngo, reachable_applied.
  - unfold s. apply reachable_from_volunteer; [apply from_here | exact Hv].
Defined.

Lemma approval_decision_final_witness :
  let s0 := Scenario.rejected Scenario.sqlite_text in
  let s := ngo_event 1 (ClickApprove 1) s0 in
  Forall (fun r => va_id r = 1 -> va_approval_status r = Rejected)
    (volunteer_acceptances s).
Proof.
  intros s0 s. apply Forall_forall. intros r Hr Hid.
  assert (H0 : exists r0, r0 ∈ volunteer_acceptances s0 /\ va_id r0 = 1
                          /\ va_approval_status r0 = Rejected).
  { vm_compute. eexists. split; [left | split; reflexivity]. }
  destruct H0 as (r0 & Hr0 & Hid0 & Hrej).
  destruct (approval_decision_final Scenario.sqlite_text s0 s
              (reachable_rejected Scenario.sqlite_text)
              (reachable_from_ngo _ _ _ _ _ (from_here _ _)) r0 r Hr0 Hr
              ltac:(congruence)) as (_ & _ & H).
  rewrite H; [exact Hrej | congruence].
Defined.

(* ===================================================================== *)
(** * What a volunteer's run leaves alone *)
(* ===================================================================== *)

Section FrameFacts.

Lemma filter_filter_implied {A} (P Q : A -> Prop) `{!forall x, Decision (P x)}
    `{!forall x, Decision (Q x)} (l : list A) :
  (forall x, x ∈ l -> P x -> Q x) -> filter P (filter Q l) = filter P l.
Proof.
  induction l as [|x l IH]; intros Himp; [reflexivity |].
  assert (IH' : filter P (filter Q l) = filter P l).
  { apply IH. intros y Hy. apply Himp. now right. }
  rewrite (filter_cons Q). destruct (decide (Q x)) as [Hq | Hq].
  - rewrite !filter_cons. destruct (decide (P x)); now rewrite IH'.
  - rewrite IH', filter_cons. destruct (decide (P x)) as [Hp | Hp]; [| reflexivity].
    destruct Hq. apply Himp; [left | exact Hp].
Qed.

Lemma filter_fmap_fixed {A} (P : A -> Prop) `{!forall x, Decision (P x)} (g : A -> A)
    (l : list A) :
  (forall x, x ∈ l -> g x = x \/ (~ P x /\ ~ P (g x))) -> filter P (g <$> l) = filter P l.
Proof.
  induction l as [|x l IH]; intros Hfix; [reflexivity |].
  assert (IH' : filter P (g <$> l) = filter P l).
  { apply IH. intros y Hy. apply Hfix. now right. }
  rewrite fmap_cons, !filter_cons, IH'.
  destruct (Hfix x ltac:(left)) as [-> | [H1 H2]]; [reflexivity |].
  now rewrite !decide_False.
Qed.

Variable v : Z.
Variable s0 : store.

Lemma frame_refl : volunteer_frame v s0 s0.
Proof.
  repeat split. apply Forall2_same_length_lookup_2; [reflexivity |].
  intros i x y Hx Hy. left. congruence.
Qed.

Lemma frame_delete acc s :
  store_inv s -> acc ∈ volunteer_acceptances s -> va_volunteer_id acc = v ->
  volunteer_frame v s0 s -> volunteer_frame v s0 (delete_acceptance (va_id acc) s).
Proof.
  intros ([_ [Hn _]] & _) Hin Hv (Ha & Hvol & Hno & Ht).
  split; [| split; [| split]]; try assumption.
  rewrite <- Ha. simpl. apply filter_filter_implied.
  intros r Hr Hne Hid. apply Hne. rewrite <- Hv.
  now rewrite (key_determines_row va_id _ r acc Hn Hr Hin Hid).
Qed.

Lemma frame_insert t av h e p n s id s' :
  insert_acceptance t v av h e p n s = inr (id, s') ->
  volunteer_frame v s0 s -> volunteer_frame v s0 s'.
Proof.
  unfold insert_acceptance. intros Hins (Ha & Hvol & Hno & Ht).
  destruct (bool_decide _); [discriminate |].
  destruct (negb _); [discriminate |].
  injection Hins as <- <-.
  split; [| split; [| split]]; try assumption.
  rewrite <- Ha. simpl. rewrite filter_app, filter_cons, decide_False, filter_nil.
  - apply app_nil_r.
  - simpl. auto.
Qed.

Lemma frame_reopen id s :
  volunteer_frame v s0 s ->
  volunteer_frame v s0 (update_task id (set_task_status Open) s).
Proof.
  intros (Ha & Hvol & Hno & Ht).
  split; [| split; [| split]]; try assumption.
  simpl. apply Forall2_fmap_r. eapply Forall2_impl; [exact Ht |].
  intros t0 t [-> | ->]; simpl; destruct (decide _); auto.
Qed.

Lemma frame_mark_read id s :
  store_inv s ->
  Exists (fun n => n_id n = id) (unread_notifications v s) ->
  volunteer_frame v s0 s -> volunteer_frame v s0 (mark_notification_read id s).
Proof.
  intros (_ & _ & _ & _ & _ & _ & [Hn _]) Hex (Ha & Hvol & Hno & Ht).
  apply Exists_exists in Hex as (n & Hin & Hid).
  apply list_elem_of_filter in Hin as [(_ & Hown & _) Hin].
  split; [| split; [| split]]; try assumption.
  rewrite <- Hno. simpl. apply filter_fmap_fixed.
  intros x Hx. destruct (decide (n_id x = id)) as [Hx' | Hx']; [right | now left].
  assert (x = n) as -> by (apply (key_determines_row n_id _ x n Hn Hx Hin); congruence).
  simpl. split; intros H; now apply H.
Qed.

End FrameFacts.

Section VolunteerRunsKeepFrame.

Variable exn_text : exn -> string.
Variable v : Z.
Variable s0 : store.

Lemma run_inv_reopen id :
  keeps (volunteer_run_inv v s0) (execute (update_task id (set_task_status Open))).
Proof.
  apply keeps_execute. intros s [Hi Hf]. split.
  - apply store_inv_update_task; [apply task_edit_ok_status | exact Hi].
  - now apply frame_reopen.
Qed.

Lemma run_inv_insert t av h e p n :
  keeps (volunteer_run_inv v s0) (statement (insert_acceptance t v av h e p n)).
Proof.
  apply keeps_statement. intros s a s' [Hi Hf] Hins. split.
  - eapply store_inv_insert; eauto.
  - eapply frame_insert; eauto.
Qed.

Lemma run_inv_delete acc :
  va_volunteer_id acc = v ->
  triple (volunteer_run_inv v s0)
    (fun s => volunteer_run_inv v s0 s /\ acc ∈ volunteer_acceptances s)
    (execute (delete_acceptance (va_id acc))) (fun _ => volunteer_run_inv v s0).
Proof.
  intros Hv. apply triple_execute; [tauto |].
  intros s [[Hi Hf] Hin]. split.
  - now apply store_inv_delete.
  - apply frame_delete; auto. apply Hi.
Qed.

Lemma run_inv_mark_read id :
  triple (volunteer_run_inv v s0)
    (fun s => volunteer_run_inv v s0 s
              /\ Exists (fun n => n_id n = id) (unread_notifications v s))
    (execute (mark_notification_read id)) (fun _ => volunteer_run_inv v s0).
Proof.
  apply triple_execute; [tauto |].
  intros s [[Hi Hf] Hex]. split.
  - now apply store_inv_mark_read.
  - apply frame_mark_read; auto. apply Hi.
Qed.

#[local] Hint Resolve run_inv_reopen run_inv_insert
  keeps_ret keeps_raise keeps_fetch keeps_rate_limit_ok : keeps.

Lemma run_inv_apply_for_task t form :
  keeps (volunteer_run_inv v s0) (apply_for_task exn_text t v form).
Proof. unfold apply_for_task. inv_split. Qed.

Lemma run_inv_withdraw t acc :
  va_volunteer_id acc = v ->
  triple (volunteer_run_inv v s0)
    (fun s => volunteer_run_inv v s0 s /\ acc ∈ volunteer_acceptances s)
    (withdraw t acc) (fun _ => volunteer_run_inv v s0).
Proof.
  intros Hv. unfold withdraw.
  eapply triple_bind; [now apply run_inv_delete | intros ?].
  inv_split.
Qed.

Lemma run_inv_withdraw_from_task acc :
  va_volunteer_id acc = v ->
  triple (volunteer_run_inv v s0)
    (fun s => volunteer_run_inv v s0 s /\ acc ∈ volunteer_acceptances s)
    (withdraw_from_task acc) (fun _ => volunteer_run_inv v s0).
Proof.
  intros Hv. unfold withdraw_from_task.
  eapply triple_bind; [now apply run_inv_delete | intros ?].
  inv_split.
Qed.

#[local] Hint Resolve run_inv_apply_for_task : keeps.

Lemma acceptance_of_own s t acc :
  acceptance_of s t v = Some acc ->
  acc ∈ volunteer_acceptances s /\ va_volunteer_id acc = v.
Proof.
  unfold acceptance_of. intros Hfind.
  destruct (list_find _ _) as [[i r] |] eqn:E; [| discriminate].
  injection Hfind as ->. apply list_find_Some in E as (Hi & [_ Hv] & _).
  split; [now apply list_elem_of_lookup_2 in Hi | exact Hv].
Qed.

Lemma run_inv_browse_expander t click :
  keeps (volunteer_run_inv v s0) (browse_expander exn_text v t click).
Proof.
  unfold browse_expander. apply keeps_fetch_bind. intros already.
  set (G := fun s => volunteer_run_inv v s0 s
                     /\ already = acceptance_of s (t_id t) v).
  eapply triple_bind.
  { apply triple_fetch with (Q := fun _ => G); [unfold G; tauto | auto]. }
  intros volunteer_count. cbv zeta.
  destruct (bool_decide (t_status t = Closed)); [apply keeps_weaken, keeps_ret |].
  destruct already as [acc |].
  - assert (Hown : forall s, G s ->
               volunteer_run_inv v s0 s /\ acc ∈ volunteer_acceptances s).
    { intros s [Hs Heq]. split; [exact Hs |]. symmetry in Heq.
      now apply acceptance_of_own in Heq. }
    assert (Hdel : va_volunteer_id acc = v ->
              forall (msg : option string),
                triple (volunteer_run_inv v s0) G
                  (execute (delete_acceptance (va_id acc)) ;; mret msg)
                  (fun _ => volunteer_run_inv v s0)).
    { intros Hv msg. eapply triple_bind; [| intros ?; apply keeps_ret].
      eapply triple_conseq; [now apply run_inv_delete | exact Hown | auto]. }
    destruct (decide (va_volunteer_id acc = v)) as [Hv | Hv].
    + destruct (va_approval_status acc).
      * destruct click; try (apply keeps_weaken, keeps_ret). now apply Hdel.
      * destruct (bool_decide _); [| apply keeps_weaken, keeps_ret].
        destruct click; try (apply keeps_weaken, keeps_ret).
        eapply triple_conseq; [now apply run_inv_withdraw | exact Hown | auto].
      * destruct click; try (apply keeps_weaken, keeps_ret). now apply Hdel.
    + intros w [_ Heq]. symmetry in Heq. apply acceptance_of_own in Heq as [_ Heq].
      contradiction.
  - destruct (_ && _); [apply keeps_weaken, keeps_ret |].
    destruct click; try (apply keeps_weaken, keeps_ret).
    apply keeps_weaken, run_inv_apply_for_task.
Qed.

Lemma run_inv_volunteer_dashboard click :
  keeps (volunteer_run_inv v s0) (volunteer_dashboard exn_text v click).
Proof.
  unfold volunteer_dashboard. destruct click.
  - apply keeps_fetch_bind. intros notifs.
    destruct (bool_decide _) eqn:E; [| apply keeps_weaken, keeps_ret].
    apply bool_decide_eq_true in E.
    eapply triple_bind; [| intros ?; apply keeps_ret].
    eapply triple_conseq; [apply run_inv_mark_read | | auto].
    intros s [Hs ->]. split; [exact Hs | exact E].
  - apply keeps_bind; [apply keeps_fetch | intros tasks].
    destruct (snd <$> list_find _ tasks); [apply run_inv_browse_expander | apply keeps_ret].
  - apply keeps_bind; [apply keeps_fetch | intros tasks].
    destruct (snd <$> list_find _ tasks); [apply run_inv_browse_expander | apply keeps_ret].
  - apply keeps_bind; [apply keeps_fetch | intros tasks].
    destruct (snd <$> list_find _ tasks); [apply run_inv_browse_expander | apply keeps_ret].
  - apply keeps_bind; [apply keeps_fetch | intros tasks].
    destruct (snd <$> list_find _ tasks); [apply run_inv_browse_expander | apply keeps_ret].
  - apply keeps_fetch_bind. intros rows.
    destruct (snd <$> list_find _ rows) as [acc |] eqn:E; [| apply keeps_weaken, keeps_ret].
    destruct (bool_decide _); [| apply keeps_weaken, keeps_ret].
    destruct (list_find _ rows) as [[i acc'] |] eqn:E'; [| discriminate].
    injection E as ->. apply list_find_Some in E' as (Hi & _ & _).
    apply list_elem_of_lookup_2 in Hi.
    destruct (decide (va_volunteer_id acc = v)) as [Hv | Hv].
    + eapply triple_conseq; [now apply run_inv_withdraw_from_task | | auto].
      intros s [Hs ->]. split; [exact Hs |].
      apply elem_of_reverse, list_elem_of_filter in Hi as [_ Hi]. exact Hi.
    + intros w [_ ->]. apply elem_of_reverse, list_elem_of_filter in Hi as [[Hi _] _].
      contradiction.
Qed.

End VolunteerRunsKeepFrame.

(** X7.  A run of a volunteer's dashboard touches only what is the
    volunteer's own.  From any state the application reaches, whatever the
    volunteer presses and wherever the store fails, the run leaves the
    engagements of every other volunteer, the [volunteers] table with its
    aggregates, and the notifications of every other user exactly as they
    were; and each task is as it was, or as it was with its status set to
    open. *)
Theorem volunteer_run_touches_own_rows_only (exn_text : exn -> string) (s0 : store)
    (v : Z) (click : volunteer_click) (fuse : option nat) (ss : gmap string (list Z)) :
  reachable exn_text s0 ->
  let s := db (volunteer_dashboard exn_text v click (mkWorld s0 fuse ss)).2 in
  filter (fun r => va_volunteer_id r <> v) (volunteer_acceptances s)
  = filter (fun r => va_volunteer_id r <> v) (volunteer_acceptances s0)
  /\ volunteers s = volunteers s0
  /\ filter (fun n => n_user_id n <> v) (notifications s)
     = filter (fun n => n_user_id n <> v) (notifications s0)
  /\ Forall2 (fun t0 t => t = t0 \/ t = set_task_status Open t0) (tasks s0) (tasks s).
Proof.
  intros Hreach s.
  pose proof (reachable_store_inv exn_text s0 Hreach) as H0.
  assert (Hstart : volunteer_run_inv v s0 s0).
  { split; [split; [exact H0 | now apply evolves_refl] | apply frame_refl]. }
  pose proof (run_inv_volunteer_dashboard exn_text v s0 click (mkWorld s0 fuse ss) Hstart) as H.
  subst s. destruct (volunteer_dashboard _ _ _ _) as [[e | a] w']; exact (proj2 H).
Qed.

Lemma volunteer_run_touches_own_rows_only_witness :
  let s0 := Scenario.approved_first Scenario.sqlite_text in
  let s := db (volunteer_dashboard Scenario.sqlite_text 1 (ClickWithdrawFromTask 1)
                 (mkWorld s0 None ∅)).2 in
  filter (fun r => va_volunteer_id r <> 1) (volunteer_acceptances s)
  = filter (fun r => va_volunteer_id r <> 1) (volunteer_acceptances s0).
Proof.
  pose proof (volunteer_run_touches_own_rows_only Scenario.sqlite_text
                (Scenario.approved_first Scenario.sqlite_text) 1
                (ClickWithdrawFromTask 1) None ∅
                (reachable_approved_first Scenario.sqlite_text)) as H.
  cbv zeta in H. cbv zeta. exact (proj1 H).
Defined.

(* ===================================================================== *)
(** * Deleting a task, and the auto-close *)
(* ===================================================================== *)

Section HandlerRuns.





End HandlerRuns.



Section RenderRuns.

Lemma bind_run {A B} (m : M A) (k : A -> M B) w a w' :
  m w = (inr a, w') -> (m ≫= k) w = k a w'.
Proof. intros Hm. unfold mbind, M_bind. now rewrite Hm. Qed.

Lemma task_expander_plain_run ngo_id row now now' s ss :
  task_expander ngo_id row None now now' (mkWorld s None ss)
  = (inr false, mkWorld (close_if_full s row) None ss).
Proof.
  unfold task_expander, auto_close, close_if_full, at_capacity.
  destruct row as [t n]. cbv zeta. cbn [fst snd].
  destruct (_ && _ && _ && _); reflexivity.
Qed.

Lemma tasks_loop_plain_run ngo_id rows now now' s ss :
  tasks_loop ngo_id rows None now now' (mkWorld s None ss)
  = (inr false, mkWorld (foldl close_if_full s rows) None ss).
Proof.
  revert s. induction rows as [|row rows IH]; intros s; [reflexivity |].
  cbn [tasks_loop foldl].
  rewrite (bind_run _ _ _ _ _ (task_expander_plain_run ngo_id row now now' s ss)).
  apply IH.
Qed.

Lemma render_tasks_tab_run ngo_id now now' s ss :
  run (render_tasks_tab ngo_id now now') ss s
  = (inr tt, foldl close_if_full s (get_tasks_with_counts ngo_id s)).
Proof.
  unfold run, render_tasks_tab. rewrite run_fetch_bind.
  rewrite (bind_run _ _ _ _ _ (tasks_loop_plain_run ngo_id _ now now' s ss)).
  reflexivity.
Qed.

Lemma Forall2_fmap_self {A} (R : A -> A -> Prop) (g : A -> A) (l : list A) :
  (forall x, R x (g x)) -> Forall2 R l (g <$> l).
Proof. intros Hg. induction l; constructor; auto. Qed.

Lemma Forall2_self {A} (R : A -> A -> Prop) (l : list A) :
  (forall x, R x x) -> Forall2 R l l.
Proof. intros Hg. induction l; constructor; auto. Qed.

(** What a run of auto-closes leaves: the engagements; each task as it
    was or closed; and every task that shares its key with a row that was
    open and at capacity, closed. *)
Lemma foldl_close_if_full rows s :
  let s' := foldl close_if_full s rows in
  volunteer_acceptances s' = volunteer_acceptances s
  /\ Forall2 (fun x0 x => x = x0 \/ x = set_task_status Closed x0) (tasks s) (tasks s')
  /\ forall row, row ∈ rows -> at_capacity row = true -> t_status row.1 = Open ->
       forall x, x ∈ tasks s' -> t_id x = t_id row.1 -> t_status x = Closed.
Proof.
  revert s. induction rows as [|row rows IH]; intros s; cbv zeta; cbn [foldl].
  - split; [reflexivity |]. split.
    + apply Forall2_self. auto.
    + intros row Hrow. inversion Hrow.
  - destruct (IH (close_if_full s row)) as (Ha & Ht & Hc). cbv zeta in Ha, Ht, Hc.
    set (s1 := close_if_full s row) in *. set (s' := foldl close_if_full s1 rows) in *.
    assert (Ha1 : volunteer_acceptances s1 = volunteer_acceptances s).
    { unfold s1, close_if_full. now destruct (_ && _). }
    assert (Ht1 : Forall2 (fun x0 x => x = x0 \/ x = set_task_status Closed x0)
                    (tasks s) (tasks s1)).
    { unfold s1, close_if_full. destruct (_ && _).
      - simpl. apply Forall2_fmap_self. intros x. destruct (decide _); auto.
      - apply Forall2_self. auto. }
    split; [congruence |]. split.
    + apply Forall2_same_length_lookup_2.
      { rewrite (Forall2_length _ _ _ Ht1). exact (Forall2_length _ _ _ Ht). }
      intros i x0 x Hx0 Hx.
      destruct (Forall2_lookup_l _ _ _ _ _ Ht1 Hx0) as (x1 & Hx1 & H1).
      destruct (Forall2_lookup_l _ _ _ _ _ Ht Hx1) as (x' & Hx' & H').
      assert (x' = x) as -> by congruence.
      destruct H1 as [-> | ->]; destruct H' as [-> | ->]; auto.
    + intros row' Hrow' Hcap Hopen x Hx Hid.
      apply elem_of_cons in Hrow' as [-> | Hrow']; [| exact (Hc row' Hrow' Hcap Hopen x Hx Hid)].
      apply list_elem_of_lookup in Hx as [i Hx].
      destruct (Forall2_lookup_r _ _ _ _ _ Ht Hx) as (x1 & Hx1 & H1).
      assert (Hclosed : t_status x1 = Closed).
      { unfold s1, close_if_full in Hx1. rewrite Hcap, Hopen in Hx1.
        rewrite bool_decide_eq_true_2 in Hx1 by reflexivity. simpl in Hx1.
        rewrite list_lookup_fmap in Hx1.
        destruct (tasks s !! i) as [x0 |]; [| discriminate].
        injection Hx1 as <-.
        assert (Hid0 : t_id x0 = t_id row.1).
        { destruct H1 as [-> | ->]; simpl in Hid; destruct (decide _); auto. }
        now rewrite decide_True. }
      destruct H1 as [-> | ->]; [exact Hclosed | reflexivity].
Qed.

End RenderRuns.

(** X9.  A run of the NGO's tasks tab in which nothing is pressed, on a
    store that does not fail, leaves no task of the list open at or over
    its capacity: afterwards every task the NGO is shown that has a
    positive [max_volunteers] and at least that many approved volunteers is
    closed.  The run changes no engagement. *)
Theorem render_closes_tasks_at_capacity (ngo_id now now' : Z)
    (ss : gmap string (list Z)) (s : store) :
  let r := run (render_tasks_tab ngo_id now now') ss s in
  r.1 = inr tt
  /\ volunteer_acceptances r.2 = volunteer_acceptances s
  /\ forall row, row ∈ get_tasks_with_counts ngo_id r.2 ->
       at_capacity row = true -> t_status row.1 = Closed.
Proof.
  cbv zeta. rewrite render_tasks_tab_run. cbn [fst snd].
  destruct (foldl_close_if_full (get_tasks_with_counts ngo_id s) s) as (Ha & Ht & Hc).
  cbv zeta in Ha, Ht, Hc. set (s' := foldl close_if_full s _) in *.
  split; [reflexivity |]. split; [exact Ha |].
  intros row Hrow Hcap. unfold get_tasks_with_counts in Hrow.
  apply list_elem_of_fmap in Hrow as (x & -> & Hx).
  rewrite merge_sort_Permutation in Hx.
  apply list_elem_of_filter in Hx as [[Hngo Hdel] Hx]. cbn [fst].
  pose proof Hx as Hx'. apply list_elem_of_lookup in Hx' as [i Hi].
  destruct (Forall2_lookup_r _ _ _ _ _ Ht Hi) as (x0 & Hi0 & H0).
  destruct H0 as [-> | ->]; [| reflexivity].
  destruct (t_status x0) eqn:Hst; [| reflexivity].
  assert (Hcount : approved_count s' (t_id x0) = approved_count s (t_id x0)).
  { unfold approved_count. now rewrite Ha. }
  assert (Hrow0 : (x0, approved_count s (t_id x0)) ∈ get_tasks_with_counts ngo_id s).
  { unfold get_tasks_with_counts.
    apply (list_elem_of_fmap_2 (fun t => (t, approved_count s (t_id t)))).
    rewrite merge_sort_Permutation. apply list_elem_of_filter. split; [auto |].
    now apply list_elem_of_lookup_2 in Hi0. }
  rewrite Hcount in Hcap.
  rewrite <- Hst. apply (Hc _ Hrow0 Hcap Hst x0 Hx eq_refl).
Qed.

(* ===================================================================== *)
(** * The analytics of an NGO *)
(* ===================================================================== *)

Section AnalyticsFacts.

Lemma filter_none {A} (P : A -> Prop) `{!forall x, Decision (P x)} (l : list A) :
  (forall x, x ∈ l -> ~ P x) -> filter P l = [].
Proof.
  induction l as [|x l IH]; intros Hnone; [reflexivity |].
  rewrite filter_cons, decide_False by (apply Hnone; left).
  apply IH. intros y Hy. apply Hnone. now right.
Qed.




End AnalyticsFacts.



(* ===================================================================== *)
(** * File name prefixes and age requirements *)
(* ===================================================================== *)

Section SanitizeFacts.

Lemma sub_runs_chars b s : string_forall is_identifier_char (sub_runs b s) = true.
Proof.
  revert b. induction s as [|c s IH]; intros b; [reflexivity |].
  simpl. destruct (is_lower_alnum c) eqn:E.
  - simpl. unfold is_identifier_char at 1. rewrite E. simpl. apply IH.
  - destruct b; [apply IH |]. simpl. apply IH.
Qed.

Lemma lstrip_underscores_chars f s :
  string_forall f s = true -> string_forall f (lstrip_underscores s) = true.
Proof.
  induction s as [|c s IH]; [auto |]. simpl. intros H.
  apply andb_true_iff in H as [Hc Hs].
  destruct (Ascii.eqb c "_"); [auto |]. simpl. now rewrite Hc, Hs.
Qed.

Lemma rstrip_underscores_chars f s :
  string_forall f s = true -> string_forall f (rstrip_underscores s) = true.
Proof.
  induction s as [|c s IH]; [auto |]. simpl. intros H.
  apply andb_true_iff in H as [Hc Hs]. specialize (IH Hs).
  destruct (rstrip_underscores s) as [|c' r].
  - destruct (Ascii.eqb c "_"); [reflexivity |]. simpl. now rewrite Hc.
  - change (f c && string_forall f (String c' r) = true). now rewrite Hc, IH.
Qed.

Lemma lstrip_underscores_first s :
  first_char (lstrip_underscores s) <> Some "_"%char.
Proof.
  induction s as [|c s IH]; [discriminate |]. simpl.
  destruct (Ascii.eqb c "_") eqn:E; [exact IH |].
  simpl. intros [= ->]. discriminate.
Qed.

Lemma rstrip_underscores_first s :
  first_char s <> Some "_"%char -> first_char (rstrip_underscores s) <> Some "_"%char.
Proof.
  destruct s as [|c s]; [auto |]. simpl. intros Hc.
  destruct (rstrip_underscores s); [| exact Hc].
  destruct (Ascii.eqb c "_"); [discriminate | exact Hc].
Qed.

Lemma rstrip_underscores_last s :
  last_char (rstrip_underscores s) <> Some "_"%char.
Proof.
  induction s as [|c s IH]; [discriminate |]. simpl.
  destruct (rstrip_underscores s) as [|c' r] eqn:E.
  - destruct (Ascii.eqb c "_") eqn:Ec; [discriminate |].
    simpl. intros [= ->]. discriminate.
  - exact IH.
Qed.

End SanitizeFacts.

(** X15.  [_sanitize_identifier] always gives a usable file name prefix: it
    is never empty, it holds nothing but lower-case letters, digits and
    underscores (so no path separator and no dot), and it neither starts
    nor ends with an underscore. *)
Theorem sanitize_identifier_safe (value : string) :
  let identifier := _sanitize_identifier value in
  nonempty identifier = true
  /\ string_forall is_identifier_char identifier = true
  /\ first_char identifier <> Some "_"%char
  /\ last_char identifier <> Some "_"%char.
Proof.
  cbv zeta. unfold _sanitize_identifier. cbv zeta.
  set (r := strip_underscores _).
  destruct (nonempty r) eqn:E.
  - split; [exact E |]. split; [| split].
    + apply rstrip_underscores_chars, lstrip_underscores_chars, sub_runs_chars.
    + apply rstrip_underscores_first, lstrip_underscores_first.
    + apply rstrip_underscores_last.
  - vm_compute. repeat split; discriminate.
Qed.

Section AgeFacts.








End AgeFacts.



(* ===================================================================== *)
(** * Applications to tasks that take none *)
(* ===================================================================== *)

(** X17.  No application goes through to a task that is deleted, closed or
    full.  If every task with the key is deleted, or closed, or has a
    [max_volunteers] that the approved count has reached, then "Apply for
    Task" for this key, from any volunteer and with any form, leaves the
    database as it is, wherever the store fails. *)
Theorem no_application_to_unavailable_task (exn_text : exn -> string) (s : store)
    (volunteer_id task_id : Z) (form : apply_form) (fuse : option nat)
    (ss : gmap string (list Z)) :
  (forall t, t ∈ tasks s -> t_id t = task_id -> unavailable s t) ->
  db (volunteer_dashboard exn_text volunteer_id (SubmitApply task_id form)
        (mkWorld s fuse ss)).2 = s.
Proof.
  intros Hun.
  assert (Hexp : forall t,
            t_status t = Closed
            \/ (truthy (t_max_volunteers t) = true
                /\ default 0 (t_max_volunteers t) <= approved_count s (t_id t)) ->
            keeps (eq s)
              (browse_expander exn_text volunteer_id t (SubmitApply task_id form))).
  { intros t Ht. unfold browse_expander.
    apply keeps_bind; [apply keeps_fetch | intros already].
    apply keeps_fetch_bind. intros volunteer_count. cbv zeta.
    destruct (bool_decide (t_status t = Closed)) eqn:Hc; [apply keeps_weaken, keeps_ret |].
    apply bool_decide_eq_false in Hc. destruct Ht as [Ht | [Hmax Hfull]]; [contradiction |].
    destruct already as [acc |].
    - destruct (va_approval_status acc); try (apply keeps_weaken, keeps_ret).
      destruct (bool_decide _); apply keeps_weaken, keeps_ret.
    - intros w [Heq ->]. rewrite <- Heq, Hmax, bool_decide_eq_true_2 by exact Hfull.
      simpl. exact Heq. }
  assert (Hkeeps : keeps (eq s)
            (volunteer_dashboard exn_text volunteer_id (SubmitApply task_id form))).
  { unfold volunteer_dashboard. apply keeps_fetch_bind. intros tasks w [Heq ->].
    rewrite <- Heq.
    destruct (snd <$> list_find _ (browse_tasks s)) as [t |] eqn:Hfind; [| now simpl].
    destruct (list_find _ (browse_tasks s)) as [[i t'] |] eqn:E; [| discriminate].
    injection Hfind as ->. apply list_find_Some in E as (Hi & Hid & _).
    apply list_elem_of_lookup_2 in Hi. simpl in Hid. injection Hid as Hid.
    unfold browse_tasks in Hi. rewrite merge_sort_Permutation in Hi.
    apply list_elem_of_filter in Hi as [Hdel Hin].
    apply (Hexp t); [| exact Heq].
    destruct (Hun t Hin Hid) as [Hd | H']; [congruence | exact H']. }
  specialize (Hkeeps (mkWorld s fuse ss) eq_refl).
  destruct (volunteer_dashboard _ _ _ _) as [[e | a] w']; now symmetry.
Qed.

Lemma no_application_to_unavailable_task_witness :
  db (volunteer_dashboard Scenario.sqlite_text 2 (SubmitApply 1 Scenario.application)
        (mkWorld (Scenario.approved_alone Scenario.sqlite_text) None ∅)).2
  = Scenario.approved_alone Scenario.sqlite_text.
Proof.
  apply no_application_to_unavailable_task.
  intros t Hin Hid. vm_compute in Hin.
  apply elem_of_cons in Hin as [-> | Hin]; [| now apply elem_of_nil in Hin].
  right. left. reflexivity.
Defined.

(* ===================================================================== *)
(** * The totals of the NGOs and of the volunteers *)
(* ===================================================================== *)

Section SumFacts.









End SumFacts.

Section StatisticsFacts.




End StatisticsFacts.



(* ===================================================================== *)
(** * Creating a task, and reading a notification *)
(* ===================================================================== *)

Section CreateFacts.

Lemma create_task_run ngo_id f sd ed now now' ss s :
  valid_task_form f sd ed ->
  (check_action_rate_limit ss ngo_id "create_task" now now').1 = true ->
  run (create_task ngo_id f now now') ss s
  = (inr true,
     with_tasks
       (tasks s ++ [mkTask (tasks_seq s + 1) ngo_id (f_title f) (f_desc f) (f_loc f)
                      (f_address f) (Some sd) (Some ed) (f_hours f) Open (f_category f)
                      (f_required_skills f) (Some (f_max_volunteers f)) (f_contact_email f)
                      (f_contact_phone f) (f_deadline f) (f_urgency f) (f_age_requirement f)
                      (f_physical f) (f_equipment f) false (f_wage_rate f)])
       (tasks_seq s + 1) s).
Proof.
  intros (Hreq & Hsd & Hed & Hle & ws & we & Hws & Hwe & Hlt) Hok.
  unfold run, create_task. rewrite run_rate_limit_bind, Hok. simpl negb. cbv iota.
  rewrite Hreq. simpl negb. cbv iota. rewrite Hsd, Hed.
  unfold date_leb in Hle. apply negb_true_iff in Hle. rewrite Hle, Hws, Hwe.
  rewrite bool_decide_eq_false_2 by lia. reflexivity.
Qed.

End CreateFacts.

(** X19.  A task that was just created is open, listed, and has no
    volunteers.  From any state the application reaches, on a store that
    does not fail, "Create Task" with a form that passes the checks and a
    request the limiter lets through appends one task: its key is new, it
    belongs to the NGO, it is open and not deleted, no engagement is for
    it, and the NGO's list shows it with a volunteer count of 0. *)
Theorem created_task_is_open_and_empty (exn_text : exn -> string) (s : store)
    (ngo_id : Z) (f : task_form) (start_d end_d : date) (now now' : Z)
    (ss : gmap string (list Z)) :
  reachable exn_text s ->
  valid_task_form f start_d end_d ->
  (check_action_rate_limit ss ngo_id "create_task" now now').1 = true ->
  let r := run (create_task ngo_id f now now') ss s in
  r.1 = inr true
  /\ volunteer_acceptances r.2 = volunteer_acceptances s
  /\ exists t,
       tasks r.2 = tasks s ++ [t]
       /\ (forall x, x ∈ tasks s -> t_id x <> t_id t)
       /\ t_ngo_id t = ngo_id /\ t_status t = Open /\ t_is_deleted t = false
       /\ t_start_date t = Some start_d /\ t_end_date t = Some end_d
       /\ (forall row, row ∈ volunteer_acceptances r.2 -> va_task_id row <> t_id t)
       /\ (t, 0) ∈ get_tasks_with_counts ngo_id r.2.
Proof.
  intros Hreach Hvalid Hok. cbv zeta. rewrite (create_task_run _ _ _ _ _ _ _ _ Hvalid Hok).
  destruct (reachable_store_inv exn_text s Hreach) as (_ & _ & _ & Href & [_ Hk] & _).
  cbn [fst snd]. split; [reflexivity |]. split; [reflexivity |].
  eexists. split; [reflexivity |].
  assert (Hfresh : forall row, row ∈ volunteer_acceptances s ->
                     va_task_id row <> tasks_seq s + 1).
  { intros row Hrow Heq. destruct (Href row Hrow) as [Hex _].
    apply Exists_exists in Hex as (x & Hx & Hid). specialize (Hk x Hx). lia. }
  split; [intros x Hx; specialize (Hk x Hx); simpl; lia |].
  repeat (split; [reflexivity |]). split; [exact Hfresh |].
  unfold get_tasks_with_counts.
  match goal with |- (?t, 0) ∈ _ =>
    assert (Hcount : approved_count (with_tasks (tasks s ++ [t]) (tasks_seq s + 1) s) (t_id t) = 0)
  end.
  { unfold approved_count. simpl. rewrite filter_none; [reflexivity |].
    intros row Hrow [Hid _]. exact (Hfresh row Hrow Hid). }
  rewrite <- Hcount at 1.
  apply (list_elem_of_fmap_2 (fun t => (t, approved_count _ (t_id t)))).
  rewrite merge_sort_Permutation. apply list_elem_of_filter. split; [simpl; auto |].
  simpl. apply elem_of_app. right. left.
Qed.

Lemma created_task_is_open_and_empty_witness :
  (run (create_task 1 Scenario.one_day_task 0 0) ∅
     (register_event (register_event empty_store))).1 = inr true.
Proof.
  assert (Hv : valid_task_form Scenario.one_day_task Scenario.day Scenario.day).
  { split; [vm_compute; reflexivity |]. split; [reflexivity |]. split; [reflexivity |].
    split; [vm_compute; reflexivity |]. exists 9, 13.
    split; [reflexivity |]. split; [reflexivity | lia]. }
  assert (Hok : (check_action_rate_limit ∅ 1 "create_task" 0 0).1 = true)
    by (vm_compute; reflexivity).
  pose proof (created_task_is_open_and_empty Scenario.sqlite_text
                (register_event (register_event empty_store)) 1 Scenario.one_day_task
                Scenario.day Scenario.day 0 0 ∅
                (reachable_register _ _ (reachable_register _ _ (reachable_init _)))
                Hv Hok) as H.
  cbv zeta in H. exact (proj1 H).
Defined.



(* ===================================================================== *)
(** * The day type filter *)
(* ===================================================================== *)

Section DayFacts.

Lemma weekday_range (d : date) : 0 <= weekday d < 7.
Proof. unfold weekday. apply Z.mod_pos_bound. lia. Qed.

(** A day is a weekend day or a weekday, and not both. *)
Lemma weekend_or_weekday (d : date) :
  is_weekend_day (Some d) = negb (is_weekday_day (Some d)).
Proof.
  unfold is_weekend_day, is_weekday_day. pose proof (weekday_range d) as Hr.
  assert (Hcase : weekday d = 0 \/ weekday d = 1 \/ weekday d = 2 \/ weekday d = 3
                  \/ weekday d = 4 \/ weekday d = 5 \/ weekday d = 6) by lia.
  destruct Hcase as [-> | [-> | [-> | [-> | [-> | [-> | ->]]]]]]; reflexivity.
Qed.

End DayFacts.

(** X21.  The "Weekend" and "Weekday" choices of the day type filter lose no
    task: in every state the application reaches, each task is shown under
    at least one of the two, and a task of one day (its end date is its
    start date) under exactly one. *)
Theorem day_type_filters_cover_every_task (exn_text : exn -> string) (s : store) (t : task) :
  reachable exn_text s -> t ∈ tasks s ->
  (t ∈ day_type_filter_tasks Weekend (tasks s) \/ t ∈ day_type_filter_tasks Weekday (tasks s))
  /\ (t_start_date t = t_end_date t ->
      ~ (t ∈ day_type_filter_tasks Weekend (tasks s)
         /\ t ∈ day_type_filter_tasks Weekday (tasks s))).
Proof.
  intros Hreach Ht.
  destruct (reachable_store_inv exn_text s Hreach) as (_ & _ & _ & _ & _ & Hd & _).
  destruct (Hd t Ht) as (sd & ed & Hsd & Hed & _).
  unfold day_type_filter_tasks. rewrite !list_elem_of_filter, Hsd, Hed.
  rewrite (weekend_or_weekday sd), (weekend_or_weekday ed). split.
  - destruct (is_weekday_day (Some sd)); simpl; [right | left]; auto.
  - intros [= ->]. intros [[Hwe _] [Hwd _]].
    destruct (is_weekday_day (Some ed)); simpl in *; discriminate.
Qed.

Lemma day_type_filters_cover_every_task_witness :
  weekday Scenario.day = 4
  /\ Forall (fun t => t ∈ day_type_filter_tasks Weekday (tasks Scenario.posted))
       (tasks Scenario.posted).
Proof.
  split; [vm_compute; reflexivity |].
  apply Forall_forall. intros t Ht.
  destruct (day_type_filters_cover_every_task Scenario.sqlite_text Scenario.posted t
              (reachable_posted Scenario.sqlite_text) Ht) as [[Hwe | Hwd] _];
    [| exact Hwd].
  exfalso. unfold day_type_filter_tasks in Hwe. apply list_elem_of_filter in Hwe as [Hwe _].
  vm_compute in Ht.
  apply elem_of_cons in Ht as [-> | Ht]; [vm_compute in Hwe; discriminate |].
  now apply elem_of_nil in Ht.
Defined.

(* ===================================================================== *)
(** * Removing a volunteer *)
(* ===================================================================== *)

Section RemoveFacts.

Lemma task_by_id_unique s id t :
  NoDup (t_id <$> tasks s) -> t ∈ tasks s -> t_id t = id -> task_by_id s id = Some t.
Proof.
  intros Hn Ht Hid. unfold task_by_id.
  destruct (list_find _ (tasks s)) as [[i t'] |] eqn:E.
  - apply list_find_Some in E as (Hi & Hid' & _). apply list_elem_of_lookup_2 in Hi.
    simpl. f_equal. apply (key_determines_row t_id (tasks s) t' t Hn Hi Ht). congruence.
  - apply list_find_None in E. rewrite Forall_forall in E. now destruct (E t Ht).
Qed.

End RemoveFacts.

(** X22.  When the NGO removes a volunteer, the task does not stay closed
    with a free place.  From any state the application reaches, on a store
    that does not fail, the confirmed removal deletes the engagement row
    and nothing else of the table, and afterwards a task with the key that
    has a [max_volunteers] above its approved count is open (also one the
    NGO had closed by hand). *)
Theorem remove_reopens_task_with_free_place (exn_text : exn -> string) (s : store)
    (acceptance_id task_id : Z) (ss : gmap string (list Z)) :
  reachable exn_text s ->
  let r := run (confirm_remove acceptance_id task_id) ss s in
  r.1 = inr true
  /\ volunteer_acceptances r.2
     = filter (fun row => va_id row <> acceptance_id) (volunteer_acceptances s)
  /\ forall t, t ∈ tasks r.2 -> t_id t = task_id ->
       truthy (t_max_volunteers t) = true ->
       approved_count r.2 task_id < default 0 (t_max_volunteers t) ->
       t_status t = Open.
Proof.
  intros Hreach. cbv zeta.
  destruct (reachable_store_inv exn_text s Hreach) as (_ & _ & _ & _ & [Hn _] & _).
  unfold run, confirm_remove. rewrite run_execute_bind, run_fetch_bind.
  set (s1 := delete_acceptance acceptance_id s).
  assert (Hn1 : NoDup (t_id <$> tasks s1)) by exact Hn.
  assert (Hsame : forall t, t ∈ tasks s1 -> t_id t = task_id ->
                    task_by_id s1 task_id = Some t).
  { intros t Ht Hid. now apply task_by_id_unique. }
  destruct (task_by_id s1 task_id) as [ti |] eqn:Hti.
  - destruct (bool_decide (t_status ti = Closed)) eqn:Hst.
    + cbv zeta. destruct (default 0 (t_max_volunteers ti) =? 0) eqn:Hmax.
      * cbn [negb fst snd db]. split; [reflexivity |]. split; [reflexivity |].
        intros t Ht Hid Htruthy _. specialize (Hsame t Ht Hid). injection Hsame as <-.
        apply Z.eqb_eq in Hmax. unfold truthy in Htruthy.
        destruct (t_max_volunteers ti) as [k |]; [| discriminate].
        simpl in Hmax. subst k. discriminate.
      * cbn [negb]. cbv iota. rewrite run_fetch_bind.
        destruct (bool_decide (approved_count s1 task_id < _)) eqn:Hcount.
        -- rewrite run_execute_bind. cbn [fst snd db]. split; [reflexivity |].
           split; [reflexivity |]. intros t Ht Hid _ _. simpl in Ht.
           apply list_elem_of_fmap in Ht as (t0 & -> & Ht0).
           destruct (decide (t_id t0 = task_id)) as [| Hne]; [reflexivity |].
           now destruct Hne.
        -- cbn [fst snd db]. split; [reflexivity |]. split; [reflexivity |].
           intros t Ht Hid _ Hfree. specialize (Hsame t Ht Hid). injection Hsame as <-.
           apply bool_decide_eq_false in Hcount. contradiction.
    + cbn [fst snd db]. split; [reflexivity |]. split; [reflexivity |].
      intros t Ht Hid _ _. specialize (Hsame t Ht Hid). injection Hsame as <-.
      apply bool_decide_eq_false in Hst. now destruct (t_status ti).
  - cbn [fst snd db]. split; [reflexivity |]. split; [reflexivity |].
    intros t Ht Hid. specialize (Hsame t Ht Hid). discriminate.
Qed.

Lemma remove_reopens_task_with_free_place_witness :
  let s := Scenario.approved_alone Scenario.sqlite_text in
  (run (confirm_remove 1 1) ∅ s).1 = inr true.
Proof.
  pose proof (remove_reopens_task_with_free_place Scenario.sqlite_text
                (Scenario.approved_alone Scenario.sqlite_text) 1 1 ∅
                (reachable_approved_alone Scenario.sqlite_text)) as H.
  cbv zeta in H. cbv zeta. exact (proj1 H).
Defined.
